(** * batch_video_copy.py: a shallow embedding and its verification

    The script walks a source tree, and moves every file whose name
    contains a keyword and ends with a video extension into one flat
    destination directory, printing a line per move.

    Layout of this file:
    - [Str]: the Python string operations the script uses;
    - [Posix]: [os.path.join], [os.path.expanduser], path resolution;
    - [Fs]: a filesystem (finite map from resolved paths to entries), the
      exceptions, the trace of observable operations and the monad the
      script runs in, then [os.makedirs], [os.walk] and [shutil.move];
    - [Script]: the script itself, statement by statement;
    - the theorems.

    Scope of the model.  Strings are byte strings and [lower] folds the
    ASCII letters only, which is what [str.lower] does on ASCII strings.
    The filesystem has regular files and directories (no symbolic links,
    one device, one process); a directory carries a read and a write
    permission bit, a file is always readable and writable, and there is
    always room on the disk.  Paths are resolved component by component,
    [..] dropping the component before it.  [print] writes its line and
    does not fail.  What an unhandled exception writes goes to standard
    error and is not part of the trace.

    Where a statement depends on one of these choices it is made for
    plain names ([plain_names]: proper names of printable ASCII
    characters) and a plain home directory ([plain_home]: printable, no
    [..]), on which Python, the kernel and the model agree; and what is
    said of exceptions is said as well of the script over any library
    ([main_with]), where the three calls that can fail do what they
    will.  *)

From Stdlib Require Import Ascii.
From stdpp Require Import gmap strings list fin_maps.

Local Open Scope stdpp_scope.

(* ===================================================================== *)
(** * Python [str] operations *)
(* ===================================================================== *)

Module Str.

(** [c.lower()] on one ASCII character: [A]..[Z] are 65..90. *)
Definition lower_char (c : ascii) : ascii :=
  let n := nat_of_ascii c in
  if (65 <=? n) && (n <=? 90) then ascii_of_nat (n + 32) else c.

(** [s.lower()] on ASCII strings: [A]..[Z] go to [a]..[z] and nothing
    else changes.  On other strings [str.lower] is the lowering of
    Unicode, which this is not: what depends on it is stated for ASCII
    strings ([isascii]). *)
Fixpoint lower (s : string) : string :=
  match s with
  | EmptyString => EmptyString
  | String c s' => String (lower_char c) (lower s')
  end.

(** [s.startswith(pre)] *)
Fixpoint startswith (s pre : string) {struct pre} : bool :=
  match pre, s with
  | EmptyString, _ => true
  | String _ _, EmptyString => false
  | String a pre', String b s' => if Ascii.eqb a b then startswith s' pre' else false
  end.

(** [sub in s] *)
Fixpoint contains (s sub : string) : bool :=
  startswith s sub ||
  match s with
  | EmptyString => false
  | String _ s' => contains s' sub
  end.

(** [s.endswith(suf)] *)
Fixpoint endswith (s suf : string) : bool :=
  String.eqb s suf ||
  match s with
  | EmptyString => false
  | String _ s' => endswith s' suf
  end.

(** [s.split("/")]: never empty, [""] splits into one empty piece. *)
Fixpoint split_slash (s : string) : list string :=
  match s with
  | EmptyString => [EmptyString]
  | String c s' =>
      if Ascii.eqb c "/"%char then EmptyString :: split_slash s'
      else match split_slash s' with
           | x :: xs => String c x :: xs
           | [] => [String c EmptyString]
           end
  end.

(** [s.rstrip("/")] *)
Fixpoint rstrip_slash (s : string) : string :=
  match s with
  | EmptyString => EmptyString
  | String c s' =>
      let r := rstrip_slash s' in
      if Ascii.eqb c "/"%char && String.eqb r EmptyString then EmptyString
      else String c r
  end.

(** [any(p(x) for x in xs)] *)
Definition any {A} (p : A → bool) (xs : list A) : bool := existsb p xs.

(** [s.isascii()] *)
Fixpoint isascii (s : string) : bool :=
  match s with
  | EmptyString => true
  | String c s' => (nat_of_ascii c <? 128) && isascii s'
  end.

(** The strings of printable ASCII characters, 32 to 126: those for
    which [s.isascii() and s.isprintable()] holds.  On them [lower] is
    what [s.lower()] computes, and [print] writes one line in every
    encoding of standard output. *)
Fixpoint printable (s : string) : bool :=
  match s with
  | EmptyString => true
  | String c s' =>
      (32 <=? nat_of_ascii c) && (nat_of_ascii c <? 127) && printable s'
  end.


End Str.

(* ===================================================================== *)
(** * [posixpath] *)
(* ===================================================================== *)

(** A resolved path: the components from the root directory down. *)
Abbreviation path := (list string).

Module Posix.

(** [os.path.join(a, b)] with two arguments. *)
Definition join (a b : string) : string :=
  if Str.startswith b "/" then b
  else if String.eqb a "" || Str.endswith a "/" then a +:+ b
  else a +:+ "/" +:+ b.

(** [os.path.basename(p)]: what follows the last slash. *)
Definition basename (p : string) : string :=
  List.last (Str.split_slash p) "".

(** [os.path.expanduser(p)].  [home] is the home directory the
    environment (or the password database) knows; [None] when there is
    none, in which case the path comes back unchanged.  The [~user]
    form needs the password database and is returned unchanged here; the
    script does not use it. *)
Definition expanduser (home : option string) (p : string) : string :=
  match p with
  | String "~"%char rest =>
      if String.eqb rest "" || Str.startswith rest "/" then
        match home with
        | None => p
        | Some userhome =>
            let r := Str.rstrip_slash userhome +:+ rest in
            if String.eqb r "" then "/" else r
        end
      else p
  | _ => p
  end.

(** One step of path resolution: empty components and [.] stay in
    place, [..] goes up (the root is its own parent), a name goes down. *)
Definition walk_component (acc : path) (c : string) : path :=
  if String.eqb c "" || String.eqb c "." then acc
  else if String.eqb c ".." then removelast acc
  else acc ++ [c].

(** Where resolution starts: the root for an absolute path, the working
    directory [cwd] for a relative one. *)
Definition base (cwd : path) (s : string) : path :=
  if Str.startswith s "/" then [] else cwd.

(** Resolution of a path string by the kernel. *)
Definition resolve (cwd : path) (s : string) : path :=
  fold_left walk_component (Str.split_slash s) (base cwd s).

(** The parent directory of a resolved path. *)
Definition parent (p : path) : path := removelast p.

(** A name a directory entry can have. *)
Definition proper_name (n : string) : bool :=
  negb (String.eqb n "") && negb (String.eqb n ".") && negb (String.eqb n "..")
  && negb (Str.contains n "/").

(** No component of the path string is [..]. *)
Definition no_dotdot (s : string) : bool :=
  forallb (λ c, negb (String.eqb c "..")) (Str.split_slash s).

End Posix.

(* ===================================================================== *)
(** * The filesystem and the operations on it *)
(* ===================================================================== *)

Module Fs.
Import Posix.

(** What a resolved path can hold. *)
Inductive entry :=
| File (data : string)
| Dir (readable writable : bool).

#[global] Instance entry_eq_dec : EqDecision entry.
Proof. solve_decision. Defined.

(** The filesystem: a finite map from resolved paths to entries.  The
    root directory is the entry at [[]]. *)
Abbreviation filesystem := (gmap path entry).

(** The [OSError] subclasses the operations raise. *)
Inductive exn :=
| FileNotFoundError
| NotADirectoryError
| PermissionError
| FileExistsError
| IsADirectoryError
| ShutilError          (* shutil.Error *)
| SameFileError.       (* shutil.SameFileError *)

#[global] Instance exn_eq_dec : EqDecision exn.
Proof. solve_decision. Defined.

(** How a computation ends: with a value, with an exception, or outside
    the model ([Stuck]: the walk is out of fuel, or a directory is given
    to [os.rename]).  Lemma [main_not_stuck] shows the script never ends
    there on a filesystem whose entries have proper names. *)
Inductive outcome (A : Type) :=
| Done (a : A)
| Raised (e : exn)
| Stuck.
Arguments Done {A} a.
Arguments Raised {A} e.
Arguments Stuck {A}.

(** What an observer of the run sees, in order.  A move is recorded
    with the filesystem it was issued in. *)
Inductive event :=
| EvMakedirs (name : string) (r : outcome unit)
| EvScandir (top : string) (r : outcome unit)
| EvMove (pre : filesystem) (src dst : string) (r : outcome unit)
| EvPrint (line : string).

(** State (the filesystem), output (the trace) and exceptions. *)
Definition M (A : Type) : Type :=
  filesystem → filesystem * list event * outcome A.

Definition ret {A} (a : A) : M A := λ fs, (fs, [], Done a).
Definition raise {A} (e : exn) : M A := λ fs, (fs, [], Raised e).
Definition stuck {A} : M A := λ fs, (fs, [], Stuck).

Definition bind {A B} (m : M A) (k : A → M B) : M B := λ fs,
  match m fs with
  | (fs1, t1, Done a) =>
      match k a fs1 with
      | (fs2, t2, o) => (fs2, t1 ++ t2, o)
      end
  | (fs1, t1, Raised e) => (fs1, t1, Raised e)
  | (fs1, t1, Stuck) => (fs1, t1, Stuck)
  end.

(** [try: m except OSError as e: h e] (every [exn] is an [OSError]). *)
Definition catch {A} (m : M A) (h : exn → M A) : M A := λ fs,
  match m fs with
  | (fs1, t1, Raised e) =>
      match h e fs1 with
      | (fs2, t2, o) => (fs2, t1 ++ t2, o)
      end
  | r => r
  end.

Definition get : M filesystem := λ fs, (fs, [], Done fs).
Definition put (fs' : filesystem) : M unit := λ _, (fs', [], Done tt).
Definition emit (e : event) : M unit := λ fs, (fs, [e], Done tt).

Declare Scope prog_scope.
Delimit Scope prog_scope with prog.
Bind Scope prog_scope with M.
Notation "x ← y ; z" := (bind y (λ x, z))
  (at level 20, y at level 100, z at level 200, only parsing) : prog_scope.
Notation "x ;; z" := (bind x (λ _, z))
  (at level 100, z at level 200, only parsing, right associativity) : prog_scope.

(** [for x in xs: body x] *)
Fixpoint for_ {A} (xs : list A) (body : A → M unit) : M unit :=
  match xs with
  | [] => ret tt
  | x :: xs' => (body x ;; for_ xs' body)%prog
  end.

(** Forget the value of an outcome. *)
Definition void {A} (o : outcome A) : outcome unit :=
  match o with
  | Done _ => Done tt
  | Raised e => Raised e
  | Stuck => Stuck
  end.

(** ** Queries *)

Definition exists_ (fs : filesystem) (p : path) : bool :=
  bool_decide (is_Some (fs !! p)).

Definition isdir (fs : filesystem) (p : path) : bool :=
  match fs !! p with
  | Some (Dir _ _) => true
  | _ => false
  end.

Definition isfile (fs : filesystem) (p : path) : bool :=
  match fs !! p with
  | Some (File _) => true
  | _ => false
  end.

(** The name under which [k] is an entry of directory [p], if it is. *)
Definition child_name (p k : path) : option string :=
  match last k with
  | Some n => if decide (k = p ++ [n]) then Some n else None
  | None => None
  end.

(** The entries of directory [p], in the order the filesystem hands
    them out. *)
Definition listdir (fs : filesystem) (p : path) : list (string * entry) :=
  omap (λ ke, match child_name p ke.1 with
              | Some n => Some (n, ke.2)
              | None => None
              end) (map_to_list fs).

Definition is_dir_entry (ne : string * entry) : bool :=
  match ne.2 with Dir _ _ => true | File _ => false end.

(** The length of the longest path of the filesystem. *)
Definition fs_height (fs : filesystem) : nat :=
  max_list ((λ ke, length ke.1) <$> map_to_list fs).

(** ** System calls *)

(** The directory that holds [p] must exist and be writable. *)
Definition check_parent_writable (p : path) : M unit := λ fs,
  match fs !! parent p with
  | None => raise FileNotFoundError fs
  | Some (File _) => raise NotADirectoryError fs
  | Some (Dir _ false) => raise PermissionError fs
  | Some (Dir _ true) => ret tt fs
  end.

(** [os.mkdir(p)] *)
Definition os_mkdir (p : path) : M unit := λ fs,
  match fs !! p with
  | Some _ => raise FileExistsError fs
  | None => (check_parent_writable p ;; put (<[p := Dir true true]> fs))%prog fs
  end.

(** [os.scandir(p)], read to the end and split as [os.walk] does into
    the names of the directories and the names of the rest. *)
Definition scandir (p : path) : M (list string * list string) := λ fs,
  match fs !! p with
  | None => raise FileNotFoundError fs
  | Some (File _) => raise NotADirectoryError fs
  | Some (Dir false _) => raise PermissionError fs
  | Some (Dir true _) =>
      let es := listdir fs p in
      ret ((filter (λ ne, is_dir_entry ne = true) es).*1,
           (filter (λ ne, is_dir_entry ne = false) es).*1) fs
  end.

(** [os.rename(s, d)] for a regular file [s].  A directory [s] is
    outside the model. *)
Definition os_rename (s d : path) : M unit := λ fs,
  match fs !! s with
  | None => raise FileNotFoundError fs
  | Some (Dir _ _) => stuck fs
  | Some (File data) =>
      (check_parent_writable s ;;
       (if isdir fs d then raise IsADirectoryError else ret tt) ;;
       check_parent_writable d ;;
       put (<[d := File data]> (delete s fs)))%prog fs
  end.

(** [shutil.copyfile(s, d)] for a regular file [s]: an existing file [d]
    is overwritten in place, a new one needs a writable directory. *)
Definition copyfile (s d : path) : M unit := λ fs,
  if decide (s = d) then raise SameFileError fs else
  match fs !! s with
  | None => raise FileNotFoundError fs
  | Some (Dir _ _) => raise IsADirectoryError fs
  | Some (File data) =>
      match fs !! d with
      | Some (Dir _ _) => raise IsADirectoryError fs
      | Some (File _) => put (<[d := File data]> fs) fs
      | None => (check_parent_writable d ;; put (<[d := File data]> fs))%prog fs
      end
  end.

(** [os.unlink(p)] *)
Definition os_unlink (p : path) : M unit := λ fs,
  match fs !! p with
  | None => raise FileNotFoundError fs
  | Some (Dir _ _) => raise IsADirectoryError fs
  | Some (File _) => (check_parent_writable p ;; put (delete p fs))%prog fs
  end.

End Fs.

(* ===================================================================== *)
(** * The library functions the script calls *)
(* ===================================================================== *)

Module Lib.
Import Posix Fs.

Section WithCwd.
(** The working directory of the process. *)
Variable cwd : path.

(** The last step of [os.makedirs(name, exist_ok=True)]: the directory
    is made, and an error is let through unless the path is a directory
    by then. *)
Definition mkdir_exist_ok (p : path) : M unit :=
  catch (os_mkdir p)
        (λ e, fs ← get; if isdir fs p then ret tt else raise e)%prog.

(** [os.makedirs(name, exist_ok=True)] on the reversed resolved path:
    when the head does not exist it is made first, a
    [FileExistsError] from there being passed over; then comes the
    directory itself. *)
Fixpoint makedirs_rev (rp : list string) : M unit :=
  (match rp with
   | [] => ret tt
   | _ :: rhead =>
       fs ← get;
       if exists_ fs (rev rhead) then ret tt
       else catch (makedirs_rev rhead)
                  (λ e, if decide (e = FileExistsError) then ret tt else raise e)
   end ;;
   mkdir_exist_ok (rev rp))%prog.

(** [os.makedirs(name, exist_ok=True)], on the path [resolve] makes of
    [name].  [os.makedirs] works on the string, so that with a [..] in
    it the component before is made first when it is missing; without
    [..] ([plain_home]) the directories made are those of the resolved
    path. *)
Definition makedirs (name : string) : M unit :=
  makedirs_rev (rev (resolve cwd name)).

(** The [try: os.rename ... except OSError: copy, then unlink] of
    [shutil.move].  The source is no link and no directory, and
    [real_dst] is no directory, so [copy2] is [copyfile] here. *)
Definition rename_or_copy (src real_dst : string) : M unit :=
  catch (os_rename (resolve cwd src) (resolve cwd real_dst))
        (λ _, copyfile (resolve cwd src) (resolve cwd real_dst) ;;
              os_unlink (resolve cwd src))%prog.

(** [shutil.move(src, dst)] *)
Definition shutil_move (src dst : string) : M unit :=
  (fs ← get;
   if isdir fs (resolve cwd dst) then
     if decide (resolve cwd src = resolve cwd dst) then
       os_rename (resolve cwd src) (resolve cwd dst)
     else
       let real_dst := join dst (basename (Str.rstrip_slash src)) in
       if exists_ fs (resolve cwd real_dst) then raise ShutilError
       else rename_or_copy src real_dst
   else rename_or_copy src dst)%prog.

(** One directory of [os.walk]: its listing, or nothing when it
    cannot be listed ([onerror] is [None]). *)
Definition listing (top : string) : M (option (list string * list string)) :=
  catch (x ← scandir (resolve cwd top);
         emit (EvScandir top (Done tt)) ;;
         ret (Some x))%prog
        (λ e, emit (EvScandir top (Raised e)) ;; ret None)%prog.

(** [for root, dirs, files in os.walk(top): body root dirs files],
    top-down: a directory is listed when the walk reaches it, the body
    runs on the listing, then the walk goes down into the directories of
    the listing, in order.  [depth] bounds the nesting of the
    directories. *)
Fixpoint os_walk (depth : nat) (top : string)
         (body : string → list string → list string → M unit) : M unit :=
  match depth with
  | 0 => stuck
  | S d =>
      (r ← listing top;
       match r with
       | None => ret tt
       | Some (dirs, nondirs) =>
           body top dirs nondirs ;;
           for_ dirs (λ dirname, os_walk d (join top dirname) body)
       end)%prog
  end.

End WithCwd.
End Lib.

(* ===================================================================== *)
(** * The script *)
(* ===================================================================== *)

Module Script.
Import Posix Fs Lib.

Section Run.
(** The environment of the process: its working directory and the
    home directory of its user, if known. *)
Variable cwd : path.
Variable home : option string.

(** [source_dir = "path/to/your/subdirectory"] *)
Definition source_dir : string := "path/to/your/subdirectory".

(** [destination_dir = os.path.expanduser("~/Desktop/Filtered_Files")] *)
Definition destination_dir : string :=
  expanduser home "~/Desktop/Filtered_Files".

(** [file_extensions = {".mp4", ".avi", ".mov", ".mkv", ".flv", ".wmv"}] *)
Definition file_extensions : gset string :=
  {[ ".mp4"; ".avi"; ".mov"; ".mkv"; ".flv"; ".wmv" ]}.

(** [search_keyword = "play"] *)
Definition search_keyword : string := "play".

(** The condition of the [if] in the loop. *)
Definition matches (file : string) : bool :=
  Str.contains (Str.lower file) (Str.lower search_keyword)
  && Str.any (λ ext, Str.endswith (Str.lower file) ext)
             (elements file_extensions).

(** [print(line)] on a standard output that takes the line.  A [print]
    that raises (a name that cannot be encoded, a closed stream, a full
    disk) is not this definition: [main_with] leaves the call open. *)
Definition print (line : string) : M unit := emit (EvPrint line).

(** A call the trace records, with how it ended. *)
Definition observed {A} (mk : outcome unit → event) (m : M A) : M A := λ fs,
  match m fs with
  | (fs', t, o) => (fs', mk (void o) :: t, o)
  end.

(** [shutil.move(src, dst)], recorded with the filesystem it is issued
    in. *)
Definition move_file (src dst : string) : M unit := λ fs,
  observed (EvMove fs src dst) (shutil_move cwd src dst) fs.

(** The body of the inner loop. *)
Definition visit (root file : string) : M unit :=
  if matches file then
    let source_path := join root file in
    let destination_path := join destination_dir file in
    (move_file source_path destination_path ;;
     print ("Moved: " +:+ source_path +:+ " -> " +:+ destination_path))%prog
  else ret tt.

(** The two nested loops.  The walk gets fuel for the deepest path of the
    filesystem it starts in. *)
Definition transfer : M unit :=
  (fs ← get;
   os_walk cwd (S (fs_height fs)) source_dir
           (λ root _ files, for_ files (visit root)))%prog.

(** The script: [os.makedirs(destination_dir, exist_ok=True)], the
    loops, the last line. *)
Definition main : M unit :=
  (observed (EvMakedirs destination_dir) (makedirs cwd destination_dir) ;;
   transfer ;;
   print "Transfer complete.")%prog.

End Run.

(** Projections of a run. *)
Definition final_fs {A} (r : filesystem * list event * outcome A) := r.1.1.
Definition trace_of {A} (r : filesystem * list event * outcome A) := r.1.2.
Definition outcome_of {A} (r : filesystem * list event * outcome A) := r.2.

(** The lines written to standard output. *)
Definition stdout (t : list event) : list string :=
  omap (λ e, match e with EvPrint l => Some l | _ => None end) t.

(** The directories that could not be listed, with the exception. *)
Definition listing_failures (t : list event) : list (string * exn) :=
  omap (λ e, match e with
             | EvScandir top (Raised x) => Some (top, x)
             | _ => None
             end) t.

(** The moves issued, with how each ended. *)
Definition moves (t : list event) : list (string * string * outcome unit) :=
  omap (λ e, match e with EvMove _ s d r => Some (s, d, r) | _ => None end) t.



(** ** The script over any library

    The statements of the script with the three calls that can fail left
    open: [makedirs_ name] stands for
    [os.makedirs(name, exist_ok=True)], [move_ src dst] for
    [shutil.move(src, dst)] and [print_ line] for [print(line)], each
    with whatever it does to the filesystem, writes to the trace and
    raises (a full disk, a closed standard output, a name that cannot be
    encoded).  The walk and the two loops are those of [main], and
    [main] is the instance at the calls modelled above. *)
Section Skeleton.
Variable cwd : path.
Variable home : option string.
Variable makedirs_ : string → M unit.
Variable move_ : string → string → M unit.
Variable print_ : string → M unit.

Definition visit_with (root file : string) : M unit :=
  if matches file then
    let source_path := join root file in
    let destination_path := join (destination_dir home) file in
    (move_ source_path destination_path ;;
     print_ ("Moved: " +:+ source_path +:+ " -> " +:+ destination_path))%prog
  else ret tt.

Definition transfer_with : M unit :=
  (fs ← get;
   os_walk cwd (S (fs_height fs)) source_dir
           (λ root _ files, for_ files (visit_with root)))%prog.

Definition main_with : M unit :=
  (makedirs_ (destination_dir home) ;;
   transfer_with ;;
   print_ "Transfer complete.")%prog.

End Skeleton.

End Script.

(* ===================================================================== *)
(** * The vocabulary of the specification *)
(* ===================================================================== *)

Module Spec.
Import Posix Fs Lib Script.

(** The name of an entry: the last component of its path. *)
Definition name_of (k : path) : string := List.last k "".

(** What one [shutil.move] of the entry at [s] to [rd] can leave behind:
    the file moved; the file copied but not removed, when the unlink
    failed; nothing changed; or, for a directory, the model left. *)
Inductive move_result (fs : filesystem) (s rd : path) :
  filesystem → outcome unit → Prop :=
| mr_moved data :
    fs !! s = Some (File data) → isdir fs rd = false →
    move_result fs s rd (<[rd := File data]> (delete s fs)) (Done tt)
| mr_copied data e :
    fs !! s = Some (File data) → isdir fs rd = false → s ≠ rd →
    move_result fs s rd (<[rd := File data]> fs) (Raised e)
| mr_failed e :
    move_result fs s rd fs (Raised e)
| mr_stuck :
    isdir fs s = true →
    move_result fs s rd fs Stuck.

(** The line the script prints after a move. *)
Definition moved_line (src dst : string) : string :=
  "Moved: " +:+ src +:+ " -> " +:+ dst.


(** Every move of the trace went through. *)
Definition clean (t : list event) : Prop :=
  Forall (λ e, match e with EvMove _ _ _ r => r = Done tt | _ => True end) t.

(** How a trace and the outcome of its run fit: a run that is done has
    a clean trace; a run that raised [e] ends on a move that raised [e],
    after a clean trace; a run that left the model ran out of fuel after a
    clean trace or ends on a move that left it. *)
Definition ends_with (t : list event) (o : outcome unit) : Prop :=
  match o with
  | Done _ => clean t
  | Raised e =>
      ∃ t0 pre s d, t = t0 ++ [EvMove pre s d (Raised e)] ∧ clean t0
  | Stuck =>
      clean t ∨ ∃ t0 pre s d, t = t0 ++ [EvMove pre s d Stuck] ∧ clean t0
  end.

(** Two filesystems have the same directories, with the same
    permissions. *)
Definition dirs_agree (fs fs' : filesystem) : Prop :=
  ∀ k r w, fs !! k = Some (Dir r w) ↔ fs' !! k = Some (Dir r w).

(** Every move of the trace was issued in a filesystem with the
    directories of [fs]. *)
Definition moves_see_dirs (fs : filesystem) (t : list event) : Prop :=
  Forall (λ e, match e with
               | EvMove pre _ _ _ => dirs_agree fs pre
               | _ => True
               end) t.

(** What the loops write to the trace: listings, moves of matching names
    into the destination directory, and the lines of moves. *)
Definition loop_event (D : string) (e : event) : Prop :=
  match e with
  | EvMakedirs _ _ => False
  | EvScandir _ _ => True
  | EvMove _ s d _ =>
      ∃ root file, matches file = true ∧ s = join root file ∧ d = join D file
  | EvPrint l => ∃ s d, l = moved_line s d
  end.

(** [fs1] is [fs] with new, fully permitted directories at some of the
    prefixes of [p], and nothing else changed. *)
Definition adds_dirs (p : path) (fs fs1 : filesystem) : Prop :=
  ∀ k, fs1 !! k = fs !! k
       ∨ (fs !! k = None ∧ fs1 !! k = Some (Dir true true) ∧ k `prefix_of` p).

(** The paths a move of the trace takes from or writes to. *)
Definition touched_by (cwd : path) (t : list event) (k : path) : Prop :=
  ∃ pre s d r,
    EvMove pre s d r ∈ t ∧
    (k = resolve cwd s ∨ k = resolve cwd d ∨
     k = resolve cwd (join d (basename (Str.rstrip_slash s)))).

(** Paths made of names directory entries can have. *)
Definition wf_path (p : path) : Prop := Forall (λ n, proper_name n = true) p.

(** A filesystem whose paths are all made of such names. *)
Definition wf_names (fs : filesystem) : Prop :=
  map_Forall (λ k _, wf_path k) fs.

(** Where a move into the directory [pD] can put a file: under the name
    of the file, or inside a directory of that name. *)
Definition landing (pD : path) (k : path) : Prop :=
  ∃ n, matches n = true ∧ (k = pD ++ [n] ∨ k = pD ++ [n; n]).

(** What the loops may do to the filesystem: keep the directories, remove
    files picked by [Del], and put files where moves land. *)
Definition footprint (Del : path → Prop) (pD : path)
    (fs fs' : filesystem) : Prop :=
  dirs_agree fs fs' ∧
  ∀ k, fs' !! k ≠ fs !! k →
       (fs' !! k = None ∧ Del k) ∨ (isfile fs' k = true ∧ landing pD k).

(** The files with a matching name strictly below [p]. *)
Definition matching_below (p : path) (k : path) : Prop :=
  p `prefix_of` k ∧ k ≠ p ∧ matches (name_of k) = true.

(** The moves of the trace are of entries with a proper, matching name,
    to that name in the directory [D]. *)
Definition moves_wf (D : string) (t : list event) : Prop :=
  Forall (λ e, match e with
               | EvMove _ s d _ =>
                   ∃ root file, proper_name file = true ∧ matches file = true ∧
                                s = join root file ∧ d = join D file
               | _ => True
               end) t.

(** The files the walk from directory [p] finds: those of [p], and those
    the walk finds from the directories of [p]; a directory that cannot
    be read hides what is below it. *)
Inductive visible (fs : filesystem) : path → path → Prop :=
| visible_here p n w data :
    fs !! p = Some (Dir true w) →
    fs !! (p ++ [n]) = Some (File data) →
    visible fs p (p ++ [n])
| visible_below p n w r' w' k :
    fs !! p = Some (Dir true w) →
    fs !! (p ++ [n]) = Some (Dir r' w') →
    visible fs (p ++ [n]) k →
    visible fs p k.

(** Neither directory is inside the other. *)
Definition apart (p q : path) : Prop :=
  ¬ p `prefix_of` q ∧ ¬ q `prefix_of` p.

(** Every directory of the filesystem is at most [h] deep. *)
Definition dirs_within (h : nat) (fs : filesystem) : Prop :=
  ∀ k r w, fs !! k = Some (Dir r w) → length k ≤ h.

(** What a run of a part of the loops guarantees on a filesystem with
    proper names: it stays in the model, within the footprint, on a
    filesystem with proper names, and its moves are well formed. *)
Definition loop_post (cwd : path) (home : option string) (Del : path → Prop)
    (fs fs' : filesystem) (t : list event) (o : outcome unit) : Prop :=
  o ≠ Stuck ∧
  footprint Del (resolve cwd (destination_dir home)) fs fs' ∧
  wf_names fs' ∧
  moves_wf (destination_dir home) t.

(** No move into [pD] lands below [p]. *)
Definition no_landing_below (pD p : path) : Prop :=
  ∀ k, landing pD k → ¬ p `prefix_of` k.

(** A run from [fs] to [fs'] with trace [t] has moved every file with a
    matching name that the walk from [p] finds in [fs]: the file is gone
    from its path, and the trace has the move, which went through, from
    that path, with the file as it was in [fs], to the file's name
    joined to [D]. *)
Definition covers (cwd : path) (D : string) (fs fs' : filesystem)
    (t : list event) (p : path) : Prop :=
  ∀ k, visible fs p k → matches (name_of k) = true →
       fs' !! k = None ∧
       ∃ pre src,
         EvMove pre src (join D (name_of k)) (Done tt) ∈ t ∧
         resolve cwd src = k ∧ pre !! k = fs !! k.

(** The trace has a move from the path [k]. *)
Definition moved (cwd : path) (t : list event) (k : path) : Prop :=
  ∃ pre src dst r, EvMove pre src dst r ∈ t ∧ resolve cwd src = k.

(** After directory creation, nothing makes a directory, and every move
    is issued in a filesystem where [pD] is a directory. *)
Definition after_makedirs (pD : path) (e : event) : Prop :=
  match e with
  | EvMakedirs _ _ => False
  | EvMove pre _ _ _ => isdir pre pD = true
  | _ => True
  end.

(** A name that Python and the model treat alike: a proper name made of
    printable ASCII characters. *)
Definition plain_name (n : string) : bool :=
  proper_name n && Str.printable n.

(** Paths made of such names. *)
Definition plain_path (p : path) : Prop := Forall (λ n, plain_name n = true) p.

(** A filesystem whose paths are all made of such names. *)
Definition plain_names (fs : filesystem) : Prop :=
  map_Forall (λ k _, plain_path k) fs.

(** A home directory, when there is one, written in printable ASCII
    characters and without a [..] component, so that the kernel resolves
    the destination directory to the path [resolve] computes whatever
    exists on the way. *)
Definition plain_home (home : option string) : Prop :=
  match home with
  | None => True
  | Some h => Str.printable h = true ∧ no_dotdot h = true
  end.

(** Where [shutil.move] puts a file moved to the name [n] in the
    directory [pD]: under that name or, when that name is a directory,
    inside it. *)
Definition landing_path (fs : filesystem) (pD : path) (n : string) : path :=
  if isdir fs (pD ++ [n]) then pD ++ [n; n] else pD ++ [n].

(** The event is a move with destination [d]. *)
Definition move_to (d : string) (e : event) : Prop :=
  match e with EvMove _ _ d' _ => d' = d | _ => False end.

#[global] Instance move_to_dec d e : Decision (move_to d e).
Proof. destruct e; simpl; apply _. Defined.

(** The filesystem follows the trace: each move is issued in the
    filesystem the moves before it left and leaves what [shutil.move]
    makes of it; nothing else changes the filesystem. *)
Inductive follows (cwd : path) : filesystem → list event → filesystem → Prop :=
| follows_nil fs : follows cwd fs [] fs
| follows_move fs s d r fs1 t fs2 :
    shutil_move cwd s d fs = (fs1, [], r) →
    follows cwd fs1 t fs2 →
    follows cwd fs (EvMove fs s d r :: t) fs2
| follows_other fs e t fs2 :
    (∀ pre s d r, e ≠ EvMove pre s d r) →
    follows cwd fs t fs2 →
    follows cwd fs (e :: t) fs2.

(** A move of the loops on plain names: of a file with a plain, matching
    name, in a directory at or below [p0] whose path string is
    printable, to that name joined to [D]. *)
Definition walk_move (cwd p0 : path) (D : string) (e : event) : Prop :=
  match e with
  | EvMove _ s d _ =>
      ∃ root file,
        plain_name file = true ∧ matches file = true ∧
        Str.printable root = true ∧ p0 `prefix_of` resolve cwd root ∧
        s = join root file ∧ d = join D file
  | _ => True
  end.


(** The last move of the trace with destination [d]. *)
Definition last_move_to (t : list event) (d : string) (e : event) : Prop :=
  ∃ t0 t1, t = t0 ++ e :: t1 ∧ move_to d e ∧ Forall (λ e', ¬ move_to d e') t1.

(** The run ended with the exception [e] of a library call, in the
    filesystem [fs'] that call left, its trace [t] ending with what the
    call wrote: the making of the destination directory, the move of a
    file with a matching name to that name in the destination directory,
    or a [print]. *)
Definition raised_by_call
    (makedirs_ : string → M unit) (move_ : string → string → M unit)
    (print_ : string → M unit) (D : string)
    (fs' : filesystem) (t : list event) (e : exn) : Prop :=
  ∃ fs0 t0 t1,
    t = t0 ++ t1 ∧
    (makedirs_ D fs0 = (fs', t1, Raised e)
     ∨ (∃ root file, matches file = true ∧
                     move_ (join root file) (join D file) fs0 = (fs', t1, Raised e))
     ∨ (∃ line, print_ line fs0 = (fs', t1, Raised e))).

(** Every run of [m] is in the relation [P] between the filesystem
    before, the trace, the outcome and the filesystem after. *)
Definition satisfies
    (P : filesystem → list event → outcome unit → filesystem → Prop)
    (m : M unit) : Prop :=
  ∀ fs fs' t o, m fs = (fs', t, o) → P fs t o fs'.

End Spec.

(* ===================================================================== *)
(** * Example filesystems *)
(* ===================================================================== *)

Module Examples.
Import Posix Fs Lib Script.

(** The process runs in [/w]; the user's home is [/home/u]. *)
Definition cwd0 : path := ["w"].
Definition home0 : option string := Some "/home/u".

(** Where the source and destination directories resolve to. *)
Definition src0 : path := ["w"; "path"; "to"; "your"; "subdirectory"].
Definition dst0 : path := ["home"; "u"; "Desktop"; "Filtered_Files"].

(** The directories down to the working and home directories. *)
Definition base_dirs : list (path * entry) :=
  [ ([], Dir true true);
    (["home"], Dir true true);
    (["home"; "u"], Dir true true);
    (["w"], Dir true true) ].

(** The directories down to the source directory. *)
Definition source_dirs : list (path * entry) :=
  [ (["w"; "path"], Dir true true);
    (["w"; "path"; "to"], Dir true true);
    (["w"; "path"; "to"; "your"], Dir true true);
    (src0, Dir true true) ].

(** The scenario of the specification, [a/clip_play.mp4], [b/notes.txt]
    and [c/play_logo.png], with one more directory, which cannot be
    read, and a matching file two levels down. *)
Definition fs_demo : filesystem :=
  list_to_map (base_dirs ++ source_dirs ++
    [ (src0 ++ ["a"], Dir true true);
      (src0 ++ ["a"; "clip_play.mp4"], File "clip");
      (src0 ++ ["b"], Dir true true);
      (src0 ++ ["b"; "notes.txt"], File "notes");
      (src0 ++ ["c"], Dir true true);
      (src0 ++ ["c"; "play_logo.png"], File "logo");
      (src0 ++ ["locked"], Dir false true);
      (src0 ++ ["locked"; "play_hidden.mp4"], File "hidden");
      (src0 ++ ["z"], Dir true true);
      (src0 ++ ["z"; "deep"], Dir true true);
      (src0 ++ ["z"; "deep"; "Replay.MKV"], File "deep") ]).

(** No source directory at all. *)
Definition fs_nosrc : filesystem := list_to_map base_dirs.

(** The destination directory is there and holds a directory named like
    the one matching file of the source tree. *)
Definition fs_samename : filesystem :=
  list_to_map (base_dirs ++ source_dirs ++
    [ (["home"; "u"; "Desktop"], Dir true true);
      (dst0, Dir true true);
      (dst0 ++ ["play.mp4"], Dir true true);
      (src0 ++ ["a"], Dir true true);
      (src0 ++ ["a"; "play.mp4"], File "movie") ]).

(** The home directory cannot be written to. *)
Definition fs_readonly_home : filesystem :=
  list_to_map ([ ([], Dir true true);
                 (["home"], Dir true true);
                 (["home"; "u"], Dir true false);
                 (["w"], Dir true true) ] ++ source_dirs ++
    [ (src0 ++ ["play.mp4"], File "movie") ]).

(** The source directory holds a matching file and a directory which
    can be read but not written to, with a matching file in it. *)
Definition fs_partial : filesystem :=
  list_to_map (base_dirs ++ source_dirs ++
    [ (src0 ++ ["play1.mp4"], File "one");
      (src0 ++ ["readme.txt"], File "text");
      (src0 ++ ["ro"], Dir true false);
      (src0 ++ ["ro"; "play2.mp4"], File "two");
      (src0 ++ ["a"], Dir true true);
      (src0 ++ ["a"; "play3.mp4"], File "three") ]).

(** The directories down to the destination directory. *)
Definition dest_dirs : list (path * entry) :=
  [ (["home"; "u"; "Desktop"], Dir true true);
    (dst0, Dir true true) ].

(** The path of the destination directory holds a regular file. *)
Definition fs_destfile : filesystem :=
  list_to_map (base_dirs ++ source_dirs ++
    [ (["home"; "u"; "Desktop"], Dir true true);
      (dst0, File "not a directory");
      (src0 ++ ["play.mp4"], File "movie") ]).

(** The parent of the destination directory cannot be written to, and
    the destination directory is not there. *)
Definition fs_readonly_desktop : filesystem :=
  list_to_map (base_dirs ++ source_dirs ++
    [ (["home"; "u"; "Desktop"], Dir true false);
      (src0 ++ ["play.mp4"], File "movie") ]).

(** The destination directory holds a file named like the matching file
    of the source directory. *)
Definition fs_overwrite : filesystem :=
  list_to_map (base_dirs ++ source_dirs ++ dest_dirs ++
    [ (dst0 ++ ["play.mp4"], File "old");
      (src0 ++ ["play.mp4"], File "new") ]).

(** Two directories of the source tree hold a matching file of one
    name. *)
Definition fs_twins : filesystem :=
  list_to_map (base_dirs ++ source_dirs ++ dest_dirs ++
    [ (src0 ++ ["a"], Dir true true);
      (src0 ++ ["a"; "play.mp4"], File "first");
      (src0 ++ ["b"], Dir true true);
      (src0 ++ ["b"; "play.mp4"], File "second") ]).

(** The matching file is in a directory that can be read but not written
    to; the destination directory is there. *)
Definition fs_readonly_source : filesystem :=
  list_to_map (base_dirs ++ source_dirs ++ dest_dirs ++
    [ (src0 ++ ["ro"], Dir true false);
      (src0 ++ ["ro"; "play.mp4"], File "movie") ]).






End Examples.

Import Posix Fs Lib Script Spec Examples.

(* ===================================================================== *)
(** * Facts about strings *)
(* ===================================================================== *)

Section StringFacts.

Lemma str_app_cons c s t : String c s +:+ t = String c (s +:+ t).
Proof. reflexivity. Qed.

Lemma str_app_nil_l s : "" +:+ s = s.
Proof. reflexivity. Qed.

Lemma str_app_nil_r s : s +:+ "" = s.
Proof. induction s as [|c s IH]; [done|]. by rewrite str_app_cons, IH. Qed.

Lemma str_app_assoc s t u : (s +:+ t) +:+ u = s +:+ t +:+ u.
Proof. induction s as [|c s IH]; [done|]. by rewrite !str_app_cons, IH. Qed.

Lemma startswith_spec s pre :
  Str.startswith s pre = true ↔ ∃ post, s = pre +:+ post.
Proof.
  revert s. induction pre as [|a pre IH]; intros s; simpl.
  - split; [by exists s | done].
  - destruct s as [|b s].
    + split; [done | intros [post Hp]; by rewrite str_app_cons in Hp].
    + destruct (Ascii.eqb_spec a b) as [->|Hne].
      * rewrite IH. split; intros [post Hp]; exists post.
        -- by rewrite str_app_cons, Hp.
        -- rewrite str_app_cons in Hp. by simplify_eq.
      * split; [done | intros [post Hp]]. rewrite str_app_cons in Hp. by simplify_eq.
Qed.

Lemma contains_spec s sub :
  Str.contains s sub = true ↔ ∃ pre post, s = pre +:+ sub +:+ post.
Proof.
  induction s as [|c s IH]; simpl.
  - rewrite orb_false_r, startswith_spec. split.
    + intros [post ->]. by exists "", post.
    + intros [[|? pre] [post Hp]]; [by exists post | by rewrite str_app_cons in Hp].
  - rewrite orb_true_iff, startswith_spec, IH. split.
    + intros [[post ->] | (pre & post & ->)].
      * by exists "", post.
      * by exists (String c pre), post.
    + intros [[|a pre] [post Hp]].
      * left. by exists post.
      * right. rewrite str_app_cons in Hp. simplify_eq. by exists pre, post.
Qed.

Lemma endswith_cons c s suf :
  Str.endswith (String c s) suf = String.eqb (String c s) suf || Str.endswith s suf.
Proof. reflexivity. Qed.

Lemma endswith_nil suf : Str.endswith "" suf = String.eqb "" suf.
Proof. unfold Str.endswith. apply orb_false_r. Qed.

Lemma endswith_spec s suf :
  Str.endswith s suf = true ↔ ∃ pre, s = pre +:+ suf.
Proof.
  induction s as [|c s IH].
  - rewrite endswith_nil, String.eqb_eq. split.
    + intros <-. by exists "".
    + intros [[|? pre] Hp]; [done | by rewrite str_app_cons in Hp].
  - rewrite endswith_cons, orb_true_iff, String.eqb_eq, IH. split.
    + intros [<- | [pre ->]]; [by exists "" | by exists (String c pre)].
    + intros [[|a pre] Hp]; [by left | right].
      rewrite str_app_cons in Hp. simplify_eq. by exists pre.
Qed.

Lemma lower_char_idemp c : Str.lower_char (Str.lower_char c) = Str.lower_char c.
Proof. by destruct c as [[] [] [] [] [] [] [] []]. Qed.

Lemma lower_idemp s : Str.lower (Str.lower s) = Str.lower s.
Proof. induction s as [|c s IH]; simpl; [done|]. by rewrite lower_char_idemp, IH. Qed.

Lemma lower_app s t : Str.lower (s +:+ t) = Str.lower s +:+ Str.lower t.
Proof. induction s as [|c s IH]; [done|]. rewrite !str_app_cons. simpl. by rewrite IH. Qed.

End StringFacts.

(* ===================================================================== *)
(** * Facts about paths *)
(* ===================================================================== *)

Section PathFacts.

Lemma split_slash_cons c s :
  Str.split_slash (String c s) =
  if Ascii.eqb c "/"%char then "" :: Str.split_slash s
  else match Str.split_slash s with
       | x :: xs => String c x :: xs
       | [] => [String c ""]
       end.
Proof. reflexivity. Qed.

Lemma split_slash_nonempty s : Str.split_slash s ≠ [].
Proof.
  destruct s as [|c s]; [done|]. rewrite split_slash_cons.
  destruct (Ascii.eqb c "/"%char); [done|]. by destruct (Str.split_slash s).
Qed.

(** Splitting distributes over a slash. *)
Lemma split_slash_app a b :
  Str.split_slash (a +:+ String "/"%char b) = Str.split_slash a ++ Str.split_slash b.
Proof.
  induction a as [|c a IH]; [done|].
  rewrite str_app_cons, !split_slash_cons, IH.
  destruct (Ascii.eqb c "/"%char); [done|].
  pose proof (split_slash_nonempty a). by destruct (Str.split_slash a).
Qed.

Lemma contains_cons c s sub :
  Str.contains (String c s) sub = Str.startswith (String c s) sub || Str.contains s sub.
Proof. reflexivity. Qed.

Lemma startswith_cons a pre b s :
  Str.startswith (String b s) (String a pre) =
  if Ascii.eqb a b then Str.startswith s pre else false.
Proof. reflexivity. Qed.

Lemma split_slash_name n :
  Str.contains n "/" = false → Str.split_slash n = [n].
Proof.
  induction n as [|c n IH]; [done|].
  rewrite contains_cons, split_slash_cons. intros [H1 H2]%orb_false_elim.
  rewrite startswith_cons in H1. rewrite (Ascii.eqb_sym c).
  destruct (Ascii.eqb "/"%char c); [done|]. by rewrite IH.
Qed.

Lemma proper_name_spec n :
  proper_name n = true ↔
  n ≠ "" ∧ n ≠ "." ∧ n ≠ ".." ∧ Str.contains n "/" = false.
Proof.
  unfold proper_name. rewrite !andb_true_iff, !negb_true_iff, !String.eqb_neq.
  tauto.
Qed.

Lemma walk_component_name acc n :
  proper_name n = true → walk_component acc n = acc ++ [n].
Proof.
  intros (H1 & H2 & H3 & _)%proper_name_spec. unfold walk_component.
  apply String.eqb_neq in H1, H2, H3. by rewrite H1, H2, H3.
Qed.

Lemma startswith_app_l s t pre :
  s ≠ "" → Str.startswith (s +:+ t) (String pre "") = Str.startswith s (String pre "").
Proof. by destruct s. Qed.

Lemma endswith_slash_inv s :
  Str.endswith s "/" = true → ∃ pre, s = pre +:+ "/".
Proof. by intros ?%endswith_spec. Qed.

Variable cwd : path.

Lemma resolve_unfold s :
  resolve cwd s = fold_left walk_component (Str.split_slash s) (base cwd s).
Proof. reflexivity. Qed.

Lemma name_no_leading_slash n : proper_name n = true → Str.startswith n "/" = false.
Proof.
  intros (H1 & _ & _ & H2)%proper_name_spec. destruct n as [|c n]; [done|].
  rewrite contains_cons in H2. by apply orb_false_elim in H2 as [-> _].
Qed.

(** The pieces of [join top n] are pieces that resolve like [top],
    followed by [n]. *)
Lemma split_join top n :
  proper_name n = true →
  ∃ l, Str.split_slash (join top n) = l ++ [n] ∧
       fold_left walk_component l (base cwd (join top n)) = resolve cwd top.
Proof.
  intros Hn. pose proof (name_no_leading_slash n Hn) as Hs.
  pose proof Hn as (Hne & _ & _ & Hc)%proper_name_spec.
  unfold join. rewrite Hs.
  destruct (String.eqb_spec top "") as [->|Htop]; simpl.
  - exists []. rewrite str_app_nil_l, (split_slash_name n Hc).
    split; [done|]. unfold base. by rewrite Hs.
  - destruct (Str.endswith top "/") eqn:He.
    + apply endswith_slash_inv in He as [pre ->].
      exists (Str.split_slash pre). rewrite str_app_assoc.
      change ("/" +:+ n) with (String "/"%char n).
      rewrite split_slash_app, (split_slash_name n Hc). split; [done|].
      rewrite resolve_unfold.
      change (pre +:+ "/") with (pre +:+ String "/"%char "").
      rewrite split_slash_app, fold_left_app. simpl.
      unfold base. destruct pre; [done|]. by rewrite !str_app_cons.
    + exists (Str.split_slash top).
      change ("/" +:+ n) with (String "/"%char n).
      rewrite split_slash_app, (split_slash_name n Hc). split; [done|].
      rewrite resolve_unfold. unfold base. destruct top; [done|]. by rewrite !str_app_cons.
Qed.

(** A name joined to a directory resolves to that name inside that
    directory. *)
Lemma resolve_join top n :
  proper_name n = true → resolve cwd (join top n) = resolve cwd top ++ [n].
Proof.
  intros Hn. destruct (split_join top n Hn) as (l & Hl & Hf).
  rewrite resolve_unfold, Hl, fold_left_app, Hf. simpl.
  by apply walk_component_name.
Qed.

Lemma default_last_snoc {A} (l : list A) (x d : A) : List.last (l ++ [x]) d = x.
Proof. induction l as [|y l IH]; [done|]. simpl. rewrite IH. by destruct l. Qed.

Lemma basename_join top n : proper_name n = true → basename (join top n) = n.
Proof.
  intros Hn. destruct (split_join top n Hn) as (l & Hl & _).
  unfold basename. by rewrite Hl, default_last_snoc.
Qed.

Lemma rstrip_slash_name n :
  n ≠ "" → Str.contains n "/" = false → Str.rstrip_slash n = n.
Proof.
  induction n as [|c n IH]; [done|]. intros _.
  rewrite contains_cons, startswith_cons. intros [H1 H2]%orb_false_elim.
  simpl. destruct (Ascii.eqb_spec c "/"%char) as [->|Hc]; [done|].
  destruct n as [|c' n]; [done|]. by rewrite IH.
Qed.

Lemma rstrip_slash_app s n :
  n ≠ "" → Str.contains n "/" = false → Str.rstrip_slash (s +:+ n) = s +:+ n.
Proof.
  intros Hne Hc. induction s as [|c s IH]; [by apply rstrip_slash_name|].
  rewrite str_app_cons. simpl. rewrite IH.
  destruct (String.eqb_spec (s +:+ n) "") as [He|_]; [|by rewrite andb_false_r].
  destruct s; [done|by rewrite str_app_cons in He].
Qed.

Lemma join_ends_with_name top n :
  proper_name n = true → ∃ s, join top n = s +:+ n.
Proof.
  intros Hn. unfold join. rewrite (name_no_leading_slash n Hn).
  destruct (_ || _); [by exists top|]. exists (top +:+ "/"). by rewrite str_app_assoc.
Qed.

(** What [shutil.move] takes as the name of the source. *)
Lemma basename_rstrip_join top n :
  proper_name n = true → basename (Str.rstrip_slash (join top n)) = n.
Proof.
  intros Hn. pose proof Hn as (Hne & _ & _ & Hc)%proper_name_spec.
  destruct (join_ends_with_name top n Hn) as [s Hs].
  rewrite Hs, rstrip_slash_app, <-Hs by done. by apply basename_join.
Qed.

Lemma split_slash_no_slash s :
  Forall (λ c, Str.contains c "/" = false) (Str.split_slash s).
Proof.
  induction s as [|c s IH]; [by repeat constructor|].
  rewrite split_slash_cons. destruct (Ascii.eqb_spec c "/"%char) as [->|Hc].
  - by constructor.
  - pose proof (split_slash_nonempty s).
    destruct (Str.split_slash s) as [|x xs]; [done|].
    apply Forall_cons in IH as [Hx Hxs]. constructor; [|done].
    rewrite contains_cons, startswith_cons, Hx.
    by destruct (Ascii.eqb_spec "/"%char c).
Qed.

Lemma walk_component_wf acc c :
  wf_path acc → Str.contains c "/" = false → wf_path (walk_component acc c).
Proof.
  intros Hacc Hc. unfold walk_component.
  destruct (String.eqb_spec c "") as [|H1]; [done|].
  destruct (String.eqb_spec c ".") as [|H2]; [done|]. simpl.
  destruct (String.eqb_spec c "..") as [|H3].
  - unfold wf_path in *. rewrite Forall_forall in *. intros x Hx.
    apply Hacc. destruct acc as [|a acc] using rev_ind; [done|].
    rewrite removelast_last in Hx. apply elem_of_app. by left.
  - apply Forall_app. split; [done|]. repeat constructor.
    by apply proper_name_spec.
Qed.

(** Resolution yields proper names only. *)
Lemma resolve_wf s : wf_path cwd → wf_path (resolve cwd s).
Proof.
  intros Hcwd. rewrite resolve_unfold.
  assert (wf_path (base cwd s)) as Hb.
  { unfold base. destruct (Str.startswith s "/"); [constructor|done]. }
  revert Hb. generalize (base cwd s).
  induction (split_slash_no_slash s) as [|c l Hc _ IH]; intros acc Hacc; [done|].
  simpl. apply IH. by apply walk_component_wf.
Qed.

End PathFacts.

(* ===================================================================== *)
(** * Facts about the system calls and [shutil.move] *)
(* ===================================================================== *)

Section MoveFacts.

Variable cwd : path.

Lemma check_parent_writable_run p fs :
  (∃ r, fs !! parent p = Some (Dir r true) ∧
        check_parent_writable p fs = (fs, [], Done tt))
  ∨ (∃ e, check_parent_writable p fs = (fs, [], Raised e)).
Proof.
  unfold check_parent_writable.
  destruct (fs !! parent p) as [[d|r [|]]|]; eauto.
Qed.

Lemma os_rename_run s d fs :
  (∃ data, fs !! s = Some (File data) ∧ isdir fs d = false ∧
           os_rename s d fs = (<[d := File data]> (delete s fs), [], Done tt))
  ∨ (∃ e, os_rename s d fs = (fs, [], Raised e))
  ∨ (isdir fs s = true ∧ os_rename s d fs = (fs, [], Stuck)).
Proof.
  unfold os_rename.
  destruct (fs !! s) as [[data|r w]|] eqn:Hs;
    [|right; right; unfold isdir; by rewrite Hs|by right; left; eexists].
  unfold bind.
  destruct (check_parent_writable_run s fs) as [(r & _ & ->)|[e ->]]; [|by right; left; eexists].
  destruct (isdir fs d) eqn:Hd; [by right; left; eexists|]. simpl.
  destruct (check_parent_writable_run d fs) as [(r' & _ & ->)|[e ->]]; [|by right; left; eexists].
  left. by exists data.
Qed.

Lemma copyfile_run s d fs :
  (∃ data, fs !! s = Some (File data) ∧ isdir fs d = false ∧ s ≠ d ∧
           copyfile s d fs = (<[d := File data]> fs, [], Done tt))
  ∨ (∃ e, copyfile s d fs = (fs, [], Raised e)).
Proof.
  unfold copyfile, isdir. destruct (decide (s = d)) as [->|Hne]; [by right; eexists|].
  destruct (fs !! s) as [[data|r w]|] eqn:Hs; [|by right; eexists..].
  destruct (fs !! d) as [[data'|r w]|] eqn:Hd; [by left; exists data|by right; eexists|].
  unfold bind.
  destruct (check_parent_writable_run d fs) as [(r' & _ & ->)|[e ->]]; [|by right; eexists].
  left. by exists data.
Qed.

Lemma os_unlink_run p fs :
  (∃ data, fs !! p = Some (File data) ∧ os_unlink p fs = (delete p fs, [], Done tt))
  ∨ (∃ e, os_unlink p fs = (fs, [], Raised e)).
Proof.
  unfold os_unlink. destruct (fs !! p) as [[data|r w]|] eqn:Hp; [|by right; eexists..].
  unfold bind.
  destruct (check_parent_writable_run p fs) as [(r' & _ & ->)|[e ->]]; [|by right; eexists].
  left. by exists data.
Qed.

Lemma rename_or_copy_run src rd fs :
  ∃ fs' o, rename_or_copy cwd src rd fs = (fs', [], o) ∧
           move_result fs (resolve cwd src) (resolve cwd rd) fs' o.
Proof.
  unfold rename_or_copy, catch.
  destruct (os_rename_run (resolve cwd src) (resolve cwd rd) fs)
    as [(data & Hs & Hd & ->)|[[e ->]|[Hs ->]]].
  - eexists _, _. split; [done|]. by constructor.
  - unfold bind.
    destruct (copyfile_run (resolve cwd src) (resolve cwd rd) fs)
      as [(data & Hs & Hd & Hne & ->)|[e' ->]].
    + destruct (os_unlink_run (resolve cwd src) (<[resolve cwd rd:=File data]> fs))
        as [(data' & Hs' & ->)|[e' ->]].
      * eexists _, _. split; [done|]. rewrite delete_insert_ne by done.
        by constructor.
      * eexists _, _. split; [done|]. by constructor.
    + eexists _, _. split; [done|]. constructor.
  - eexists _, _. split; [done|]. by constructor.
Qed.

(** Every run of [shutil.move] is one of the four cases of
    [move_result], to the destination itself or, when that is a
    directory, to the source's name inside it. *)
Lemma shutil_move_run src dst fs :
  ∃ fs' o rd,
    shutil_move cwd src dst fs = (fs', [], o) ∧
    (rd = resolve cwd dst ∨
     isdir fs (resolve cwd dst) = true ∧
     rd = resolve cwd (join dst (basename (Str.rstrip_slash src)))) ∧
    move_result fs (resolve cwd src) rd fs' o.
Proof.
  unfold shutil_move, bind, get.
  destruct (isdir fs (resolve cwd dst)) eqn:Hd.
  - destruct (decide _) as [He|Hne].
    + destruct (os_rename_run (resolve cwd src) (resolve cwd dst) fs)
        as [(data & Hs & Hd' & ->)|[[e ->]|[Hs ->]]]; [congruence|..].
      * eexists _, _, _. split; [done|]. split; [by left|]. constructor.
      * eexists _, _, _. split; [done|]. split; [by left|]. by constructor.
    + destruct (exists_ _ _).
      * eexists _, _, _. split; [done|]. split; [by left|]. constructor.
      * destruct (rename_or_copy_run src (join dst (basename (Str.rstrip_slash src))) fs)
          as (fs' & o & -> & Hr).
        eexists _, _, _. split; [done|]. split; [by right|]. done.
  - destruct (rename_or_copy_run src dst fs) as (fs' & o & -> & Hr).
    eexists _, _, _. split; [done|]. split; [by left|]. done.
Qed.

End MoveFacts.

(* ===================================================================== *)
(** * Listing a directory *)
(* ===================================================================== *)

Section ListingFacts.

Lemma child_name_spec p k n : child_name p k = Some n ↔ k = p ++ [n].
Proof.
  unfold child_name. split.
  - destruct (last k) as [m|]; [|done]. by destruct (decide _) as [->|]; intros [= ->].
  - intros ->. rewrite last_snoc. by rewrite decide_True.
Qed.

Lemma listdir_spec (fs : filesystem) p n e :
  (n, e) ∈ listdir fs p ↔ fs !! (p ++ [n]) = Some e.
Proof.
  unfold listdir. rewrite list_elem_of_omap. split.
  - intros ([k e'] & Hin & Hf). simpl in Hf.
    destruct (child_name p k) as [m|] eqn:Hc; [|done]. simplify_eq.
    apply child_name_spec in Hc as ->. by apply elem_of_map_to_list.
  - intros Hl. exists (p ++ [n], e). split; [by apply elem_of_map_to_list|].
    simpl. by rewrite (proj2 (child_name_spec p (p ++ [n]) n) eq_refl).
Qed.

Lemma NoDup_fst_filter {A B} (P : A * B → Prop) `{!∀ x, Decision (P x)}
    (l : list (A * B)) :
  NoDup l.*1 → NoDup (filter P l).*1.
Proof.
  induction l as [|x l IH]; [done|]. rewrite fmap_cons, NoDup_cons.
  intros [Hx Hl]. rewrite filter_cons. destruct (decide (P x)); [|by apply IH].
  rewrite fmap_cons. apply NoDup_cons. split; [|by apply IH].
  intros (y & Hy1 & Hy2)%list_elem_of_fmap. apply list_elem_of_filter in Hy2 as [_ Hy2].
  apply Hx. apply list_elem_of_fmap. by exists y.
Qed.

Lemma listdir_NoDup (fs : filesystem) p : NoDup (listdir fs p).*1.
Proof.
  unfold listdir. pose proof (NoDup_fst_map_to_list fs) as Hnd.
  induction (map_to_list fs) as [|[k e] l IH]; [constructor|].
  rewrite fmap_cons in Hnd. apply NoDup_cons in Hnd as [Hk Hl]. simpl.
  destruct (child_name p k) as [n|] eqn:Hc; [|by apply IH].
  rewrite fmap_cons. apply NoDup_cons. split; [|by apply IH].
  intros ([n' e'] & Hn & Hin)%list_elem_of_fmap. simpl in Hn. subst n'.
  apply list_elem_of_omap in Hin as ([k' e''] & Hin & Hf). simpl in Hf.
  destruct (child_name p k') as [m|] eqn:Hc'; [|done]. simplify_eq.
  apply child_name_spec in Hc as ->. apply child_name_spec in Hc' as ->.
  apply Hk. apply list_elem_of_fmap. by exists (p ++ [n], e').
Qed.

(** What a listing that went through returns: the directory can be
    read, [dirs] are the names of its directories, [files] the names of
    its files, each once. *)
Lemma scandir_done p fs fs' t dirs files :
  scandir p fs = (fs', t, Done (dirs, files)) →
  fs' = fs ∧ t = [] ∧
  (∃ w, fs !! p = Some (Dir true w)) ∧
  (∀ n, n ∈ dirs ↔ ∃ r w, fs !! (p ++ [n]) = Some (Dir r w)) ∧
  (∀ n, n ∈ files ↔ ∃ data, fs !! (p ++ [n]) = Some (File data)) ∧
  NoDup dirs ∧ NoDup files.
Proof.
  unfold scandir. destruct (fs !! p) as [[data|[|] w]|]; try done.
  intros [= <- <- <- <-]. split_and!; [done|done|by exists w|..].
  - intros n. rewrite list_elem_of_fmap. split.
    + intros ([n' e] & -> & [He Hin]%list_elem_of_filter). simpl.
      apply listdir_spec in Hin. destruct e as [|r w']; [done|]. by exists r, w'.
    + intros (r & w' & Hl). exists (n, Dir r w'). split; [done|].
      apply list_elem_of_filter. split; [done|]. by apply listdir_spec.
  - intros n. rewrite list_elem_of_fmap. split.
    + intros ([n' e] & -> & [He Hin]%list_elem_of_filter). simpl.
      apply listdir_spec in Hin. destruct e as [data|]; [|done]. by exists data.
    + intros (data & Hl). exists (n, File data). split; [done|].
      apply list_elem_of_filter. split; [done|]. by apply listdir_spec.
  - apply NoDup_fst_filter, listdir_NoDup.
  - apply NoDup_fst_filter, listdir_NoDup.
Qed.

(** The height bounds the length of every path. *)
Lemma fs_height_bound (fs : filesystem) k e :
  fs !! k = Some e → length k ≤ fs_height fs.
Proof.
  intros Hk. unfold fs_height. apply max_list_elem_of_le.
  apply list_elem_of_fmap. exists (k, e). split; [done|].
  by apply elem_of_map_to_list.
Qed.

End ListingFacts.

(* ===================================================================== *)
(** * How the script runs *)
(* ===================================================================== *)

Section RunFacts.

Variable cwd : path.
Variable home : option string.

Local Abbreviation D := (destination_dir home).
Local Abbreviation visit := (visit cwd home).
Local Abbreviation transfer := (transfer cwd home).
Local Abbreviation main := (main cwd home).

Lemma void_unit (o : outcome unit) : void o = o.
Proof. by destruct o as [[]| |]. Qed.

(** One iteration of the inner loop: nothing at all for a name that does
    not match; otherwise one move, recorded, and its line when it went
    through. *)
Lemma visit_run root file fs :
  matches file = false ∧ visit root file fs = (fs, [], Done tt)
  ∨ matches file = true ∧
    ∃ fs' o rd,
      (rd = resolve cwd (join D file) ∨
       isdir fs (resolve cwd (join D file)) = true ∧
       rd = resolve cwd (join (join D file)
                              (basename (Str.rstrip_slash (join root file))))) ∧
      move_result fs (resolve cwd (join root file)) rd fs' o ∧
      visit root file fs =
        (fs',
         EvMove fs (join root file) (join D file) o ::
           match o with
           | Done _ => [EvPrint (moved_line (join root file) (join D file))]
           | _ => []
           end,
         o).
Proof.
  unfold Script.visit. destruct (matches file); [right|by left].
  split; [done|].
  destruct (shutil_move_run cwd (join root file) (join D file) fs)
    as (fs' & o & rd & Hrun & Hrd & Hres).
  exists fs', o, rd. split; [done|]. split; [done|].
  unfold bind, move_file, observed. rewrite Hrun, void_unit.
  by destruct o as [[]| |].
Qed.

(** A directory is listed, or skipped without an error. *)
Lemma listing_run top fs :
  (∃ x, scandir (resolve cwd top) fs = (fs, [], Done x) ∧
        listing cwd top fs = (fs, [EvScandir top (Done tt)], Done (Some x)))
  ∨ (∃ e, scandir (resolve cwd top) fs = (fs, [], Raised e) ∧
          listing cwd top fs = (fs, [EvScandir top (Raised e)], Done None)).
Proof.
  unfold listing, catch, bind, scandir.
  destruct (fs !! resolve cwd top) as [[data|[|] w]|]; simpl; eauto.
Qed.

Section Closure.

(** A property of runs that holds of the elementary steps of the two
    loops and is closed under sequencing holds of the loops. *)
Variable P : filesystem → list event → outcome unit → filesystem → Prop.
Hypothesis P_nil : ∀ fs, P fs [] (Done tt) fs.
Hypothesis P_stuck : ∀ fs, P fs [] Stuck fs.
Hypothesis P_scan : ∀ fs top r, P fs [EvScandir top r] (Done tt) fs.
Hypothesis P_visit : ∀ fs root file fs' t o,
  visit root file fs = (fs', t, o) → P fs t o fs'.
Hypothesis P_seq : ∀ fs t1 fs1 t2 o fs2,
  P fs t1 (Done tt) fs1 → P fs1 t2 o fs2 → P fs (t1 ++ t2) o fs2.

Local Abbreviation satisfies := (satisfies P).

Lemma satisfies_bind (m : M unit) (k : unit → M unit) :
  satisfies m → (∀ u, satisfies (k u)) → satisfies (bind m k).
Proof.
  intros Hm Hk fs fs' t o. unfold bind.
  destruct (m fs) as [[fs1 t1] [[]|e|]] eqn:Em.
  - destruct (k () fs1) as [[fs2 t2] o2] eqn:Ek. intros [= <- <- <-].
    eapply P_seq; [by eapply Hm|by eapply Hk].
  - intros [= <- <- <-]. by eapply Hm.
  - intros [= <- <- <-]. by eapply Hm.
Qed.

Lemma satisfies_ret : satisfies (ret tt).
Proof. intros fs fs' t o [= <- <- <-]. apply P_nil. Qed.

Lemma satisfies_for {A} (xs : list A) (body : A → M unit) :
  (∀ x, satisfies (body x)) → satisfies (for_ xs body).
Proof.
  intros Hb. induction xs as [|x xs IH]; simpl.
  - apply satisfies_ret.
  - apply satisfies_bind; [apply Hb|by intros _].
Qed.

Lemma satisfies_walk depth top :
  satisfies (os_walk cwd depth top (λ root _ files, for_ files (visit root))).
Proof.
  revert top. induction depth as [|d IH]; intros top; simpl.
  - intros fs fs' t o [= <- <- <-]. apply P_stuck.
  - intros fs fs' t o. unfold bind at 1.
    destruct (listing_run top fs) as [([dirs files] & _ & ->)|(e & _ & ->)].
    + destruct (bind _ _ fs) as [[fs2 t2] o2] eqn:Eb. intros [= <- <- <-].
      eapply (P_seq _ [_]); [apply P_scan|]. revert Eb.
      apply satisfies_bind.
      * apply satisfies_for. intros file ????. apply P_visit.
      * intros _. apply satisfies_for. intros dn. apply IH.
    + intros [= <- <- <-]. apply P_scan.
Qed.

Lemma satisfies_transfer : satisfies transfer.
Proof.
  intros fs fs' t o. unfold Script.transfer, bind at 1, get.
  destruct (os_walk _ _ _ _ fs) as [[fs2 t2] o2] eqn:Ew. intros [= <- <- <-].
  by eapply satisfies_walk.
Qed.

End Closure.

Lemma move_result_dirs fs s rd fs' o :
  move_result fs s rd fs' o → dirs_agree fs fs'.
Proof.
  intros [data Hs Hrd|data e Hs Hrd Hne|e|Hs] k r w; [| |done..]; unfold isdir in Hrd.
  - destruct (decide (k = rd)) as [->|Hk].
    + rewrite lookup_insert_eq. destruct (fs !! rd) as [[]|]; [|done|]; by split.
    + rewrite lookup_insert_ne by done. destruct (decide (k = s)) as [->|Hks].
      * rewrite lookup_delete_eq, Hs. by split.
      * by rewrite lookup_delete_ne.
  - destruct (decide (k = rd)) as [->|Hk].
    + rewrite lookup_insert_eq. destruct (fs !! rd) as [[]|]; [|done|]; by split.
    + by rewrite lookup_insert_ne.
Qed.

Lemma dirs_agree_refl fs : dirs_agree fs fs.
Proof. by intros k r w. Qed.

Lemma dirs_agree_trans fs1 fs2 fs3 :
  dirs_agree fs1 fs2 → dirs_agree fs2 fs3 → dirs_agree fs1 fs3.
Proof. intros H1 H2 k r w. by rewrite (H1 k r w). Qed.

Lemma dirs_agree_sym fs1 fs2 : dirs_agree fs1 fs2 → dirs_agree fs2 fs1.
Proof. intros H k r w. by rewrite (H k r w). Qed.

Lemma dirs_agree_isdir fs fs' p : dirs_agree fs fs' → isdir fs' p = isdir fs p.
Proof.
  intros H. unfold isdir.
  destruct (fs !! p) as [[d|r w]|] eqn:E1, (fs' !! p) as [[d'|r' w']|] eqn:E2;
    try done.
  - apply H in E2. congruence.
  - apply H in E1. congruence.
  - apply H in E1. congruence.
  - apply H in E2. congruence.
Qed.


(** The loops stop at the first move that does not go through, with its
    outcome. *)
Lemma transfer_ends_with fs fs' t o :
  transfer fs = (fs', t, o) → ends_with t o.
Proof.
  apply (satisfies_transfer (λ _ t o _, ends_with t o)).
  - intros _. constructor.
  - intros _. left. constructor.
  - intros _ top r. by repeat constructor.
  - intros fs0 root file fs1 t1 o1.
    destruct (visit_run root file fs0) as [[_ ->]|(_ & fs2 & o2 & rd & _ & _ & ->)].
    + intros [= <- <- <-]. constructor.
    + intros [= <- <- <-]. destruct o2 as [[]|e|]; simpl.
      * by repeat constructor.
      * exists [], fs0, (join root file), (join D file). split; [done|constructor].
      * right. exists [], fs0, (join root file), (join D file). split; [done|constructor].
  - intros _ t1 _ t2 o2 _ H1 H2. simpl in H1. destruct o2 as [[]|e|]; simpl in *.
    + by apply Forall_app.
    + destruct H2 as (t0 & pre & s & d & -> & Hc).
      exists (t1 ++ t0), pre, s, d. rewrite (assoc_L (++)). split; [done|].
      by apply Forall_app.
    + destruct H2 as [Hc|(t0 & pre & s & d & -> & Hc)].
      * left. by apply Forall_app.
      * right. exists (t1 ++ t0), pre, s, d. rewrite (assoc_L (++)). split; [done|].
        by apply Forall_app.
Qed.

(** The loops leave the directories as they are. *)
Lemma transfer_dirs fs fs' t o :
  transfer fs = (fs', t, o) → dirs_agree fs fs' ∧ moves_see_dirs fs t.
Proof.
  apply (satisfies_transfer (λ fs t _ fs', dirs_agree fs fs' ∧ moves_see_dirs fs t)).
  - intros fs0. split; [apply dirs_agree_refl|constructor].
  - intros fs0. split; [apply dirs_agree_refl|constructor].
  - intros fs0 top r. split; [apply dirs_agree_refl|by repeat constructor].
  - intros fs0 root file fs1 t1 o1.
    destruct (visit_run root file fs0) as [[_ ->]|(_ & fs2 & o2 & rd & _ & Hr & ->)].
    + intros [= <- <- <-]. split; [apply dirs_agree_refl|constructor].
    + intros [= <- <- <-]. split; [by eapply move_result_dirs|].
      constructor; [apply dirs_agree_refl|]. destruct o2; by repeat constructor.
  - intros fs0 t1 fs1 t2 o2 fs2 [H1 H1'] [H2 H2']. split.
    + by eapply dirs_agree_trans.
    + apply Forall_app. split; [done|].
      eapply Forall_impl; [exact H2'|]. intros [| |pre s d r|]; try done.
      by apply dirs_agree_trans.
Qed.

(** The loops only list, move matching names into the destination
    directory, and print the lines of moves. *)
Lemma transfer_events fs fs' t o :
  transfer fs = (fs', t, o) → Forall (loop_event D) t.
Proof.
  apply (satisfies_transfer (λ _ t _ _, Forall (loop_event D) t)); try done.
  - intros _ top r. by repeat constructor.
  - intros fs0 root file fs1 t1 o1.
    destruct (visit_run root file fs0) as [[_ ->]|(Hm & fs2 & o2 & rd & _ & _ & ->)].
    + by intros [= <- <- <-].
    + intros [= <- <- <-]. constructor; [by exists root, file|].
      destruct o2; repeat constructor. by eexists _, _.
  - intros _ t1 _ t2 _ _ H1 H2. by apply Forall_app.
Qed.

Lemma move_result_footprint fs s rd fs' o k :
  move_result fs s rd fs' o → fs' !! k ≠ fs !! k → k = s ∨ k = rd.
Proof.
  intros [data Hs Hrd|data e Hs Hrd Hne|e|Hs] Hk; [| |done..].
  - destruct (decide (k = rd)) as [->|?]; [by right|].
    destruct (decide (k = s)) as [->|?]; [by left|].
    by rewrite lookup_insert_ne, lookup_delete_ne in Hk.
  - destruct (decide (k = rd)) as [->|?]; [by right|].
    by rewrite lookup_insert_ne in Hk.
Qed.

(** The loops change the filesystem only where a move of the trace took
    from or wrote to. *)
Lemma transfer_footprint fs fs' t o :
  transfer fs = (fs', t, o) → ∀ k, fs' !! k ≠ fs !! k → touched_by cwd t k.
Proof.
  apply (satisfies_transfer
           (λ fs t _ fs', ∀ k, fs' !! k ≠ fs !! k → touched_by cwd t k)); try done.
  - intros fs0 root file fs1 t1 o1.
    destruct (visit_run root file fs0) as [[_ ->]|(_ & fs2 & o2 & rd & Hrd & Hr & ->)].
    + by intros [= <- <- <-].
    + intros [= <- <- <-] k Hk.
      exists fs0, (join root file), (join D file), o2. split; [by left|].
      destruct (move_result_footprint _ _ _ _ _ _ Hr Hk) as [->| ->]; [by left|].
      destruct Hrd as [->|[_ ->]]; auto.
  - intros fs0 t1 fs1 t2 o2 fs2 H1 H2 k Hk.
    destruct (decide (fs1 !! k = fs0 !! k)) as [He|Hne].
    + destruct (H2 k) as (pre & s & d & r & Hin & Hor); [congruence|].
      exists pre, s, d, r. split; [|done]. apply elem_of_app. by right.
    + destruct (H1 k Hne) as (pre & s & d & r & Hin & Hor).
      exists pre, s, d, r. split; [|done]. apply elem_of_app. by left.
Qed.

End RunFacts.

(* ===================================================================== *)
(** * [os.makedirs] *)
(* ===================================================================== *)

Section MakedirsFacts.

Variable cwd : path.

Lemma adds_dirs_refl p fs : adds_dirs p fs fs.
Proof. intros k. by left. Qed.

Lemma adds_dirs_trans p fs1 fs2 fs3 :
  adds_dirs p fs1 fs2 → adds_dirs p fs2 fs3 → adds_dirs p fs1 fs3.
Proof.
  intros H12 H23 k. destruct (H23 k) as [->|(Hn & -> & Hp)]; [apply H12|].
  destruct (H12 k) as [He|(_ & He & _)]; [|congruence].
  right. by rewrite <-He.
Qed.

Lemma adds_dirs_weaken p q fs1 fs2 :
  p `prefix_of` q → adds_dirs p fs1 fs2 → adds_dirs q fs1 fs2.
Proof.
  intros Hpq H k. destruct (H k) as [->|(? & ? & ?)]; [by left|right].
  split_and!; [done..|by etrans].
Qed.

Lemma adds_dirs_keeps p fs fs1 k e :
  adds_dirs p fs fs1 → fs !! k = Some e → fs1 !! k = Some e.
Proof. intros H He. destruct (H k) as [->|(? & _)]; congruence. Qed.

Lemma adds_dirs_off p fs fs1 k :
  adds_dirs p fs fs1 → ¬ k `prefix_of` p → fs1 !! k = fs !! k.
Proof. intros H Hk. by destruct (H k) as [->|(_ & _ & ?)]. Qed.

(** [os.mkdir] under [exist_ok=True]: the directory is made, or was
    there, or the error goes through. *)
Lemma mkdir_exist_ok_run p fs :
  (fs !! p = None ∧ mkdir_exist_ok p fs = (<[p := Dir true true]> fs, [], Done tt))
  ∨ (isdir fs p = true ∧ mkdir_exist_ok p fs = (fs, [], Done tt))
  ∨ (∃ e, isdir fs p = false ∧ mkdir_exist_ok p fs = (fs, [], Raised e) ∧
          (e = FileExistsError → is_Some (fs !! p))).
Proof.
  unfold mkdir_exist_ok, catch, os_mkdir, isdir, bind, get. simpl.
  destruct (fs !! p) as [[data|r w]|] eqn:Hp; simpl; rewrite ?Hp.
  - right; right. exists FileExistsError. eauto.
  - right; left. eauto.
  - unfold check_parent_writable.
    destruct (fs !! parent p) as [[data|r [|]]|]; simpl; rewrite ?Hp;
      [right; right; eexists; by split_and!|by left|..];
      right; right; eexists; by split_and!.
Qed.

Lemma bind_done {A B} (m : M A) (k : A → M B) fs fs1 a :
  m fs = (fs1, [], Done a) → bind m k fs = k a fs1.
Proof. unfold bind. intros ->. by destruct (k a fs1) as [[??]?]. Qed.

Lemma bind_raised {A B} (m : M A) (k : A → M B) fs fs1 t e :
  m fs = (fs1, t, Raised e) → bind m k fs = (fs1, t, Raised e).
Proof. unfold bind. by intros ->. Qed.

Lemma bind_stuck {A B} (m : M A) (k : A → M B) fs fs1 t :
  m fs = (fs1, t, Stuck) → bind m k fs = (fs1, t, Stuck).
Proof. unfold bind. by intros ->. Qed.

Lemma bind_seq {A B} (m : M A) (k : A → M B) fs fs1 t1 a fs2 t2 o :
  m fs = (fs1, t1, Done a) → k a fs1 = (fs2, t2, o) →
  bind m k fs = (fs2, t1 ++ t2, o).
Proof. unfold bind. by intros -> ->. Qed.

Lemma observed_run {A} (mk : outcome unit → event) (m : M A) fs fs1 t o :
  m fs = (fs1, t, o) → observed mk m fs = (fs1, mk (void o) :: t, o).
Proof. unfold observed. by intros ->. Qed.

Lemma makedirs_rev_unfold rp :
  makedirs_rev rp =
  bind (match rp with
        | [] => ret tt
        | _ :: rhead =>
            bind get (λ fs,
              if exists_ fs (rev rhead) then ret tt
              else catch (makedirs_rev rhead)
                     (λ e, if decide (e = FileExistsError) then ret tt else raise e))
        end)
       (λ _, mkdir_exist_ok (rev rp)).
Proof. by destruct rp. Qed.

(** [makedirs] writes nothing to the trace, stays in the model, and only
    adds directories along the path; when it is done the path is a
    directory and its parent exists; it raises [FileExistsError] only
    for a path that was there. *)
Lemma makedirs_rev_run rp fs :
  ∃ fs1 o,
    makedirs_rev rp fs = (fs1, [], o) ∧
    adds_dirs (rev rp) fs fs1 ∧
    o ≠ Stuck ∧
    (o = Done tt →
       isdir fs1 (rev rp) = true ∧
       ∀ x rh, rp = x :: rh → exists_ fs1 (rev rh) = true) ∧
    (o = Raised FileExistsError → is_Some (fs !! rev rp)).
Proof.
  revert fs. induction rp as [|x rh IH]; intros fs; rewrite makedirs_rev_unfold.
  - rewrite (bind_done _ _ fs fs ()) by done.
    destruct (mkdir_exist_ok_run (rev []) fs)
      as [[Hn ->]|[[Hd ->]|(e & Hd & -> & He)]];
      eexists _, _; (split; [done|]).
    + split_and!; [|done|..|done].
      * intros k. destruct (decide (k = [])) as [->|Hk].
        -- right. by rewrite lookup_insert_eq.
        -- left. by rewrite lookup_insert_ne.
      * intros _. split; [|done]. unfold isdir. by rewrite lookup_insert_eq.
    + split_and!; [apply adds_dirs_refl|done|done|done].
    + split_and!; [apply adds_dirs_refl|done|done|]. intros [= ->]. by apply He.
  - (* the head *)
    assert (∃ fs2 o2,
      bind get (λ fs0, if exists_ fs0 (rev rh) then ret tt
                       else catch (makedirs_rev rh)
                              (λ e, if decide (e = FileExistsError)
                                    then ret tt else raise e)) fs = (fs2, [], o2) ∧
      adds_dirs (rev rh) fs fs2 ∧ o2 ≠ Stuck ∧ o2 ≠ Raised FileExistsError ∧
      (o2 = Done tt → exists_ fs2 (rev rh) = true)) as (fs2 & o2 & Hhead & Ha & Hs & Hx & Hd).
    { rewrite (bind_done _ _ fs fs fs) by done.
      destruct (exists_ fs (rev rh)) eqn:Hex.
      - eexists _, _. split; [done|]. split_and!; [apply adds_dirs_refl|done..].
      - unfold catch.
        destruct (IH fs) as (fs2 & o2 & -> & Ha & Hs & Hd & He).
        destruct o2 as [[]|e|]; [| |done].
        + eexists _, _. split; [done|]. split_and!; [done..|].
          intros _. destruct (Hd eq_refl) as [Hd' _]. unfold exists_, isdir in *.
          destruct (fs2 !! rev rh) as [[]|]; [done| |done].
          by apply bool_decide_eq_true_2.
        + destruct (decide (e = FileExistsError)) as [->|Hne]; simpl.
          * apply bool_decide_eq_false_1 in Hex. by destruct Hex, He.
          * eexists _, _. split; [done|]. split_and!; [done..| |done]. congruence. }
    assert (adds_dirs (rev (x :: rh)) fs fs2) as Ha'.
    { eapply adds_dirs_weaken; [|done]. simpl. by apply prefix_app_r. }
    destruct o2 as [[]|e|]; [| |done].
    + rewrite (bind_done _ _ _ _ _ Hhead). specialize (Hd eq_refl).
      destruct (mkdir_exist_ok_run (rev (x :: rh)) fs2)
        as [[Hn ->]|[[Hdr ->]|(e & Hdr & -> & He)]];
        eexists _, _; (split; [done|]).
      * split_and!; [|done|..|done].
        -- eapply adds_dirs_trans; [done|]. intros k.
           destruct (decide (k = rev (x :: rh))) as [->|Hk].
           ++ right. by rewrite lookup_insert_eq.
           ++ left. by rewrite lookup_insert_ne.
        -- intros _. split.
           ++ unfold isdir. by rewrite lookup_insert_eq.
           ++ intros ?? [= <- <-]. unfold exists_ in *.
              apply bool_decide_eq_true_2. apply bool_decide_eq_true_1 in Hd.
              rewrite lookup_insert_ne; [done|]. simpl.
              intros H%(f_equal length). rewrite length_app in H. simpl in H. lia.
      * split_and!; [done|done| |done]. intros _. split; [done|].
        by intros ?? [= <- <-].
      * split_and!; [done|done|done|]. intros [= ->]. specialize (He eq_refl).
        destruct (Ha (rev (x :: rh))) as [<-|(_ & _ & Hp)]; [done|].
        apply prefix_length in Hp. simpl in Hp. rewrite length_app in Hp.
        simpl in Hp. lia.
    + rewrite (bind_raised _ _ _ _ _ _ Hhead).
      eexists _, _. split; [done|]. split_and!; [done..| |]; congruence.
Qed.

(** Once the directory is there, with its parent, [makedirs] does nothing
    and raises nothing. *)
Lemma makedirs_rev_noop rp fs :
  isdir fs (rev rp) = true →
  (∀ x rh, rp = x :: rh → exists_ fs (rev rh) = true) →
  makedirs_rev rp fs = (fs, [], Done tt).
Proof.
  intros Hd Hp.
  assert (mkdir_exist_ok (rev rp) fs = (fs, [], Done tt)) as Hm.
  { destruct (mkdir_exist_ok_run (rev rp) fs)
      as [[Hn _]|[[_ ->]|(e & Hdr & _)]]; [|done|congruence].
    unfold isdir in Hd. by rewrite Hn in Hd. }
  rewrite makedirs_rev_unfold. destruct rp as [|x rh].
  - by rewrite (bind_done _ _ fs fs ()).
  - rewrite (bind_done _ _ fs fs ()); [done|].
    rewrite (bind_done _ _ fs fs fs) by done. by rewrite (Hp x rh eq_refl).
Qed.

Lemma rev_parent (p : path) :
  p ≠ [] → ∃ x rh, rev p = x :: rh ∧ rev rh = parent p.
Proof.
  destruct p as [|y p] using rev_ind; [done|]. intros _.
  exists y, (rev p). unfold parent.
  by rewrite rev_unit, rev_involutive, removelast_last.
Qed.

Lemma makedirs_run name fs :
  ∃ fs1 o,
    makedirs cwd name fs = (fs1, [], o) ∧
    adds_dirs (resolve cwd name) fs fs1 ∧
    o ≠ Stuck ∧
    (o = Done tt →
       isdir fs1 (resolve cwd name) = true ∧
       (resolve cwd name ≠ [] → exists_ fs1 (parent (resolve cwd name)) = true)).
Proof.
  unfold makedirs.
  destruct (makedirs_rev_run (rev (resolve cwd name)) fs)
    as (fs1 & o & Hrun & Ha & Hs & Hd & _).
  rewrite rev_involutive in *. exists fs1, o. split_and!; [done..|].
  intros Ho. destruct (Hd Ho) as [Hdir Hpar]. split; [done|]. intros Hne.
  destruct (rev_parent _ Hne) as (x & rh & Er & <-). by apply (Hpar x rh).
Qed.

Lemma makedirs_noop name fs :
  isdir fs (resolve cwd name) = true →
  (resolve cwd name ≠ [] → exists_ fs (parent (resolve cwd name)) = true) →
  makedirs cwd name fs = (fs, [], Done tt).
Proof.
  intros Hd Hp. unfold makedirs. apply makedirs_rev_noop.
  - by rewrite rev_involutive.
  - intros x rh Er.
    destruct (decide (resolve cwd name = [])) as [Hn|Hn]; [by rewrite Hn in Er|].
    destruct (rev_parent _ Hn) as (x' & rh' & Er' & Hpar).
    rewrite Er in Er'. simplify_eq. rewrite Hpar. by apply Hp.
Qed.

End MakedirsFacts.

(* ===================================================================== *)
(** * The whole run *)
(* ===================================================================== *)

Section MainFacts.

Variable cwd : path.
Variable home : option string.

Local Abbreviation D := (destination_dir home).

(** The run is the making of the destination directory, then, when that
    went through, the loops and, when they went through, the last line. *)
Lemma main_run fs :
  ∃ fs1 o1,
    makedirs cwd D fs = (fs1, [], o1) ∧
    match o1 with
    | Done _ =>
        ∃ fs2 t2 o2,
          transfer cwd home fs1 = (fs2, t2, o2) ∧
          main cwd home fs =
            (fs2,
             EvMakedirs D (Done tt) :: t2 ++
               match o2 with
               | Done _ => [EvPrint "Transfer complete."]
               | _ => []
               end,
             o2)
    | _ => main cwd home fs = (fs1, [EvMakedirs D o1], o1)
    end.
Proof.
  destruct (makedirs_run cwd D fs) as (fs1 & o1 & Hm & _).
  exists fs1, o1. split; [done|]. unfold main.
  pose proof (observed_run (EvMakedirs D) _ _ _ _ _ Hm) as Hobs.
  rewrite void_unit in Hobs.
  destruct o1 as [[]|e|];
    [|by rewrite (bind_raised _ _ _ _ _ _ Hobs)|by rewrite (bind_stuck _ _ _ _ _ Hobs)].
  destruct (transfer cwd home fs1) as [[fs2 t2] o2] eqn:Et.
  exists fs2, t2, o2. split; [done|].
  unfold bind. rewrite Hobs. cbv beta iota. rewrite Et.
  destruct o2 as [[]|e|]; cbv beta iota; [done|by rewrite app_nil_r..].
Qed.

End MainFacts.

(* ===================================================================== *)
(** * The loops on a filesystem with proper names *)
(* ===================================================================== *)

Section WalkFacts.

Variable cwd : path.
Variable home : option string.
Hypothesis cwd_wf : wf_path cwd.

Local Abbreviation D := (destination_dir home).
Local Abbreviation pD := (resolve cwd (destination_dir home)).
Local Abbreviation visit := (visit cwd home).
Local Abbreviation body := (λ (root : string) (_ files : list string),
                              for_ files (Script.visit cwd home root)).

Lemma footprint_refl Del p fs : footprint Del p fs fs.
Proof. split; [apply dirs_agree_refl|done]. Qed.

Lemma footprint_trans Del p fs1 fs2 fs3 :
  footprint Del p fs1 fs2 → footprint Del p fs2 fs3 → footprint Del p fs1 fs3.
Proof.
  intros [Hd1 H1] [Hd2 H2]. split; [by eapply dirs_agree_trans|]. intros k Hk.
  destruct (decide (fs3 !! k = fs2 !! k)) as [He|Hne]; [|by apply H2].
  destruct (H1 k) as [[Hn Hdel]|[Hf Hl]]; [congruence|left|right].
  - split; [congruence|done].
  - split; [|done]. unfold isfile in *. by rewrite He.
Qed.

Lemma footprint_weaken (Del Del' : path → Prop) p fs fs' :
  (∀ k, Del k → Del' k) → footprint Del p fs fs' → footprint Del' p fs fs'.
Proof.
  intros Hi [Hd H]. split; [done|]. intros k Hk.
  destruct (H k Hk) as [[? ?]|?]; [left|right]; auto.
Qed.

Lemma move_result_isfile fs s rd fs' o k :
  move_result fs s rd fs' o → k ≠ s → isfile fs k = true → isfile fs' k = true.
Proof.
  unfold isfile.
  intros [data Hs Hrd|data e Hs Hrd Hne|e|Hs] Hk Hf; [| |done..].
  - destruct (decide (k = rd)) as [->|?]; [by rewrite lookup_insert_eq|].
    by rewrite lookup_insert_ne, lookup_delete_ne.
  - destruct (decide (k = rd)) as [->|?]; [by rewrite lookup_insert_eq|].
    by rewrite lookup_insert_ne.
Qed.

Lemma wf_path_snoc p n : wf_path (p ++ [n]) ↔ wf_path p ∧ proper_name n = true.
Proof. unfold wf_path. rewrite Forall_app, Forall_singleton. tauto. Qed.

Lemma wf_names_insert fs k e : wf_names fs → wf_path k → wf_names (<[k := e]> fs).
Proof. intros Hfs Hk. by apply map_Forall_insert_2. Qed.

Lemma move_result_wf fs s rd fs' o :
  move_result fs s rd fs' o → wf_names fs → wf_path rd → wf_names fs'.
Proof.
  intros [data Hs Hrd|data e Hs Hrd Hne|e|Hs] Hfs Hw; [| |done..].
  - apply wf_names_insert; [|done]. by apply map_Forall_delete.
  - by apply wf_names_insert.
Qed.

Lemma name_of_snoc p n : name_of (p ++ [n]) = n.
Proof. apply default_last_snoc. Qed.

(** One iteration of the inner loop, on the name of a file of the
    directory. *)
Lemma visit_step root file fs fs' t o :
  wf_names fs →
  proper_name file = true →
  isfile fs (resolve cwd root ++ [file]) = true →
  visit root file fs = (fs', t, o) →
  loop_post cwd home
    (λ k, k = resolve cwd root ++ [file] ∧ matches file = true) fs fs' t o
  ∧ (∀ k, k ≠ resolve cwd root ++ [file] → isfile fs k = true → isfile fs' k = true).
Proof.
  intros Hfs Hn Hf.
  destruct (visit_run cwd home root file fs)
    as [[_ ->]|(Hm & fs2 & o2 & rd & Hrd & Hr & ->)].
  - intros [= <- <- <-]. split; [|done]. unfold loop_post.
    split_and!; [done|apply footprint_refl|done|constructor].
  - intros [= <- <- <-]. rewrite (resolve_join cwd root file Hn) in Hr.
    assert (rd = pD ++ [file] ∨ rd = pD ++ [file; file]) as Hrd'.
    { destruct Hrd as [->|[_ ->]].
      - left. by apply resolve_join.
      - right. rewrite basename_rstrip_join by done.
        rewrite !resolve_join by done. by rewrite <-(assoc_L (++)). }
    assert (wf_path rd) as Hwrd.
    { pose proof (resolve_wf cwd D cwd_wf).
      destruct Hrd' as [->| ->].
      - by apply wf_path_snoc.
      - change [file; file] with ([file] ++ [file]). rewrite (assoc_L (++)).
        apply wf_path_snoc. split; [|done]. by apply wf_path_snoc. }
    split; [unfold loop_post; split_and!|].
    + intros ->. inversion Hr as [| | |Hs]. subst fs2. unfold isdir, isfile in *.
      by destruct (fs !! (resolve cwd root ++ [file])) as [[]|].
    + split; [by eapply move_result_dirs|]. intros k Hk.
      assert (k = rd → isfile fs2 k = true ∧ landing pD k) as Hland.
      { intros ->. split; [|by exists file]. unfold isfile.
        inversion Hr; subst; try done; by rewrite lookup_insert_eq. }
      destruct (move_result_footprint _ _ _ _ _ _ Hr Hk) as [Hks|Hkr]; [|auto].
      destruct (decide (k = rd)) as [He|Hne]; [auto|]. subst k.
      inversion Hr; subst; try done.
      * left. split; [|done]. by rewrite lookup_insert_ne, lookup_delete_eq.
      * by rewrite lookup_insert_ne in Hk.
    + by eapply move_result_wf.
    + constructor; [by exists root, file|]. destruct o2; by repeat constructor.
    + intros k Hk. by eapply move_result_isfile.
Qed.

Lemma bind_inv (m : M unit) (k : unit → M unit) fs fs' t o :
  bind m k fs = (fs', t, o) →
  (∃ fs1 t1 t2, m fs = (fs1, t1, Done tt) ∧ k tt fs1 = (fs', t2, o) ∧ t = t1 ++ t2)
  ∨ (m fs = (fs', t, o) ∧ o ≠ Done tt).
Proof.
  unfold bind. destruct (m fs) as [[fs1 t1] [[]|e|]].
  - destruct (k () fs1) as [[fs2 t2] o2] eqn:Ek. intros [= <- <- <-]. left.
    by exists fs1, t1, t2.
  - intros [= <- <- <-]. by right.
  - intros [= <- <- <-]. by right.
Qed.

Lemma loop_post_refl Del fs : wf_names fs → loop_post cwd home Del fs fs [] (Done tt).
Proof. intros Hfs. split_and!; [done|apply footprint_refl|done|constructor]. Qed.

Lemma loop_post_seq Del fs fs1 fs2 t1 t2 o :
  loop_post cwd home Del fs fs1 t1 (Done tt) →
  loop_post cwd home Del fs1 fs2 t2 o →
  loop_post cwd home Del fs fs2 (t1 ++ t2) o.
Proof.
  intros (_ & Hf1 & _ & Hm1) (Ho & Hf2 & Hw & Hm2).
  split_and!; [done|by eapply footprint_trans|done|by apply Forall_app].
Qed.

Lemma loop_post_weaken (Del Del' : path → Prop) fs fs' t o :
  (∀ k, Del k → Del' k) →
  loop_post cwd home Del fs fs' t o → loop_post cwd home Del' fs fs' t o.
Proof.
  intros Hi (Ho & Hf & Hw & Hm). split_and!; [done| |done..].
  by eapply footprint_weaken.
Qed.

Lemma wf_names_lookup fs k e : wf_names fs → fs !! k = Some e → wf_path k.
Proof. intros Hfs Hk. by apply (map_Forall_lookup_1 _ _ _ _ Hfs Hk). Qed.

Lemma isfile_proper fs p n :
  wf_names fs → isfile fs (p ++ [n]) = true → proper_name n = true.
Proof.
  unfold isfile. intros Hfs Hf.
  destruct (fs !! (p ++ [n])) as [e|] eqn:He; [|done].
  by apply (wf_names_lookup _ _ _ Hfs), wf_path_snoc in He as [_ ?].
Qed.

(** The inner loop over the files of a directory. *)
Lemma files_step root files fs fs' t o :
  wf_names fs →
  NoDup files →
  (∀ n, n ∈ files → isfile fs (resolve cwd root ++ [n]) = true) →
  for_ files (visit root) fs = (fs', t, o) →
  loop_post cwd home
    (λ k, ∃ n, n ∈ files ∧ matches n = true ∧ k = resolve cwd root ++ [n])
    fs fs' t o.
Proof.
  revert fs fs' t o. induction files as [|x xs IH]; intros fs fs' t o Hfs Hnd Hf.
  - intros [= <- <- <-]. by apply loop_post_refl.
  - apply NoDup_cons in Hnd as [Hx Hnd]. cbn [for_].
    assert (isfile fs (resolve cwd root ++ [x]) = true) as Hfx by (apply Hf; by left).
    pose proof (isfile_proper _ _ _ Hfs Hfx) as Hpx.
    intros [(fs1 & t1 & t2 & Hv & Hrest & ->)|[Hv Ho]]%bind_inv.
    + destruct (visit_step root x fs fs1 t1 _ Hfs Hpx Hfx Hv) as [Hp1 Hkeep].
      eapply loop_post_seq.
      * eapply loop_post_weaken; [|exact Hp1]. intros k [-> Hm]. exists x.
        split_and!; [by left|done..].
      * eapply loop_post_weaken; [|eapply (IH fs1); [by apply Hp1|done| |done]].
        -- intros k (n & Hn & Hm & ->). exists n. split_and!; [by right|done..].
        -- intros n Hn. apply Hkeep; [|apply Hf; by right].
           intros He%(inj (app _)). simplify_eq. done.
    + destruct (visit_step root x fs fs' t o Hfs Hpx Hfx Hv) as [Hp1 _].
      eapply loop_post_weaken; [|exact Hp1]. intros k [-> Hm]. exists x.
      split_and!; [by left|done..].
Qed.

Lemma dirs_within_agree h fs fs' :
  dirs_within h fs → dirs_agree fs fs' → dirs_within h fs'.
Proof. intros Hw Ha k r w Hk. apply (Hw k r w). by apply Ha. Qed.

Lemma matching_below_snoc p n k :
  matching_below (p ++ [n]) k → matching_below p k.
Proof.
  intros (Hp & Hne & Hm). split_and!; [|intros ->|done].
  - etrans; [|done]. by apply prefix_app_r.
  - apply prefix_length in Hp. rewrite length_app in Hp. simpl in Hp. lia.
Qed.

(** The walk from a directory, with fuel for the directories below. *)
Lemma walk_step h depth top fs fs' t o :
  wf_names fs →
  dirs_within h fs →
  1 ≤ depth →
  h < length (resolve cwd top) + depth →
  os_walk cwd depth top body fs = (fs', t, o) →
  loop_post cwd home (matching_below (resolve cwd top)) fs fs' t o.
Proof.
  revert top fs fs' t o.
  induction depth as [|d IH]; intros top fs fs' t o Hfs Hh Hd Hfuel; [lia|].
  cbn [os_walk]. unfold bind at 1.
  destruct (listing_run cwd top fs) as [([dirs files] & Hscan & ->)|(e & _ & ->)].
  2:{ intros [= <- <- <-]. split_and!; [done|apply footprint_refl|done|].
      by repeat constructor. }
  apply scandir_done in Hscan as (_ & _ & [w Hp] & Hdirs & Hfiles & Hnd & Hnf).
  destruct (bind _ _ fs) as [[fs2 t2] o2] eqn:Eb. intros [= <- <- <-].
  assert (loop_post cwd home (matching_below (resolve cwd top)) fs fs2 t2 o2) as Hpost.
  2:{ destruct Hpost as (? & ? & ? & ?). split_and!; [done..|]. by constructor. }
  (* the files of this directory *)
  assert (∀ fs1 t1 o1, for_ files (visit top) fs = (fs1, t1, o1) →
            loop_post cwd home (matching_below (resolve cwd top)) fs fs1 t1 o1)
    as Hfilesloop.
  { intros fs1 t1 o1 Hrun. eapply loop_post_weaken; [|eapply files_step; [done..| |done]].
    - intros k (n & Hn & Hm & ->). split_and!.
      + by apply prefix_app_r.
      + intros He. apply (f_equal length) in He. rewrite length_app in He.
        simpl in He. lia.
      + by rewrite name_of_snoc.
    - intros n [data Hn]%Hfiles. unfold isfile. by rewrite Hn. }
  (* the directories of this directory *)
  assert (∀ ds fs1 fs3 t3 o3,
            (∀ n, n ∈ ds → n ∈ dirs) → wf_names fs1 → dirs_within h fs1 →
            for_ ds (λ dirname, os_walk cwd d (join top dirname) body) fs1
              = (fs3, t3, o3) →
            loop_post cwd home (matching_below (resolve cwd top)) fs1 fs3 t3 o3)
    as Hdirsloop.
  { induction ds as [|dn ds IHds]; intros fs1 fs3 t3 o3 Hsub Hfs1 Hh1.
    - intros [= <- <- <-]. by apply loop_post_refl.
    - cbn [for_].
      assert (dn ∈ dirs) as Hdn by (apply Hsub; by left).
      apply Hdirs in Hdn as (r' & w' & Hdn).
      assert (proper_name dn = true) as Hpn.
      { by apply (wf_names_lookup _ _ _ Hfs), wf_path_snoc in Hdn as [_ ?]. }
      pose proof (Hh _ _ _ Hdn) as Hlen. rewrite length_app in Hlen. simpl in Hlen.
      assert (∀ fs4 t4 o4,
                os_walk cwd d (join top dn) body fs1 = (fs4, t4, o4) →
                loop_post cwd home (matching_below (resolve cwd top)) fs1 fs4 t4 o4)
        as Hchild.
      { intros fs4 t4 o4 Hrun.
        eapply loop_post_weaken; [|eapply IH; [done|done| | |done]].
        - rewrite resolve_join by done. apply matching_below_snoc.
        - lia.
        - rewrite resolve_join, length_app by done. simpl. lia. }
      intros [(fs4 & t4 & t5 & Hv & Hrest & ->)|[Hv Ho]]%bind_inv.
      + pose proof (Hchild _ _ _ Hv) as Hp4. eapply loop_post_seq; [done|].
        eapply IHds; [|by apply Hp4| |done].
        * intros n Hn. apply Hsub. by right.
        * eapply dirs_within_agree; [done|]. apply Hp4.
      + by apply Hchild. }
  revert Eb. intros [(fs1 & t1 & t3 & Hv & Hrest & ->)|[Hv Ho]]%bind_inv.
  - pose proof (Hfilesloop _ _ _ Hv) as Hp1. eapply loop_post_seq; [done|].
    eapply Hdirsloop; [done|by apply Hp1| |done].
    eapply dirs_within_agree; [done|]. apply Hp1.
  - by apply Hfilesloop.
Qed.

Lemma transfer_unfold fs :
  transfer cwd home fs = os_walk cwd (S (fs_height fs)) source_dir body fs.
Proof.
  unfold transfer, bind, get.
  by destruct (os_walk cwd (S (fs_height fs)) source_dir _ fs) as [[??]?].
Qed.

(** The two loops, on a filesystem with proper names. *)
Lemma transfer_step fs fs' t o :
  wf_names fs →
  transfer cwd home fs = (fs', t, o) →
  loop_post cwd home (matching_below (resolve cwd source_dir)) fs fs' t o.
Proof.
  intros Hfs. rewrite transfer_unfold.
  apply (walk_step (fs_height fs)); [done| |lia..].
  intros k r w Hk. by eapply fs_height_bound.
Qed.

(** The loop over the directories of a directory. *)
Lemma dirs_step h d top ds fs fs' t o :
  wf_names fs →
  dirs_within h fs →
  (∀ n, n ∈ ds → isdir fs (resolve cwd top ++ [n]) = true) →
  for_ ds (λ dirname, os_walk cwd d (join top dirname) body) fs = (fs', t, o) →
  h < length (resolve cwd top) + S d →
  loop_post cwd home
    (λ k, ∃ n, n ∈ ds ∧ matching_below (resolve cwd top ++ [n]) k) fs fs' t o.
Proof.
  revert fs fs' t o. induction ds as [|dn ds IH]; intros fs fs' t o Hfs Hh Hds.
  - intros [= <- <- <-] _. by apply loop_post_refl.
  - cbn [for_]. intros Hrun Hfuel.
    assert (isdir fs (resolve cwd top ++ [dn]) = true) as Hdn by (apply Hds; by left).
    unfold isdir in Hdn.
    destruct (fs !! (resolve cwd top ++ [dn])) as [[|r w]|] eqn:Hl; try done.
    assert (proper_name dn = true) as Hpn.
    { by apply (wf_names_lookup _ _ _ Hfs), wf_path_snoc in Hl as [_ ?]. }
    pose proof (Hh _ _ _ Hl) as Hlen. rewrite length_app in Hlen. simpl in Hlen.
    assert (∀ fs4 t4 o4,
              os_walk cwd d (join top dn) body fs = (fs4, t4, o4) →
              loop_post cwd home
                (λ k, ∃ n, n ∈ dn :: ds ∧ matching_below (resolve cwd top ++ [n]) k)
                fs fs4 t4 o4) as Hchild.
    { intros fs4 t4 o4 Hw.
      eapply loop_post_weaken; [|eapply (walk_step h); [done|done| | |done]].
      - rewrite resolve_join by done. intros k Hk. exists dn. split; [by left|done].
      - lia.
      - rewrite resolve_join, length_app by done. simpl. lia. }
    apply bind_inv in Hrun as [(fs4 & t4 & t5 & Hv & Hrest & ->)|[Hv Ho]].
    + pose proof (Hchild _ _ _ Hv) as Hp4. eapply loop_post_seq; [done|].
      eapply loop_post_weaken; [|eapply (IH fs4); [by apply Hp4| | |done|done]].
      * intros k (n & Hn & Hk). exists n. split; [by right|done].
      * eapply dirs_within_agree; [done|]. apply Hp4.
      * intros n Hn. rewrite (dirs_agree_isdir fs); [apply Hds; by right|].
        apply Hp4.
    + by apply Hchild.
Qed.

(** ** Every visible file with a matching name is moved *)

Lemma visible_inv fs p k :
  visible fs p k →
  p `prefix_of` k ∧ k ≠ p ∧ ∃ data, fs !! k = Some (File data).
Proof.
  induction 1 as [p n w data Hp Hn|p n w r' w' k Hp Hn Hv (IH1 & IH2 & IH3)].
  - split_and!; [by apply prefix_app_r| |by exists data].
    intros He. apply (f_equal length) in He. rewrite length_app in He.
    simpl in He. lia.
  - split_and!; [|intros ->|done].
    + etrans; [|done]. by apply prefix_app_r.
    + apply prefix_length in IH1. rewrite length_app in IH1. simpl in IH1. lia.
Qed.

Lemma visible_agree fs1 fs2 p k :
  visible fs1 p k →
  (∀ k', p `prefix_of` k' → fs2 !! k' = fs1 !! k') →
  visible fs2 p k.
Proof.
  induction 1 as [p n w data Hp Hn|p n w r' w' k Hp Hn Hv IH]; intros Ha.
  - eapply visible_here; rewrite Ha; [done|done|done|by apply prefix_app_r].
  - eapply visible_below; [rewrite Ha; [done|done]|rewrite Ha; [done|]|].
    + by apply prefix_app_r.
    + apply IH. intros k' Hk'. apply Ha. etrans; [|done]. by apply prefix_app_r.
Qed.

(** A file gone stays gone where no move lands. *)
Lemma footprint_gone Del fs fs' k :
  footprint Del pD fs fs' → fs !! k = None → ¬ landing pD k → fs' !! k = None.
Proof.
  intros [_ Hf] Hk Hl. destruct (decide (fs' !! k = fs !! k)) as [->|Hne]; [done|].
  by destruct (Hf k Hne) as [[? _]|[_ ?]].
Qed.

(** What is neither picked for removal nor a place where moves land is
    left as it is. *)
Lemma footprint_same (Del : path → Prop) fs fs' k :
  footprint Del pD fs fs' → ¬ Del k → ¬ landing pD k → fs' !! k = fs !! k.
Proof.
  intros [_ Hf] Hd Hl. destruct (decide (fs' !! k = fs !! k)) as [|Hne]; [done|].
  by destruct (Hf k Hne) as [[_ ?]|[_ ?]].
Qed.

Lemma snoc_prefix_eq (p k : path) (a b : string) :
  p ++ [a] `prefix_of` k → p ++ [b] `prefix_of` k → a = b.
Proof.
  intros [x ->] [y Hy]. rewrite <-!(assoc_L (++)) in Hy.
  apply (inj (app p)) in Hy. by simplify_eq/=.
Qed.

(** The inner loop moves every file of the directory with a matching
    name. *)
Lemma files_cover root files fs fs' t :
  wf_names fs →
  NoDup files →
  (∀ n, n ∈ files → isfile fs (resolve cwd root ++ [n]) = true) →
  no_landing_below pD (resolve cwd root) →
  for_ files (visit root) fs = (fs', t, Done tt) →
  ∀ n, n ∈ files → matches n = true →
    fs' !! (resolve cwd root ++ [n]) = None ∧
    ∃ pre, EvMove pre (join root n) (join D n) (Done tt) ∈ t ∧
           pre !! (resolve cwd root ++ [n]) = fs !! (resolve cwd root ++ [n]).
Proof.
  revert fs fs' t. induction files as [|x xs IH]; intros fs fs' t Hfs Hnd Hf Hclear;
    [by intros _ n ?%elem_of_nil|].
  apply NoDup_cons in Hnd as [Hx Hnd]. cbn [for_].
  assert (isfile fs (resolve cwd root ++ [x]) = true) as Hfx by (apply Hf; by left).
  pose proof (isfile_proper _ _ _ Hfs Hfx) as Hpx.
  intros [(fs1 & t1 & t2 & Hv & Hrest & ->)|[_ ?]]%bind_inv; [|done].
  destruct (visit_step root x fs fs1 t1 _ Hfs Hpx Hfx Hv) as [Hp1 Hkeep].
  assert (∀ n, n ∈ xs → isfile fs1 (resolve cwd root ++ [n]) = true) as Hf1.
  { intros n Hn. apply Hkeep; [|apply Hf; by right].
    intros He%(inj (app _)). simplify_eq. done. }
  pose proof (files_step root xs fs1 fs' t2 _ (proj1 (proj2 (proj2 Hp1))) Hnd Hf1 Hrest)
    as Hp2.
  assert (∀ n, ¬ landing pD (resolve cwd root ++ [n])) as Hnl.
  { intros n Hl. apply (Hclear _ Hl). by apply prefix_app_r. }
  intros n [->|Hn]%elem_of_cons Hm.
  - destruct (visit_run cwd home root x fs)
      as [[Hm' _]|(_ & fs2 & o2 & rd & Hrd & Hr & Hv')]; [congruence|].
    rewrite Hv in Hv'. injection Hv' as <- -> <-.
    rewrite (resolve_join cwd root x Hpx) in Hr. split.
    + eapply footprint_gone; [apply Hp2| |done].
      inversion Hr as [data Hs Hd| | |]; subst.
      destruct (decide (rd = resolve cwd root ++ [x])) as [->|Hne].
      * exfalso. apply (Hnl x). destruct Hrd as [->|[_ ->]].
        -- exists x. split; [done|left]. by apply resolve_join.
        -- exists x. split; [done|right]. rewrite basename_rstrip_join by done.
           rewrite !resolve_join by done. by rewrite <-(assoc_L (++)).
      * by rewrite lookup_insert_ne, lookup_delete_eq.
    + exists fs. split; [|done]. apply elem_of_app. left. by left.
  - destruct (IH fs1 fs' t2 (proj1 (proj2 (proj2 Hp1))) Hnd Hf1 Hclear Hrest n Hn Hm)
      as (Hgone & pre & Hin & Hpre).
    split; [done|]. exists pre. split; [apply elem_of_app; by right|].
    rewrite Hpre. eapply footprint_same; [apply Hp1| |done].
    intros [He _]. apply (inj (app _)) in He. simplify_eq. done.
Qed.

Lemma no_landing_below_snoc p n :
  no_landing_below pD p → no_landing_below pD (p ++ [n]).
Proof.
  intros H k Hl Hp. apply (H k Hl). etrans; [|done]. by apply prefix_app_r.
Qed.

(** The loop over the directories moves what the walks from them find,
    when the walks one level down do. *)
Lemma dirs_cover h d top ds fs fs' t :
  (∀ top' fs fs' t,
     wf_names fs → dirs_within h fs → 1 ≤ d →
     h < length (resolve cwd top') + d →
     no_landing_below pD (resolve cwd top') →
     os_walk cwd d top' body fs = (fs', t, Done tt) →
     covers cwd D fs fs' t (resolve cwd top')) →
  wf_names fs →
  dirs_within h fs →
  NoDup ds →
  (∀ n, n ∈ ds → isdir fs (resolve cwd top ++ [n]) = true) →
  h < length (resolve cwd top) + S d →
  no_landing_below pD (resolve cwd top) →
  for_ ds (λ dirname, os_walk cwd d (join top dirname) body) fs = (fs', t, Done tt) →
  ∀ dn, dn ∈ ds → covers cwd D fs fs' t (resolve cwd top ++ [dn]).
Proof.
  intros IHd. revert fs fs' t.
  induction ds as [|x xs IH]; intros fs fs' t Hfs Hh Hnd Hds Hfuel Hclear;
    [by intros _ dn ?%elem_of_nil|].
  apply NoDup_cons in Hnd as [Hx Hnd]. cbn [for_].
  intros [(fs4 & t4 & t5 & Hv & Hrest & ->)|[_ ?]]%bind_inv; [|done].
  assert (isdir fs (resolve cwd top ++ [x]) = true) as Hdx by (apply Hds; by left).
  unfold isdir in Hdx.
  destruct (fs !! (resolve cwd top ++ [x])) as [[|r w]|] eqn:Hl; try done.
  assert (proper_name x = true) as Hpx.
  { by apply (wf_names_lookup _ _ _ Hfs), wf_path_snoc in Hl as [_ ?]. }
  pose proof (Hh _ _ _ Hl) as Hlen. rewrite length_app in Hlen. simpl in Hlen.
  assert (loop_post cwd home (matching_below (resolve cwd top ++ [x])) fs fs4 t4 (Done tt))
    as Hp4.
  { rewrite <-(resolve_join cwd top x Hpx).
    eapply (walk_step h); [done|done| | |done].
    - lia.
    - rewrite resolve_join, length_app by done. simpl. lia. }
  assert (∀ n, n ∈ xs → isdir fs4 (resolve cwd top ++ [n]) = true) as Hds4.
  { intros n Hn. rewrite (dirs_agree_isdir fs); [apply Hds; by right|]. apply Hp4. }
  assert (dirs_within h fs4) as Hh4.
  { eapply dirs_within_agree; [done|]. apply Hp4. }
  pose proof (dirs_step h d top xs fs4 fs' t5 _ (proj1 (proj2 (proj2 Hp4)))
                Hh4 Hds4 Hrest Hfuel) as Hp5.
  intros dn [->|Hdn]%elem_of_cons k Hvis Hm.
  - assert (covers cwd D fs fs4 t4 (resolve cwd (join top x))) as Hc.
    { apply IHd; [done|done|lia| | |done].
      - rewrite resolve_join, length_app by done. simpl. lia.
      - rewrite resolve_join by done. by apply no_landing_below_snoc. }
    rewrite resolve_join in Hc by done.
    destruct (Hc k Hvis Hm) as (Hgone & pre & src & Hin & Hsrc & Hpre).
    split.
    + eapply footprint_gone; [apply Hp5|done|]. intros Hland.
      apply (Hclear _ Hland). apply visible_inv in Hvis as [Hpre' _].
      etrans; [|done]. by apply prefix_app_r.
    + exists pre, src. split_and!; [|done..]. apply elem_of_app. by left.
  - assert (∀ k', resolve cwd top ++ [dn] `prefix_of` k' → fs4 !! k' = fs !! k') as Hsame.
    { intros k' Hk'. eapply footprint_same; [apply Hp4| |].
      - intros (Hpx' & _ & _). pose proof (snoc_prefix_eq _ _ _ _ Hpx' Hk'). by subst.
      - intros Hland. apply (Hclear _ Hland). etrans; [|done]. by apply prefix_app_r. }
    destruct (IH fs4 fs' t5 (proj1 (proj2 (proj2 Hp4))) Hh4 Hnd Hds4 Hfuel Hclear Hrest
                 dn Hdn k) as (Hgone & pre & src & Hin & Hsrc & Hpre); [|done|].
    { eapply visible_agree; [done|]. apply Hsame. }
    split; [done|]. exists pre, src. split_and!; [|done|].
    + apply elem_of_app. by right.
    + rewrite Hpre. apply Hsame. by apply visible_inv in Hvis as [? _].
Qed.

(** The walk moves every file with a matching name it finds. *)
Lemma walk_covers h depth top fs fs' t :
  wf_names fs →
  dirs_within h fs →
  1 ≤ depth →
  h < length (resolve cwd top) + depth →
  no_landing_below pD (resolve cwd top) →
  os_walk cwd depth top body fs = (fs', t, Done tt) →
  covers cwd D fs fs' t (resolve cwd top).
Proof.
  revert top fs fs' t.
  induction depth as [|d IH]; intros top fs fs' t Hfs Hh Hd Hfuel Hclear; [lia|].
  cbn [os_walk]. unfold bind at 1.
  destruct (listing_run cwd top fs) as [([dirs files] & Hscan & ->)|(e & Hscan & ->)].
  2:{ intros [= <- <-] k Hvis _. exfalso. unfold scandir in Hscan.
      inversion Hvis as [? ? w ? Hp|? ? w ? ? ? Hp]; subst; by rewrite Hp in Hscan. }
  apply scandir_done in Hscan as (_ & _ & [w Hp] & Hdirs & Hfiles & Hndd & Hndf).
  destruct (bind _ _ fs) as [[fs2 t2] o2] eqn:Eb. intros [= <- <- ->].
  apply bind_inv in Eb as [(fs1 & t1 & t3 & Hv & Hrest & ->)|[_ ?]]; [|done].
  assert (∀ n, n ∈ files → isfile fs (resolve cwd top ++ [n]) = true) as Hf.
  { intros n [data Hn]%Hfiles. unfold isfile. by rewrite Hn. }
  pose proof (files_step top files fs fs1 t1 _ Hfs Hndf Hf Hv) as Hp1.
  assert (∀ n, n ∈ dirs → isdir fs1 (resolve cwd top ++ [n]) = true) as Hds1.
  { intros n (r' & w' & Hn)%Hdirs. rewrite (dirs_agree_isdir fs); [|apply Hp1].
    unfold isdir. by rewrite Hn. }
  assert (dirs_within h fs1) as Hh1.
  { eapply dirs_within_agree; [done|]. apply Hp1. }
  pose proof (dirs_step h d top dirs fs1 fs2 t3 _ (proj1 (proj2 (proj2 Hp1)))
                Hh1 Hds1 Hrest Hfuel) as Hp3.
  intros k Hvis Hm.
  assert (¬ landing pD k) as Hnl.
  { intros Hland. apply (Hclear _ Hland). by apply visible_inv in Hvis as [? _]. }
  inversion Hvis as [? n w0 data _ Hn|? dn w0 r' w' ? _ Hdn Hbelow]; subst.
  - assert (n ∈ files) as Hin by (apply Hfiles; by exists data).
    rewrite name_of_snoc in Hm |- *.
    destruct (files_cover top files fs fs1 t1 Hfs Hndf Hf Hclear Hv n Hin Hm)
      as (Hgone & pre & Hev & Hpre).
    split; [by eapply footprint_gone; [apply Hp3|..]|].
    exists pre, (join top n). split_and!; [|apply resolve_join|done].
    + right. apply elem_of_app. by left.
    + apply (isfile_proper fs (resolve cwd top)); [done|by apply Hf].
  - assert (dn ∈ dirs) as Hin by (apply Hdirs; by exists r', w').
    assert (∀ k', resolve cwd top ++ [dn] `prefix_of` k' → fs1 !! k' = fs !! k') as Hsame.
    { intros k' Hk'. eapply footprint_same; [apply Hp1| |].
      - intros (n & Hnf & _ & ->). apply Hfiles in Hnf as [data Hnf].
        destruct Hk' as [x Hx]. rewrite <-(assoc_L (++)) in Hx.
        apply (inj (app _)) in Hx. simplify_eq/=.
      - intros Hland. apply (Hclear _ Hland). etrans; [|done]. by apply prefix_app_r. }
    destruct (dirs_cover h d top dirs fs1 fs2 t3 IH (proj1 (proj2 (proj2 Hp1)))
                Hh1 Hndd Hds1 Hfuel Hclear Hrest dn Hin k)
      as (Hgone & pre & src & Hev & Hsrc & Hpre); [|done|].
    { eapply visible_agree; [done|]. apply Hsame. }
    split; [done|]. exists pre, src. split_and!; [|done|].
    + right. apply elem_of_app. by right.
    + rewrite Hpre. apply Hsame. by apply visible_inv in Hbelow as [? _].
Qed.

End WalkFacts.

(* ===================================================================== *)
(** * The run from start to end *)
(* ===================================================================== *)

Section WholeRun.

Variable cwd : path.
Variable home : option string.

Local Abbreviation D := (destination_dir home).
Local Abbreviation pD := (resolve cwd (destination_dir home)).
Local Abbreviation pS := (resolve cwd source_dir).

Lemma adds_dirs_wf p fs fs1 :
  adds_dirs p fs fs1 → wf_path p → wf_names fs → wf_names fs1.
Proof.
  intros Ha Hp Hfs k e Hk. destruct (Ha k) as [He|(_ & _ & [x ->])].
  - rewrite He in Hk. by eapply wf_names_lookup.
  - by apply Forall_app in Hp as [? _].
Qed.

Lemma landing_name k : landing pD k → matches (name_of k) = true.
Proof.
  intros (n & Hm & [->| ->]); [by rewrite name_of_snoc|].
  change [n; n] with ([n] ++ [n]). by rewrite (assoc_L (++)), name_of_snoc.
Qed.

Lemma landing_below k : landing pD k → pD `prefix_of` k.
Proof. intros (n & _ & [->| ->]); by apply prefix_app_r. Qed.

Lemma apart_no_landing :
  apart pS pD → no_landing_below pD pS.
Proof.
  intros [H1 H2] k Hl%landing_below Hp.
  destruct (prefix_weak_total _ _ _ Hp Hl); auto.
Qed.


(** The moves of a trace of the loops are from paths with a matching
    name. *)
Lemma moves_wf_moved t k :
  moves_wf D t → moved cwd t k → matches (name_of k) = true.
Proof.
  intros Hwf (pre & src & dst & r & Hin & <-).
  unfold moves_wf in Hwf. rewrite Forall_forall in Hwf.
  destruct (Hwf _ Hin) as (root & file & Hp & Hm & -> & _).
  by rewrite resolve_join, name_of_snoc.
Qed.

End WholeRun.

(* ===================================================================== *)
(** * The match predicate and the configuration *)
(* ===================================================================== *)

Section Predicate.

Lemma any_elements (P : string → bool) (X : gset string) :
  Str.any P (elements X) = true ↔ ∃ x, x ∈ X ∧ P x = true.
Proof.
  unfold Str.any. rewrite existsb_exists. split; intros (x & Hx & HP); exists x.
  - split; [|done]. by apply elem_of_elements, list_elem_of_In.
  - split; [|done]. by apply list_elem_of_In, elem_of_elements.
Qed.

Lemma matches_spec file :
  matches file = true ↔
  (∃ pre post, Str.lower file = pre +:+ Str.lower search_keyword +:+ post) ∧
  (∃ ext, ext ∈ file_extensions ∧ ∃ pre, Str.lower file = pre +:+ ext).
Proof.
  unfold matches. rewrite andb_true_iff, contains_spec, any_elements.
  by setoid_rewrite endswith_spec.
Qed.

(** C6: matching is case-insensitive in both tests.  The file
    [PLAY_video.MP4] matches the keyword [play] and the extension [.mp4];
    in general, for a name of ASCII characters, the name matches exactly
    when its lower-cased form contains the lower-cased keyword and ends
    with a member of the extension set, so two such names that differ
    only in case match alike. *)
Theorem C6_case_insensitive :
  matches "PLAY_video.MP4" = true
  ∧ Str.contains (Str.lower "PLAY_video.MP4") (Str.lower "play") = true
  ∧ Str.endswith (Str.lower "PLAY_video.MP4") ".mp4" = true
  ∧ (∀ file,
       Str.isascii file = true →
       matches file = true ↔
       (∃ pre post, Str.lower file = pre +:+ Str.lower search_keyword +:+ post) ∧
       (∃ ext, ext ∈ file_extensions ∧ ∃ pre, Str.lower file = pre +:+ ext))
  ∧ (∀ f g,
       Str.isascii f = true → Str.isascii g = true →
       Str.lower f = Str.lower g → matches f = matches g).
Proof.
  split; [vm_compute; reflexivity|].
  split; [vm_compute; reflexivity|].
  split; [vm_compute; reflexivity|].
  split; [intros file _; apply matches_spec|].
  intros f g _ _ Hfg. unfold matches. by rewrite Hfg.
Qed.

(** C10: whether a file is moved depends on its name only.  For one
    name under two directories, in whatever two filesystems, either both
    iterations issue a move or neither does; a move is issued exactly
    when the name matches. *)
Theorem C10_decision_ignores_directory
    (cwd : path) (home : option string)
    (root1 root2 file : string) (fs1 fs2 : filesystem) :
  (moves (trace_of (visit cwd home root1 file fs1)) = [] ↔
   moves (trace_of (visit cwd home root2 file fs2)) = [])
  ∧ (moves (trace_of (visit cwd home root1 file fs1)) ≠ [] ↔ matches file = true).
Proof.
  assert (∀ root fs,
            matches file = true ∧
              moves (trace_of (visit cwd home root file fs)) ≠ []
            ∨ matches file = false ∧
              moves (trace_of (visit cwd home root file fs)) = []) as Hone.
  { intros root fs.
    destruct (visit_run cwd home root file fs)
      as [[Hm ->]|(Hm & fs' & o & rd & _ & _ & ->)]; [by right|by left]. }
  destruct (Hone root1 fs1) as [[Hm H1]|[Hm H1]],
           (Hone root2 fs2) as [[Hm' H2]|[Hm' H2]]; try congruence.
  - split; [by split|by split].
  - split; [by split|]. rewrite H1, Hm. by split.
Qed.

Lemma endswith_app_slash s t :
  t ≠ "" → Str.endswith (s +:+ t) "/" = Str.endswith t "/".
Proof.
  intros Ht. induction s as [|c s IH]; [done|].
  rewrite str_app_cons, endswith_cons, IH.
  destruct (String.eqb_spec (String c (s +:+ t)) "/") as [He|_]; [|done].
  injection He as _ He. destruct s; [done|by rewrite str_app_cons in He].
Qed.

(** The destination directory is some prefix followed by the fixed
    subpath. *)
Lemma destination_dir_shape home :
  ∃ pfx, destination_dir home = pfx +:+ "/Desktop/Filtered_Files" ∧
         pfx = match home with Some h => Str.rstrip_slash h | None => "~" end.
Proof.
  unfold destination_dir, expanduser. destruct home as [h|]; simpl;
    [|by exists "~"].
  exists (Str.rstrip_slash h). split; [|done].
  destruct (String.eqb_spec (Str.rstrip_slash h +:+ "/Desktop/Filtered_Files") "")
    as [He|_]; [|done].
  destruct (Str.rstrip_slash h); [done|by rewrite str_app_cons in He].
Qed.

(** Joining a name to the destination directory puts one slash between
    them. *)
Lemma join_destination home file :
  Str.startswith file "/" = false →
  join (destination_dir home) file = destination_dir home +:+ "/" +:+ file.
Proof.
  intros Hf. unfold join. rewrite Hf.
  destruct (destination_dir_shape home) as (pfx & -> & _).
  rewrite endswith_app_slash by done.
  destruct (String.eqb_spec (pfx +:+ "/Desktop/Filtered_Files") "") as [He|_]; [|done].
  destruct pfx; [done|by rewrite str_app_cons in He].
Qed.

End Predicate.

(* ===================================================================== *)
(** * Plain names *)
(* ===================================================================== *)

Section PlainFacts.

Lemma isascii_cons c s :
  Str.isascii (String c s) = (nat_of_ascii c <? 128) && Str.isascii s.
Proof. reflexivity. Qed.

Lemma printable_cons c s :
  Str.printable (String c s) =
  (32 <=? nat_of_ascii c) && (nat_of_ascii c <? 127) && Str.printable s.
Proof. reflexivity. Qed.

Lemma printable_app a b :
  Str.printable (a +:+ b) = Str.printable a && Str.printable b.
Proof.
  induction a as [|c a IH]; [done|].
  rewrite str_app_cons, !printable_cons, IH. by rewrite !andb_assoc.
Qed.

Lemma printable_isascii s : Str.printable s = true → Str.isascii s = true.
Proof.
  induction s as [|c s IH]; [done|]. rewrite printable_cons, isascii_cons.
  intros [[_ H2]%andb_true_iff H3]%andb_true_iff. rewrite IH by done.
  rewrite andb_true_r. apply Nat.ltb_lt. apply Nat.ltb_lt in H2. lia.
Qed.

Lemma printable_rstrip s :
  Str.printable s = true → Str.printable (Str.rstrip_slash s) = true.
Proof.
  induction s as [|c s IH]; [done|]. rewrite printable_cons.
  intros [Hc Hs]%andb_true_iff.
  change (Str.rstrip_slash (String c s))
    with (if Ascii.eqb c "/"%char && String.eqb (Str.rstrip_slash s) ""
          then "" else String c (Str.rstrip_slash s)).
  destruct (Ascii.eqb c "/"%char && _); [done|].
  by rewrite printable_cons, Hc, IH.
Qed.

Lemma printable_split s :
  Str.printable s = true →
  Forall (λ c, Str.printable c = true) (Str.split_slash s).
Proof.
  induction s as [|c s IH]; [by repeat constructor|]. rewrite printable_cons.
  intros [Hc Hs]%andb_true_iff. specialize (IH Hs). rewrite split_slash_cons.
  destruct (Ascii.eqb c "/"%char); [by constructor|].
  destruct (Str.split_slash s) as [|x xs]; [by rewrite <-(andb_true_r (_ && _)) in Hc; repeat constructor|].
  apply Forall_cons in IH as [Hx Hxs]. constructor; [|done].
  by rewrite printable_cons, Hc, Hx.
Qed.

Lemma walk_component_sub acc c x :
  x ∈ walk_component acc c → x ∈ acc ∨ x = c.
Proof.
  unfold walk_component. destruct (_ || _); [by left|].
  destruct (String.eqb c "..").
  - intros Hx. left. destruct acc as [|a acc] using rev_ind; [done|].
    rewrite removelast_last in Hx. apply elem_of_app. by left.
  - intros [?|?%list_elem_of_singleton]%elem_of_app; auto.
Qed.

Lemma fold_walk_sub l acc x :
  x ∈ fold_left walk_component l acc → x ∈ acc ∨ x ∈ l.
Proof.
  revert acc. induction l as [|c l IH]; intros acc; simpl; [auto|].
  intros [[Hx| ->]%walk_component_sub|Hx]%IH; [by left|right; by left|right; by right].
Qed.

Lemma resolve_sub cwd s x :
  x ∈ resolve cwd s → x ∈ cwd ∨ x ∈ Str.split_slash s.
Proof.
  rewrite resolve_unfold. intros [Hx|Hx]%fold_walk_sub; [|by right].
  left. unfold base in Hx. destruct (Str.startswith s "/"); [|done].
  by apply elem_of_nil in Hx.
Qed.

Lemma plain_name_spec n :
  plain_name n = true ↔ proper_name n = true ∧ Str.printable n = true.
Proof. unfold plain_name. apply andb_true_iff. Qed.

Lemma plain_path_spec p :
  plain_path p ↔ wf_path p ∧ Forall (λ n, Str.printable n = true) p.
Proof.
  unfold plain_path, wf_path. rewrite <-Forall_and.
  apply Forall_proper; [|done]. intros n. apply plain_name_spec.
Qed.

Lemma plain_path_wf p : plain_path p → wf_path p.
Proof. by intros [? _]%plain_path_spec. Qed.

Lemma plain_names_wf fs : plain_names fs → wf_names fs.
Proof. intros H k e Hk. apply plain_path_wf. by apply (H k e). Qed.

Lemma plain_path_snoc p n : plain_path (p ++ [n]) ↔ plain_path p ∧ plain_name n = true.
Proof. unfold plain_path. rewrite Forall_app, Forall_singleton. tauto. Qed.

Lemma plain_names_lookup fs k e : plain_names fs → fs !! k = Some e → plain_path k.
Proof. intros Hfs Hk. by apply (map_Forall_lookup_1 _ _ _ _ Hfs Hk). Qed.

(** Resolution of a printable path string from a plain directory is a
    plain path. *)
Lemma resolve_plain cwd s :
  plain_path cwd → Str.printable s = true → plain_path (resolve cwd s).
Proof.
  intros [Hw Hp]%plain_path_spec Hs. apply plain_path_spec.
  split; [by apply resolve_wf|]. apply Forall_forall. intros x Hx.
  apply resolve_sub in Hx as [Hx|Hx].
  - by eapply (proj1 (Forall_forall _ _) Hp).
  - by eapply (proj1 (Forall_forall _ _) (printable_split s Hs)).
Qed.

Lemma printable_join a b :
  Str.printable a = true → Str.printable b = true →
  Str.printable (join a b) = true.
Proof.
  intros Ha Hb. unfold join. destruct (Str.startswith b "/"); [done|].
  destruct (_ || _); rewrite !printable_app, Ha, Hb; done.
Qed.

Lemma printable_destination home :
  plain_home home → Str.printable (destination_dir home) = true.
Proof.
  intros Hh. destruct (destination_dir_shape home) as (pfx & -> & ->).
  rewrite printable_app. destruct home as [h|]; [|done].
  destruct Hh as [Hh _]. by rewrite printable_rstrip.
Qed.





End PlainFacts.

(* ===================================================================== *)
(** * The claims about the whole run *)
(* ===================================================================== *)

Section Claims.

Variable cwd : path.
Variable home : option string.

Local Abbreviation D := (destination_dir home).
Local Abbreviation pD := (resolve cwd (destination_dir home)).
Local Abbreviation pS := (resolve cwd source_dir).
Local Abbreviation main := (main cwd home).

(** C8: every member of the extension set begins with a dot and is in
    lower case, and the four configuration values are constants: the
    source directory, the keyword and the extension set are literals,
    the destination directory is the home directory followed by
    [/Desktop/Filtered_Files], and all through a run the directory made
    and the destination of every move are that one value, every move
    being decided by the same predicate. *)
Theorem C8_configuration :
  set_Forall (λ ext, Str.startswith ext "." = true ∧ Str.lower ext = ext)
             file_extensions
  ∧ source_dir = "path/to/your/subdirectory"
  ∧ search_keyword = "play"
  ∧ file_extensions = {[ ".mp4"; ".avi"; ".mov"; ".mkv"; ".flv"; ".wmv" ]}
  ∧ (∀ h, destination_dir (Some h) = Str.rstrip_slash h +:+ "/Desktop/Filtered_Files")
  ∧ (∀ fs, Forall (λ e, match e with
                        | EvMakedirs name _ => name = D
                        | EvMove _ s d _ =>
                            ∃ root file, matches file = true ∧
                                         s = join root file ∧ d = join D file
                        | _ => True
                        end) (trace_of (main fs))).
Proof.
  split_and!; [|done|done|done|..].
  - intros ext Hext. unfold file_extensions in Hext.
    rewrite !elem_of_union, !elem_of_singleton in Hext.
    destruct_or!; subst ext; by vm_compute.
  - intros h. by destruct (destination_dir_shape (Some h)) as (pfx & -> & ->).
  - intros fs. destruct (main_run cwd home fs) as (fs1 & o1 & _ & Hmain).
    destruct o1 as [[]|e|]; [|rewrite Hmain; by repeat constructor..].
    destruct Hmain as (fs2 & t2 & o2 & Ht & ->). unfold trace_of. simpl.
    constructor; [done|]. apply Forall_app. split.
    + eapply Forall_impl; [by eapply transfer_events|].
      by intros [| | |].
    + destruct o2; by repeat constructor.
Qed.

(** C3: the destination directory exists before any move is attempted.
    The trace of every run starts with the making of the destination
    directory, which, when it goes through, leaves the directory and its
    parent in place; when it fails nothing follows; and every move that
    follows is issued in a filesystem in which the destination is a
    directory. *)
Theorem C3_destination_exists_before_moves fs :
  ∃ res rest,
    trace_of (main fs) = EvMakedirs D res :: rest ∧
    res = outcome_of (makedirs cwd D fs) ∧
    (res = Done tt →
       isdir (final_fs (makedirs cwd D fs)) pD = true ∧
       (pD ≠ [] → exists_ (final_fs (makedirs cwd D fs)) (parent pD) = true)) ∧
    (res ≠ Done tt → rest = []) ∧
    Forall (after_makedirs pD) rest.
Proof.
  destruct (main_run cwd home fs) as (fs1 & o1 & Hm & Hmain).
  destruct (makedirs_run cwd D fs) as (fs1' & o1' & Hm' & _ & _ & Hd).
  rewrite Hm in Hm'. injection Hm' as <- <-. rewrite Hm.
  unfold outcome_of at 1, final_fs. simpl.
  destruct o1 as [[]|e|]; [|rewrite Hmain; by eexists _, []..].
  destruct Hmain as (fs2 & t2 & o2 & Ht & ->). destruct (Hd eq_refl) as [Hdir Hpar].
  eexists _, _. split; [done|]. split; [done|]. split; [done|]. split; [done|].
  apply Forall_app. split.
  - destruct (transfer_dirs _ _ _ _ _ _ Ht) as [_ Hsee].
    pose proof (transfer_events _ _ _ _ _ _ Ht) as Hev.
    unfold moves_see_dirs in Hsee. rewrite Forall_forall in Hsee, Hev.
    apply Forall_forall. intros [| |pre s d r|] Hin; simpl; try done.
    + by apply Hev in Hin.
    + apply Hsee in Hin. by rewrite (dirs_agree_isdir fs1).
  - destruct o2; by repeat constructor.
Qed.

(** C7: making the destination directory is idempotent.  A second run
    right after one that went through raises nothing and leaves the
    filesystem as the first left it; and when the directory (with its
    parent) is there already, the step raises nothing and changes
    nothing.  The filesystem being a map, the path holds one
    directory. *)
Theorem C7_makedirs_idempotent fs :
  (outcome_of (makedirs cwd D fs) = Done tt →
   makedirs cwd D (final_fs (makedirs cwd D fs))
     = (final_fs (makedirs cwd D fs), [], Done tt)
   ∧ isdir (final_fs (makedirs cwd D fs)) pD = true)
  ∧ (isdir fs pD = true →
     (pD ≠ [] → exists_ fs (parent pD) = true) →
     makedirs cwd D fs = (fs, [], Done tt)).
Proof.
  split; [|apply makedirs_noop].
  destruct (makedirs_run cwd D fs) as (fs1 & o & Hm & _ & _ & Hd).
  rewrite Hm. unfold final_fs, outcome_of. simpl. intros ->.
  destruct (Hd eq_refl) as [Hdir Hpar]. split; [|done]. by apply makedirs_noop.
Qed.

Lemma scandir_raised p fs e :
  outcome_of (scandir p fs) = Raised e → scandir p fs = (fs, [], Raised e).
Proof.
  unfold scandir, outcome_of.
  destruct (fs !! p) as [[data|[|] w]|]; simpl; by intros [= ->].
Qed.

Lemma os_walk_unlistable depth top body fs e :
  outcome_of (scandir (resolve cwd top) fs) = Raised e →
  os_walk cwd (S depth) top body fs = (fs, [EvScandir top (Raised e)], Done tt).
Proof.
  intros Hscan%scandir_raised. cbn [os_walk].
  destruct (listing_run cwd top fs) as [(x & Hx & _)|(e' & He' & Hl)]; [congruence|].
  rewrite Hscan in He'. injection He' as <-.
  by rewrite (bind_seq _ _ _ _ _ _ _ _ _ Hl eq_refl).
Qed.


Lemma clean_split c y t0 x t1 :
  clean c →
  ¬ match x with EvMove _ _ _ r => r = Done tt | _ => True end →
  c ++ [y] = t0 ++ x :: t1 →
  t1 = [] ∧ t0 = c ∧ x = y.
Proof.
  intros Hc Hx He. destruct t1 as [|z t1] using rev_ind.
  - apply app_inj_tail in He as [-> ->]. done.
  - clear IHt1. exfalso.
    change (t0 ++ x :: t1 ++ [z]) with (t0 ++ (x :: t1) ++ [z]) in He.
    rewrite (assoc_L (++)) in He. apply app_inj_tail in He as [-> _].
    apply Forall_app in Hc as [_ Hc]. apply Forall_cons in Hc as [Hc _]. done.
Qed.

Lemma clean_no_failure t t0 pre s d e t1 :
  clean t → t ≠ t0 ++ EvMove pre s d (Raised e) :: t1.
Proof.
  intros Hc ->. apply Forall_app in Hc as [_ Hc]. by apply Forall_cons in Hc as [Hc _].
Qed.

(** C4, as the code has it: for a file with a matching name, under
    whatever directory, the destination path of its move is the
    destination directory, a slash, and the bare name, which resolves to
    that name directly inside the destination directory; the directory
    of the source plays no part.  When the move goes through, the file
    is directly inside the destination directory under its name, unless
    the destination directory already holds a directory of that name:
    [shutil.move] then puts the file inside that directory. *)
Theorem C4_flattening root file fs :
  proper_name file = true →
  matches file = true →
  join D file = D +:+ "/" +:+ file
  ∧ resolve cwd (join D file) = pD ++ [file]
  ∧ (∃ rest,
       trace_of (visit cwd home root file fs) =
       EvMove fs (join root file) (join D file)
              (outcome_of (visit cwd home root file fs)) :: rest)
  ∧ (outcome_of (visit cwd home root file fs) = Done tt →
     ∃ data,
       fs !! (resolve cwd root ++ [file]) = Some (File data) ∧
       final_fs (visit cwd home root file fs)
         !! (if isdir fs (pD ++ [file]) then pD ++ [file; file] else pD ++ [file])
       = Some (File data)).
Proof.
  intros Hp Hmt.
  pose proof (resolve_join cwd D file Hp) as Hres.
  split; [by apply join_destination, name_no_leading_slash|]. split; [done|].
  destruct (visit_run cwd home root file fs)
    as [[Hm' _]|(_ & fs' & o & rd & Hrd & Hr & ->)]; [congruence|].
  unfold trace_of, outcome_of, final_fs. simpl. split; [by eexists|].
  intros ->. rewrite (resolve_join cwd root file Hp), Hres in *.
  inversion Hr as [data Hs Hd| | |]; subst. exists data. split; [done|].
  destruct Hrd as [->|[Hdir ->]].
  - rewrite Hd. by rewrite lookup_insert_eq.
  - rewrite Hdir. rewrite basename_rstrip_join by done.
    rewrite resolve_join, Hres, <-(assoc_L (++)) by done.
    by rewrite lookup_insert_eq.
Qed.

End Claims.

(* ===================================================================== *)
(** * The claims on the example filesystems *)
(* ===================================================================== *)

Section OnExamples.

Lemma touched_by_moves cwd t k :
  touched_by cwd t k →
  Exists (λ m, k = resolve cwd m.1.1 ∨ k = resolve cwd m.1.2 ∨
               k = resolve cwd (join m.1.2 (basename (Str.rstrip_slash m.1.1))))
         (moves t).
Proof.
  intros (pre & s & d & r & Hin & Hk). apply Exists_exists. exists (s, d, r).
  split; [|done]. unfold moves. apply list_elem_of_omap.
  by exists (EvMove pre s d r).
Qed.

Lemma wf_cwd0 : wf_path cwd0.
Proof. by repeat constructor. Qed.


Lemma apart0 : apart (resolve cwd0 source_dir) (resolve cwd0 (destination_dir home0)).
Proof. split; intros [x Hx]; vm_compute in Hx; discriminate Hx. Qed.

Lemma plain_cwd0 : plain_path cwd0.
Proof. by repeat constructor. Qed.

Lemma plain_home0 : plain_home home0.
Proof. by split. Qed.

Lemma plain_names_decide (fs : filesystem) :
  bool_decide (plain_names fs) = true → plain_names fs.
Proof. apply bool_decide_eq_true_1. Qed.

(** C6 on two spellings of one name. *)
Lemma C6_witness : matches "Replay.MKV" = matches "replay.mkv".
Proof.
  destruct C6_case_insensitive as (_ & _ & _ & _ & Hcase).
  apply Hcase; vm_compute; reflexivity.
Defined.

(** Against C2 as stated: a path that is not found and a permission that
    is denied, met while listing, end no run.  Without a source directory
    the run makes the destination directory, fails to list, prints the
    last line and is done; with a directory that cannot be read in the
    source tree the run is done as well, the files it reached moved. *)
Lemma C2_counterexample :
  trace_of (main cwd0 home0 fs_nosrc) =
    [EvMakedirs "/home/u/Desktop/Filtered_Files" (Done tt);
     EvScandir "path/to/your/subdirectory" (Raised FileNotFoundError);
     EvPrint "Transfer complete."]
  ∧ outcome_of (main cwd0 home0 fs_nosrc) = Done tt
  ∧ listing_failures (trace_of (main cwd0 home0 fs_demo)) =
      [("path/to/your/subdirectory/locked", PermissionError)]
  ∧ outcome_of (main cwd0 home0 fs_demo) = Done tt
  ∧ stdout (trace_of (main cwd0 home0 fs_demo)) =
      ["Moved: path/to/your/subdirectory/z/deep/Replay.MKV -> /home/u/Desktop/Filtered_Files/Replay.MKV";
       "Moved: path/to/your/subdirectory/a/clip_play.mp4 -> /home/u/Desktop/Filtered_Files/clip_play.mp4";
       "Transfer complete."].
Proof. split_and!; by vm_compute. Qed.

(** Against C4 as stated: the destination directory holds a directory
    named [play.mp4]; the matching file [a/play.mp4] is moved, without
    error, into that directory, not directly into the destination
    directory. *)
Lemma C4_counterexample :
  fs_samename !! (src0 ++ ["a"; "play.mp4"]) = Some (File "movie")
  ∧ matches "play.mp4" = true
  ∧ outcome_of (main cwd0 home0 fs_samename) = Done tt
  ∧ moves (trace_of (main cwd0 home0 fs_samename)) =
      [("path/to/your/subdirectory/a/play.mp4",
        "/home/u/Desktop/Filtered_Files/play.mp4", Done tt)]
  ∧ final_fs (main cwd0 home0 fs_samename) !! (dst0 ++ ["play.mp4"])
      = Some (Dir true true)
  ∧ final_fs (main cwd0 home0 fs_samename) !! (dst0 ++ ["play.mp4"; "play.mp4"])
      = Some (File "movie")
  ∧ isfile (final_fs (main cwd0 home0 fs_samename)) (dst0 ++ ["play.mp4"]) = false.
Proof. split_and!; by vm_compute. Qed.

(** C4 on a file one level down: the destination path, and where the
    file is after the move. *)
Lemma C4_witness :
  proper_name "clip_play.mp4" = true
  ∧ matches "clip_play.mp4" = true
  ∧ join (destination_dir home0) "clip_play.mp4"
    = "/home/u/Desktop/Filtered_Files/clip_play.mp4"
  ∧ resolve cwd0 (join (destination_dir home0) "clip_play.mp4")
    = dst0 ++ ["clip_play.mp4"].
Proof.
  destruct (C4_flattening cwd0 home0 "path/to/your/subdirectory/a" "clip_play.mp4"
              fs_demo eq_refl eq_refl) as (Hjoin & Hres & _).
  split_and!; [done|done| |].
  - rewrite Hjoin. by vm_compute.
  - rewrite Hres. by vm_compute.
Defined.

(** C7 on the scenario of the specification: the second making of the
    destination directory changes nothing. *)
Lemma C7_witness :
  makedirs cwd0 (destination_dir home0)
           (final_fs (makedirs cwd0 (destination_dir home0) fs_demo))
  = (final_fs (makedirs cwd0 (destination_dir home0) fs_demo), [], Done tt)
  ∧ makedirs cwd0 (destination_dir home0) fs_samename = (fs_samename, [], Done tt).
Proof.
  destruct (C7_makedirs_idempotent cwd0 home0 fs_demo) as [Htwice _].
  destruct (C7_makedirs_idempotent cwd0 home0 fs_samename) as [_ Hthere].
  split.
  - apply Htwice. vm_compute. reflexivity.
  - apply Hthere; [vm_compute; reflexivity|intros _; vm_compute; reflexivity].
Defined.

End OnExamples.

(* ===================================================================== *)
(** * Further properties of the script *)
(* ===================================================================== *)

Section Further.

Variable cwd : path.
Variable home : option string.

Local Abbreviation D := (destination_dir home).
Local Abbreviation pD := (resolve cwd (destination_dir home)).
Local Abbreviation pS := (resolve cwd source_dir).
Local Abbreviation main := (main cwd home).

(** X1: the script never moves, removes or changes a directory.  Every
    directory of the filesystem the run starts in is there at the end,
    with its permissions, whatever its name and however the run ends;
    and, with a plain home directory (no [..] in it), a directory there
    at the end was there at the start, or is a new directory on the path
    of the destination directory. *)
Theorem X1_directories_stay fs k r w :
  (fs !! k = Some (Dir r w) → final_fs (main fs) !! k = Some (Dir r w))
  ∧ (plain_home home →
     final_fs (main fs) !! k = Some (Dir r w) →
     fs !! k = Some (Dir r w)
     ∨ (fs !! k = None ∧ k `prefix_of` pD ∧ r = true ∧ w = true)).
Proof.
  destruct (main_run cwd home fs) as (fs1 & o1 & Hm & Hmain).
  destruct (makedirs_run cwd D fs) as (fs1' & o1' & Hm' & Ha & _).
  rewrite Hm in Hm'. injection Hm' as <- <-.
  assert (∃ fs2, final_fs (main fs) = fs2 ∧ dirs_agree fs1 fs2) as (fs2 & -> & Hd).
  { destruct o1 as [[]|e|]; [|rewrite Hmain; eexists; split; [done|apply dirs_agree_refl]..].
    destruct Hmain as (fs2 & t2 & o2 & Ht & ->). exists fs2. split; [done|].
    by apply transfer_dirs in Ht as [? _]. }
  split.
  - intros Hk. apply Hd. by eapply adds_dirs_keeps.
  - intros _ Hk%Hd. destruct (Ha k) as [He|(Hn & He & Hp)]; [left; congruence|right].
    rewrite He in Hk. by simplify_eq.
Qed.

(** X2: the script changes the filesystem in three ways only.  On
    plain names, with a plain home directory: a path
    whose content differs after the run held a file with a matching name
    strictly below the source directory, now gone; or holds a file where
    a move into the destination directory lands; or is a new directory
    on the path of the destination directory.  Everything else is as it
    was, however the run ends. *)
Theorem X2_confinement fs :
  plain_path cwd →
  plain_home home →
  plain_names fs →
  ∀ k, final_fs (main fs) !! k ≠ fs !! k →
       (final_fs (main fs) !! k = None ∧ matching_below pS k ∧ isfile fs k = true)
       ∨ (isfile (final_fs (main fs)) k = true ∧ landing pD k)
       ∨ (fs !! k = None ∧ final_fs (main fs) !! k = Some (Dir true true) ∧
          k `prefix_of` pD).
Proof.
  intros Hcwd%plain_path_wf _ Hfs%plain_names_wf k.
  destruct (main_run cwd home fs) as (fs1 & o1 & Hm & Hmain).
  destruct (makedirs_run cwd D fs) as (fs1' & o1' & Hm' & Ha & _).
  rewrite Hm in Hm'. injection Hm' as <- <-.
  assert (wf_names fs1) as Hfs1.
  { eapply adds_dirs_wf; [done| |done]. by apply resolve_wf. }
  assert (∃ fs2, final_fs (main fs) = fs2 ∧
                 footprint (matching_below pS) pD fs1 fs2) as (fs2 & -> & Hd & Hf).
  { destruct o1 as [[]|e|]; [|rewrite Hmain; eexists; split; [done|apply footprint_refl]..].
    destruct Hmain as (fs2 & t2 & o2 & Ht & ->). exists fs2. split; [done|].
    by destruct (transfer_step cwd home Hcwd _ _ _ _ Hfs1 Ht) as (_ & ? & _). }
  intros Hk. destruct (decide (fs2 !! k = fs1 !! k)) as [He|Hne].
  - right; right. destruct (Ha k) as [?|(Hn & Hnew & Hp)]; [congruence|].
    split_and!; [done|congruence|done].
  - destruct (Hf k Hne) as [[Hn Hb]|[Hfile Hl]]; [left|by right; left].
    split_and!; [done..|]. unfold isfile.
    destruct (Ha k) as [He|(_ & Hnew & _)].
    + rewrite <-He. destruct (fs1 !! k) as [[data|r w]|] eqn:E1; [done| |congruence].
      apply Hd in E1. congruence.
    + apply Hd in Hnew. congruence.
Qed.

Lemma mkdir_exist_ok_file p fs data :
  fs !! p = Some (File data) →
  mkdir_exist_ok p fs = (fs, [], Raised FileExistsError).
Proof.
  intros Hp. unfold mkdir_exist_ok, catch, os_mkdir, bind, get, isdir. rewrite Hp.
  simpl. by rewrite Hp.
Qed.

(** X5: [exist_ok] forgives a directory, not a file.  When the path of
    the destination directory holds a regular file (its parent being
    there), the making of the directory raises [FileExistsError]: the run
    ends at once with that exception, the filesystem as it was, nothing
    listed, nothing moved, nothing printed. *)
Theorem X5_destination_is_a_file fs :
  isfile fs pD = true →
  (pD ≠ [] → exists_ fs (parent pD) = true) →
  main fs = (fs, [EvMakedirs D (Raised FileExistsError)], Raised FileExistsError).
Proof.
  intros Hf Hp. unfold isfile in Hf.
  destruct (fs !! pD) as [[data|]|] eqn:HpD; try done.
  assert (makedirs cwd D fs = (fs, [], Raised FileExistsError)) as Hm.
  { unfold makedirs. rewrite makedirs_rev_unfold.
    pose proof (mkdir_exist_ok_file (rev (rev pD)) fs data) as Hmk.
    rewrite rev_involutive in Hmk. specialize (Hmk HpD).
    destruct (rev pD) as [|x rh] eqn:Er.
    - rewrite (bind_done _ _ fs fs ()) by done.
      by rewrite <-Er, rev_involutive.
    - destruct (decide (pD = [])) as [Hn|Hn]; [by rewrite Hn in Er|].
      destruct (rev_parent _ Hn) as (x' & rh' & Er' & Hpar).
      rewrite Er in Er'. simplify_eq.
      rewrite (bind_done _ _ fs fs ()).
      + by rewrite <-Er, rev_involutive.
      + rewrite (bind_done _ _ fs fs fs) by done. by rewrite Hpar, (Hp Hn). }
  destruct (main_run cwd home fs) as (fs1 & o1 & Hm' & Hmain).
  rewrite Hm in Hm'. by injection Hm' as <- <-.
Qed.

(** X11: a parent that cannot be written to stops the run before the
    loops.  When the destination directory is missing and its parent is
    a directory without write permission, the making of the directory
    raises [PermissionError]: the run ends at once with that exception,
    the filesystem as it was, nothing listed, nothing moved, nothing
    printed. *)
Theorem X11_destination_parent_readonly fs r :
  fs !! pD = None →
  fs !! parent pD = Some (Dir r false) →
  main fs = (fs, [EvMakedirs D (Raised PermissionError)], Raised PermissionError).
Proof.
  intros HpD Hpar.
  assert (pD ≠ []) as Hn.
  { intros He. rewrite He in HpD, Hpar. unfold parent in Hpar. simpl in Hpar.
    congruence. }
  assert (mkdir_exist_ok pD fs = (fs, [], Raised PermissionError)) as Hmk.
  { unfold mkdir_exist_ok, catch, os_mkdir, bind, check_parent_writable.
    rewrite HpD, Hpar. simpl. unfold bind, get, isdir. by rewrite HpD. }
  assert (makedirs cwd D fs = (fs, [], Raised PermissionError)) as Hm.
  { unfold makedirs. rewrite makedirs_rev_unfold.
    destruct (rev_parent _ Hn) as (x & rh & Er & Hrh). rewrite Er.
    rewrite (bind_done _ _ fs fs ()).
    - by rewrite <-Er, rev_involutive.
    - rewrite (bind_done _ _ fs fs fs) by done.
      unfold exists_. by rewrite Hrh, Hpar. }
  destruct (main_run cwd home fs) as (fs1 & o1 & Hm' & Hmain).
  rewrite Hm in Hm'. by injection Hm' as <- <-.
Qed.

Lemma parent_snoc (p : path) n : parent (p ++ [n]) = p.
Proof. apply removelast_last. Qed.


Lemma os_rename_readonly s d fs data r :
  fs !! s = Some (File data) →
  fs !! parent s = Some (Dir r false) →
  os_rename s d fs = (fs, [], Raised PermissionError).
Proof.
  intros Hs Hps. unfold os_rename, bind, check_parent_writable.
  by rewrite Hs, Hps.
Qed.

Lemma copyfile_writable s d fs data r' :
  s ≠ d →
  fs !! s = Some (File data) →
  isdir fs d = false →
  fs !! parent d = Some (Dir r' true) →
  copyfile s d fs = (<[d := File data]> fs, [], Done tt).
Proof.
  intros Hne Hs Hd Hpd. unfold copyfile, isdir in *. rewrite decide_False by done.
  rewrite Hs. destruct (fs !! d) as [[old|]|]; [done|done|].
  unfold bind, check_parent_writable. by rewrite Hpd.
Qed.

Lemma os_unlink_readonly p fs data r :
  fs !! p = Some (File data) →
  fs !! parent p = Some (Dir r false) →
  os_unlink p fs = (fs, [], Raised PermissionError).
Proof.
  intros Hp Hpp. unfold os_unlink, bind, check_parent_writable.
  by rewrite Hp, Hpp.
Qed.

Lemma shutil_move_plain src dst fs :
  isdir fs (resolve cwd dst) = false →
  shutil_move cwd src dst fs = rename_or_copy cwd src dst fs.
Proof.
  intros Hd. unfold shutil_move. rewrite (bind_done _ _ fs fs fs) by done.
  by rewrite Hd.
Qed.


(** X9: a directory that can be read but not written to leaves a
    duplicate behind.  For a matching file in such a directory the
    rename fails, [shutil.move] falls back on copying, the copy is made
    in the (writable) destination directory, and the removal of the
    original fails: the iteration ends with [PermissionError], the file
    both where it was and in the destination directory, and no line is
    printed. *)
Theorem X9_readonly_source_duplicates root file fs data r r' :
  proper_name file = true →
  matches file = true →
  fs !! (resolve cwd root ++ [file]) = Some (File data) →
  fs !! resolve cwd root = Some (Dir r false) →
  fs !! pD = Some (Dir r' true) →
  isdir fs (pD ++ [file]) = false →
  visit cwd home root file fs =
    (<[pD ++ [file] := File data]> fs,
     [EvMove fs (join root file) (join D file) (Raised PermissionError)],
     Raised PermissionError).
Proof.
  intros Hp Hm Hs Hroot HD Hnd. unfold visit. rewrite Hm.
  assert (resolve cwd root ++ [file] ≠ pD ++ [file]) as Hne.
  { intros He%(inj (λ l, l ++ [file])). congruence. }
  assert (resolve cwd root ≠ pD ++ [file]) as Hne'.
  { intros He. unfold isdir in Hnd. by rewrite <-He, Hroot in Hnd. }
  assert (shutil_move cwd (join root file) (join D file) fs =
            (<[pD ++ [file] := File data]> fs, [], Raised PermissionError)) as Hmove.
  { rewrite shutil_move_plain by (by rewrite resolve_join).
    unfold rename_or_copy, catch. rewrite !resolve_join by done.
    rewrite (os_rename_readonly _ _ _ data r) by (by rewrite ?parent_snoc).
    unfold bind.
    rewrite (copyfile_writable _ _ _ data r') by (by rewrite ?parent_snoc).
    rewrite (os_unlink_readonly _ _ data r); [done|..].
    - by rewrite lookup_insert_ne.
    - rewrite parent_snoc. by rewrite lookup_insert_ne. }
  unfold bind, move_file, observed. by rewrite Hmove.
Qed.


Lemma rstrip_slash_cons c s :
  Str.rstrip_slash (String c s) =
  if Ascii.eqb c "/"%char && String.eqb (Str.rstrip_slash s) ""
  then "" else String c (Str.rstrip_slash s).
Proof. reflexivity. Qed.

(** Stripping the slashes at the end only drops empty pieces at the
    end. *)
Lemma split_rstrip_slash s :
  ∃ k, Str.split_slash s = Str.split_slash (Str.rstrip_slash s) ++ replicate k "".
Proof.
  induction s as [|c s [k IH]]; [by exists 0|].
  rewrite rstrip_slash_cons, (split_slash_cons c s).
  destruct (Ascii.eqb c "/"%char) eqn:Hc.
  - rewrite andb_true_l.
    destruct (String.eqb_spec (Str.rstrip_slash s) "") as [He|Hne].
    + exists (S k). by rewrite IH, He.
    + exists k. by rewrite split_slash_cons, Hc, IH.
  - rewrite andb_false_l. exists k. rewrite split_slash_cons, Hc, IH.
    pose proof (split_slash_nonempty (Str.rstrip_slash s)).
    by destruct (Str.split_slash (Str.rstrip_slash s)).
Qed.

Lemma fold_walk_empties k acc :
  fold_left walk_component (replicate k "") acc = acc.
Proof. induction k as [|k IH]; [done|]. exact IH. Qed.

Lemma rstrip_slash_absolute h :
  Str.startswith h "/" = true →
  Str.startswith (Str.rstrip_slash h +:+ "/Desktop/Filtered_Files") "/" = true.
Proof.
  destruct h as [|c h]; [done|]. rewrite rstrip_slash_cons, startswith_cons.
  destruct (Ascii.eqb_spec "/"%char c) as [<-|]; [|done]. intros _.
  by destruct (_ && _).
Qed.

(** X6: where the destination directory is.  With a home directory
    given by an absolute path, the destination directory resolves to
    [Desktop/Filtered_Files] inside the home directory, whatever slashes
    the home path ends with and whatever the working directory of the
    process; with no home directory known, [expanduser] leaves the tilde
    in place and the destination is [~/Desktop/Filtered_Files] below the
    working directory. *)
Theorem X6_destination_resolution h :
  Str.startswith h "/" = true →
  resolve cwd (destination_dir (Some h)) = resolve cwd h ++ ["Desktop"; "Filtered_Files"]
  ∧ (∀ cwd', resolve cwd' (destination_dir (Some h))
             = resolve cwd (destination_dir (Some h)))
  ∧ resolve cwd (destination_dir None) = cwd ++ ["~"; "Desktop"; "Filtered_Files"].
Proof.
  intros Hh.
  assert (∀ c, resolve c (destination_dir (Some h))
               = fold_left walk_component (Str.split_slash h) []
                 ++ ["Desktop"; "Filtered_Files"]) as Hres.
  { intros c. destruct (destination_dir_shape (Some h)) as (pfx & -> & ->).
    rewrite resolve_unfold. unfold base. rewrite (rstrip_slash_absolute h Hh).
    change "/Desktop/Filtered_Files" with (String "/"%char "Desktop/Filtered_Files").
    rewrite split_slash_app, fold_left_app.
    destruct (split_rstrip_slash h) as [k Hk].
    rewrite Hk, fold_left_app, fold_walk_empties. simpl.
    rewrite !walk_component_name by done. by rewrite <-(assoc_L (++)). }
  split_and!.
  - rewrite Hres, resolve_unfold. unfold base. by rewrite Hh.
  - intros c. by rewrite !Hres.
  - unfold destination_dir. simpl. rewrite resolve_unfold. simpl.
    rewrite !walk_component_name by done. by rewrite <-!(assoc_L (++)).
Qed.

End Further.

(* ===================================================================== *)
(** * Further properties of the traversal *)
(* ===================================================================== *)

Section FurtherWalk.

Variable cwd : path.
Variable home : option string.
Hypothesis cwd_wf : wf_path cwd.

Local Abbreviation D := (destination_dir home).
Local Abbreviation pD := (resolve cwd (destination_dir home)).
Local Abbreviation pS := (resolve cwd source_dir).
Local Abbreviation main := (main cwd home).
Local Abbreviation body := (λ (root : string) (_ files : list string),
                              for_ files (Script.visit cwd home root)).





Lemma apart_below_source (fs fs1 : filesystem) :
  apart pS pD → adds_dirs pD fs fs1 →
  ∀ k, pS `prefix_of` k → fs1 !! k = fs !! k.
Proof.
  intros [Hsd _] Ha k Hk. eapply adds_dirs_off; [done|]. intros Hp.
  apply Hsd. by etrans.
Qed.




(** What the walk from a directory removes, the walk found there. *)
Lemma walk_removes_visible h depth top fs fs' t o :
  wf_names fs →
  dirs_within h fs →
  1 ≤ depth →
  h < length (resolve cwd top) + depth →
  no_landing_below pD (resolve cwd top) →
  os_walk cwd depth top body fs = (fs', t, o) →
  ∀ k, fs !! k ≠ None → fs' !! k = None → visible fs (resolve cwd top) k.
Proof.
  revert top fs fs' t o.
  induction depth as [|d IH]; intros top fs fs' t o Hfs Hh Hd Hfuel Hclear; [lia|].
  cbn [os_walk]. unfold bind at 1.
  destruct (listing_run cwd top fs) as [([dirs files] & Hscan & ->)|(e & _ & ->)].
  2:{ by intros [= <- <- <-] k Hk Hk'. }
  apply scandir_done in Hscan as (_ & _ & [w Hp] & Hdirs & Hfiles & Hndd & Hndf).
  destruct (bind _ _ fs) as [[fs2 t2] o2] eqn:Eb. intros [= <- <- <-].
  (* the files of this directory *)
  assert (∀ fs1 t1 o1, for_ files (visit cwd home top) fs = (fs1, t1, o1) →
            wf_names fs1 ∧ dirs_agree fs fs1 ∧
            (∀ k, fs1 !! k ≠ fs !! k →
                  fs1 !! k ≠ None ∨ visible fs (resolve cwd top) k) ∧
            (∀ k, resolve cwd top `prefix_of` k → k ≠ resolve cwd top →
                  length (resolve cwd top) + 1 < length k →
                  fs1 !! k = fs !! k)) as Hfilesloop.
  { intros fs1 t1 o1 Hrun.
    assert (∀ n, n ∈ files → isfile fs (resolve cwd top ++ [n]) = true) as Hf.
    { intros n [data Hn]%Hfiles. unfold isfile. by rewrite Hn. }
    destruct (files_step cwd home cwd_wf _ _ _ _ _ _ Hfs Hndf Hf Hrun)
      as (_ & [Hda Hfp] & Hfs1 & _).
    split_and!; [done|done|..].
    - intros k Hch. destruct (Hfp k Hch) as [[_ (n & Hn & _ & ->)]|[Hfile _]].
      + right. apply Hfiles in Hn as [data Hn]. by eapply visible_here.
      + left. unfold isfile in Hfile. by destruct (fs1 !! k).
    - intros k Hpre Hne Hlen.
      destruct (decide (fs1 !! k = fs !! k)) as [|Hch]; [done|].
      destruct (Hfp k Hch) as [[_ (n & _ & _ & ->)]|[_ Hl]].
      + rewrite length_app in Hlen. simpl in Hlen. lia.
      + by destruct (Hclear _ Hl). }
  (* the directories of this directory *)
  assert (∀ ds fs1 fs3 t3 o3,
            (∀ n, n ∈ ds → n ∈ dirs) → NoDup ds →
            wf_names fs1 → dirs_within h fs1 → dirs_agree fs fs1 →
            for_ ds (λ dirname, os_walk cwd d (join top dirname) body) fs1
              = (fs3, t3, o3) →
            ∀ k, fs1 !! k ≠ None → fs3 !! k = None →
                 ∃ dn, dn ∈ ds ∧ visible fs1 (resolve cwd top ++ [dn]) k)
    as Hdirsloop.
  { induction ds as [|dn ds IHds]; intros fs1 fs3 t3 o3 Hsub Hnd Hfs1 Hh1 Hag.
    - by intros [= <- <- <-] k Hk Hk'.
    - cbn [for_].
      assert (dn ∈ dirs) as Hdn by (apply Hsub; by left).
      apply Hdirs in Hdn as (r' & w' & Hdn).
      assert (proper_name dn = true) as Hpn.
      { by apply (wf_names_lookup _ _ _ Hfs), wf_path_snoc in Hdn as [_ ?]. }
      pose proof (Hh _ _ _ Hdn) as Hlen. rewrite length_app in Hlen. simpl in Hlen.
      apply NoDup_cons in Hnd as [Hnotin Hnd].
      assert (no_landing_below pD (resolve cwd (join top dn))) as Hclear'.
      { rewrite resolve_join by done. by apply no_landing_below_snoc. }
      assert (h < length (resolve cwd (join top dn)) + d) as Hfuel'.
      { rewrite resolve_join, length_app by done. simpl. lia. }
      assert (∀ fs4 t4 o4,
                os_walk cwd d (join top dn) body fs1 = (fs4, t4, o4) →
                ∀ k, fs1 !! k ≠ None → fs4 !! k = None →
                     visible fs1 (resolve cwd top ++ [dn]) k) as Hchild.
      { intros fs4 t4 o4 Hrun k Hk Hk'. rewrite <-(resolve_join cwd top dn) by done.
        eapply IH; [done|done|lia|done|done|done|done|done]. }
      intros [(fs4 & t4 & t5 & Hv & Hrest & ->)|[Hv Ho]]%bind_inv k Hk Hk'.
      + destruct (fs4 !! k) as [e4|] eqn:Hk4.
        2:{ exists dn. split; [by left|]. by eapply Hchild. }
        assert (loop_post cwd home (matching_below (resolve cwd (join top dn)))
                  fs1 fs4 t4 (Done tt)) as Hp4.
        { eapply (walk_step cwd home cwd_wf h d); [done|done|lia|done|done]. }
        destruct Hp4 as (_ & Hfp4 & Hfs4 & _).
        destruct (IHds fs4 fs3 t5 o3) with (k := k) as (dn' & Hdn' & Hvis);
          [intros n Hn; apply Hsub; by right|done|done| | |done|by rewrite Hk4|done|].
        * eapply dirs_within_agree; [done|]. apply Hfp4.
        * eapply dirs_agree_trans; [done|]. apply Hfp4.
        * exists dn'. split; [by right|].
          eapply visible_agree; [done|]. intros k' Hk''.
          symmetry. eapply footprint_same; [done| |].
          -- intros (Hpre & _). rewrite resolve_join in Hpre by done.
             destruct (snoc_prefix_eq _ _ _ _ Hpre Hk''). congruence.
          -- intros Hl. apply (Hclear _ Hl). etrans; [|done]. by apply prefix_app_r.
      + exists dn. split; [by left|]. by eapply Hchild. }
  intros k Hk Hk'.
  revert Eb. intros [(fs1 & t1 & t3 & Hv & Hrest & ->)|[Hv Ho]]%bind_inv.
  - destruct (Hfilesloop _ _ _ Hv) as (Hfs1 & Hag & Hch & Hdeep).
    destruct (fs1 !! k) as [e1|] eqn:Hk1.
    2:{ destruct (Hch k) as [?|?]; [by rewrite Hk1|by rewrite Hk1 in *|done]. }
    destruct (Hdirsloop dirs fs1 fs2 t3 o2) with (k := k) as (dn & Hdn & Hvis);
      [done|done|done| |done|done|by rewrite Hk1|done|].
    { eapply dirs_within_agree; [done|done]. }
    apply Hdirs in Hdn as (r' & w' & Hdn).
    eapply visible_below; [done|done|].
    eapply visible_agree; [done|]. intros k' Hk''.
    destruct (decide (k' = resolve cwd top ++ [dn])) as [->|Hne].
    + rewrite Hdn. symmetry. by apply Hag.
    + symmetry. apply Hdeep.
      * etrans; [|done]. by apply prefix_app_r.
      * intros ->. apply prefix_length in Hk''. rewrite length_app in Hk''.
        simpl in Hk''. lia.
      * destruct Hk'' as [x ->]. destruct x as [|y x]; [by rewrite app_nil_r in Hne|].
        rewrite !length_app. simpl. lia.
  - destruct (Hfilesloop _ _ _ Hv) as (_ & _ & Hch & _).
    destruct (Hch k) as [?|?]; [congruence|done|done].
Qed.

(** X10: the script removes only files it finds, with a matching name.
    On a filesystem with plain names, with a plain home directory, the
    source tree and the
    destination directory lying apart, whatever the run ends with: a file
    that is gone after the run is a file the walk from the source
    directory finds (every directory on the way to it can be read) and
    its name matches.  Files behind a directory that cannot be read, and
    files outside of the source tree, stay. *)
Theorem X10_removes_only_found_matching fs k :
  plain_home home →
  plain_names fs →
  apart pS pD →
  isfile fs k = true →
  final_fs (main fs) !! k = None →
  visible fs pS k ∧ matches (name_of k) = true.
Proof.
  intros _ Hfs%plain_names_wf Hap Hfile Hgone.
  destruct (main_run cwd home fs) as (fs1 & o1 & Hm & Hmain).
  destruct (makedirs_run cwd D fs) as (fs1' & o1' & Hm' & Ha & _).
  rewrite Hm in Hm'. injection Hm' as <- <-.
  assert (∃ data, fs !! k = Some (File data)) as [data Hk].
  { unfold isfile in Hfile. destruct (fs !! k) as [[data|]|]; [|done..]. by exists data. }
  pose proof (adds_dirs_keeps _ _ _ _ _ Ha Hk) as Hk1.
  assert (wf_names fs1) as Hfs1.
  { eapply adds_dirs_wf; [done| |done]. by apply resolve_wf. }
  destruct o1 as [[]|e1|];
    [|rewrite Hmain in Hgone; unfold final_fs in Hgone; simpl in Hgone; congruence..].
  destruct Hmain as (fs2 & t2 & o2 & Ht & Hmain). rewrite Hmain in Hgone.
  unfold final_fs in Hgone. simpl in Hgone.
  destruct (transfer_step cwd home cwd_wf _ _ _ _ Hfs1 Ht) as (_ & [_ Hfp] & _).
  split.
  - eapply visible_agree; [|intros k' Hk'; symmetry; by eapply apart_below_source].
    rewrite transfer_unfold in Ht.
    eapply (walk_removes_visible (fs_height fs1)); [done| | | | |done| |done].
    + intros k' r w Hk'. by eapply fs_height_bound.
    + lia.
    + lia.
    + by apply apart_no_landing.
    + by rewrite Hk1.
  - destruct (Hfp k) as [[_ (_ & _ & Hmt)]|[Hf _]]; [congruence|done|].
    unfold isfile in Hf. by rewrite Hgone in Hf.
Qed.

End FurtherWalk.

(* ===================================================================== *)
(** * The further properties on the examples *)
(* ===================================================================== *)

Section FurtherOnExamples.

Local Abbreviation D0 := (destination_dir home0).
Local Abbreviation main0 := (main cwd0 home0).

Local Ltac run := first [ vm_compute; reflexivity
                        | let H := fresh in intros H; vm_compute in H; discriminate H ].

(** A file found by the walk from [p] is an entry of [p], or is found
    from a directory that is an entry of [p]. *)
Lemma visible_cases fs p k :
  visible fs p k →
  (∃ w, fs !! p = Some (Dir true w)) ∧
  ∃ n e, (n, e) ∈ listdir fs p ∧
         match e with
         | File _ => k = p ++ [n]
         | Dir _ _ => visible fs (p ++ [n]) k
         end.
Proof.
  intros Hv. inversion Hv as [p' n w data Hp Hn|p' n w r' w' k' Hp Hn Hb]; subst.
  - split; [by exists w|]. exists n, (File data). split; [|done]. by apply listdir_spec.
  - split; [by exists w|]. exists n, (Dir r' w'). split; [|done]. by apply listdir_spec.
Qed.

(** X1 on the scenario of the specification: the directory that cannot
    be read is there after the run, as it was, and the destination
    directory, there after the run, is new and on its own path. *)
Lemma X1_witness :
  final_fs (main0 fs_demo) !! (src0 ++ ["locked"]) = Some (Dir false true)
  ∧ (fs_demo !! dst0 = Some (Dir true true)
     ∨ (fs_demo !! dst0 = None ∧ dst0 `prefix_of` resolve cwd0 D0
        ∧ true = true ∧ true = true)).
Proof.
  split.
  - apply (proj1 (X1_directories_stay cwd0 home0 fs_demo (src0 ++ ["locked"])
                    false true)).
    run.
  - apply (proj2 (X1_directories_stay cwd0 home0 fs_demo dst0 true true)).
    + exact plain_home0.
    + run.
Defined.

(** X2 on the scenario of the specification, at a path the run
    changes. *)
Lemma X2_witness :
  (final_fs (main0 fs_demo) !! (src0 ++ ["a"; "clip_play.mp4"]) = None
   ∧ matching_below (resolve cwd0 source_dir) (src0 ++ ["a"; "clip_play.mp4"])
   ∧ isfile fs_demo (src0 ++ ["a"; "clip_play.mp4"]) = true)
  ∨ (isfile (final_fs (main0 fs_demo)) (src0 ++ ["a"; "clip_play.mp4"]) = true
     ∧ landing (resolve cwd0 D0) (src0 ++ ["a"; "clip_play.mp4"]))
  ∨ (fs_demo !! (src0 ++ ["a"; "clip_play.mp4"]) = None
     ∧ final_fs (main0 fs_demo) !! (src0 ++ ["a"; "clip_play.mp4"])
       = Some (Dir true true)
     ∧ (src0 ++ ["a"; "clip_play.mp4"]) `prefix_of` resolve cwd0 D0).
Proof.
  apply (X2_confinement cwd0 home0 fs_demo plain_cwd0 plain_home0).
  - apply plain_names_decide. run.
  - run.
Defined.



(** X5 where the path of the destination directory holds a file. *)
Lemma X5_witness :
  outcome_of (main0 fs_destfile) = Raised FileExistsError
  ∧ final_fs (main0 fs_destfile) !! (src0 ++ ["play.mp4"]) = Some (File "movie").
Proof.
  rewrite (X5_destination_is_a_file cwd0 home0 fs_destfile).
  - split; run.
  - run.
  - intros _. run.
Defined.

(** X6 for the home directory [/home/u]. *)
Lemma X6_witness :
  resolve cwd0 (destination_dir (Some "/home/u")) = dst0
  ∧ resolve ["elsewhere"] (destination_dir (Some "/home/u")) = dst0.
Proof.
  destruct (X6_destination_resolution cwd0 "/home/u") as (Hres & Hcwd & _); [run|].
  rewrite (Hcwd ["elsewhere"]), Hres. split; run.
Defined.



(** X9 where the file is in a directory that cannot be written to. *)
Lemma X9_witness :
  outcome_of (visit cwd0 home0 "path/to/your/subdirectory/ro" "play.mp4"
                    fs_readonly_source) = Raised PermissionError
  ∧ final_fs (visit cwd0 home0 "path/to/your/subdirectory/ro" "play.mp4"
                    fs_readonly_source) !! (dst0 ++ ["play.mp4"]) = Some (File "movie")
  ∧ final_fs (visit cwd0 home0 "path/to/your/subdirectory/ro" "play.mp4"
                    fs_readonly_source) !! (src0 ++ ["ro"; "play.mp4"])
    = Some (File "movie").
Proof.
  rewrite (X9_readonly_source_duplicates cwd0 home0 "path/to/your/subdirectory/ro"
             "play.mp4" fs_readonly_source "movie" true true);
    [split_and!; run|run..].
Defined.

(** X10 on the scenario of the specification, at a file the run
    removes. *)
Lemma X10_witness :
  visible fs_demo (resolve cwd0 source_dir) (src0 ++ ["a"; "clip_play.mp4"])
  ∧ matches (name_of (src0 ++ ["a"; "clip_play.mp4"])) = true.
Proof.
  apply (X10_removes_only_found_matching cwd0 home0 wf_cwd0 fs_demo).
  - exact plain_home0.
  - apply plain_names_decide. run.
  - exact apart0.
  - run.
  - run.
Defined.

(** X11 where the parent of the destination directory cannot be written
    to. *)
Lemma X11_witness :
  outcome_of (main0 fs_readonly_desktop) = Raised PermissionError
  ∧ final_fs (main0 fs_readonly_desktop) !! (src0 ++ ["play.mp4"])
    = Some (File "movie").
Proof.
  rewrite (X11_destination_parent_readonly cwd0 home0 fs_readonly_desktop true).
  - split; run.
  - run.
  - run.
Defined.

End FurtherOnExamples.

(* ===================================================================== *)
(** * Invariants of the walk *)
(* ===================================================================== *)

Section Invariant.

Variable cwd : path.
Variable home : option string.

Local Abbreviation body := (λ (root : string) (_ files : list string),
                              for_ files (Script.visit cwd home root)).

(** An invariant [I] of the filesystem, with the names [N] its entries
    have and the directories [R] the walk then reaches, gives every
    property [P] of runs that holds of the iterations on such names in
    such directories and is closed under sequencing. *)
Variable I : filesystem → Prop.
Variable N : string → Prop.
Variable R : string → Prop.
Variable P : filesystem → list event → outcome unit → filesystem → Prop.
Hypothesis I_names : ∀ fs p n e, I fs → fs !! (p ++ [n]) = Some e → N n.
Hypothesis R_join : ∀ top n, R top → N n → R (join top n).
Hypothesis P_nil : ∀ fs, P fs [] (Done tt) fs.
Hypothesis P_stuck : ∀ fs, P fs [] Stuck fs.
Hypothesis P_scan : ∀ fs top r, P fs [EvScandir top r] (Done tt) fs.
Hypothesis P_seq : ∀ fs t1 fs1 t2 o fs2,
  P fs t1 (Done tt) fs1 → P fs1 t2 o fs2 → P fs (t1 ++ t2) o fs2.
Hypothesis P_visit : ∀ fs root file fs' t o,
  I fs → R root → N file →
  visit cwd home root file fs = (fs', t, o) → I fs' ∧ P fs t o fs'.

Lemma invariant_for {A} (xs : list A) (f : A → M unit) fs fs' t o :
  (∀ x fs fs' t o, x ∈ xs → I fs → f x fs = (fs', t, o) → I fs' ∧ P fs t o fs') →
  I fs →
  for_ xs f fs = (fs', t, o) → I fs' ∧ P fs t o fs'.
Proof.
  revert fs fs' t o. induction xs as [|x xs IH]; intros fs fs' t o Hf Hfs.
  - by intros [= <- <- <-].
  - cbn [for_]. intros [(fs1 & t1 & t2 & Hx & Hrest & ->)|[Hx Ho]]%bind_inv.
    + destruct (Hf x _ _ _ _ ltac:(by left) Hfs Hx) as [Hfs1 HP1].
      destruct (IH fs1 fs' t2 o) as [Hfs' HP2]; [|done|done|].
      { intros y a b c e Hy Ha Hrun. eapply Hf; [by right|done|done]. }
      split; [done|]. by eapply P_seq.
    + apply (Hf x); [by left|done|done].
Qed.

Lemma invariant_walk depth top fs fs' t o :
  I fs → R top →
  os_walk cwd depth top body fs = (fs', t, o) → I fs' ∧ P fs t o fs'.
Proof.
  revert top fs fs' t o.
  induction depth as [|d IH]; intros top fs fs' t o Hfs Htop.
  { by intros [= <- <- <-]. }
  cbn [os_walk]. unfold bind at 1.
  destruct (listing_run cwd top fs) as [([dirs files] & Hscan & ->)|(e & _ & ->)].
  2:{ by intros [= <- <- <-]. }
  apply scandir_done in Hscan as (_ & _ & _ & Hdirs & Hfiles & _ & _).
  destruct (bind _ _ fs) as [[fs2 t2] o2] eqn:Eb. intros [= <- <- <-].
  assert (I fs2 ∧ P fs t2 o2 fs2) as [? ?].
  2:{ split; [done|]. eapply (P_seq _ [_]); [apply P_scan|done]. }
  revert Eb. intros [(fs1 & t1 & t3 & Hv & Hrest & ->)|[Hv Ho]]%bind_inv.
  - destruct (invariant_for files (visit cwd home top) fs fs1 t1 (Done tt))
      as [Hfs1 HP1]; [|done|done|].
    { intros n a b c e [data Hn]%Hfiles Ha. apply P_visit; [done|done|].
      exact (I_names _ _ _ _ Hfs Hn). }
    destruct (invariant_for dirs (λ dn, os_walk cwd d (join top dn) body)
                fs1 fs2 t3 o2) as [Hfs2 HP2]; [|done|done|].
    { intros dn a b c e (r & w & Hdn)%Hdirs Ha. apply IH; [done|].
      apply R_join; [done|]. exact (I_names _ _ _ _ Hfs Hdn). }
    split; [done|]. by eapply P_seq.
  - eapply invariant_for; [|done|done].
    intros n a b c e [data Hn]%Hfiles Ha. apply P_visit; [done|done|].
    exact (I_names _ _ _ _ Hfs Hn).
Qed.

Lemma invariant_transfer fs fs' t o :
  I fs → R source_dir →
  transfer cwd home fs = (fs', t, o) → I fs' ∧ P fs t o fs'.
Proof.
  intros Hfs Hsrc. rewrite transfer_unfold. by apply invariant_walk.
Qed.

End Invariant.

(* ===================================================================== *)
(** * The filesystem along the trace *)
(* ===================================================================== *)

Section TraceFacts.

Variable cwd : path.
Variable home : option string.

Local Abbreviation D := (destination_dir home).
Local Abbreviation pD := (resolve cwd (destination_dir home)).
Local Abbreviation pS := (resolve cwd source_dir).

Lemma follows_app a t1 b t2 c :
  follows cwd a t1 b → follows cwd b t2 c → follows cwd a (t1 ++ t2) c.
Proof.
  induction 1 as [fs|fs s d r fs1 t fs2 Hm _ IH|fs e t fs2 He _ IH]; intros H2; simpl.
  - done.
  - eapply follows_move; [done|]. by apply IH.
  - eapply follows_other; [done|]. by apply IH.
Qed.

Lemma follows_app_inv a t1 t2 c :
  follows cwd a (t1 ++ t2) c → ∃ b, follows cwd a t1 b ∧ follows cwd b t2 c.
Proof.
  revert a. induction t1 as [|e t1 IH]; intros a H; simpl in H.
  - exists a. split; [constructor|done].
  - inversion H as [|fs s d r fs1 t fs2 Hm Hrest|fs e' t fs2 He Hrest]; subst.
    + destruct (IH _ Hrest) as (b & H1 & H2). exists b. split; [|done].
      by eapply follows_move.
    + destruct (IH _ Hrest) as (b & H1 & H2). exists b. split; [|done].
      by eapply follows_other.
Qed.

Lemma visit_follows root file fs fs' t o :
  visit cwd home root file fs = (fs', t, o) → follows cwd fs t fs'.
Proof.
  unfold Script.visit. destruct (matches file); [|intros [= <- <- <-]; constructor].
  destruct (shutil_move_run cwd (join root file) (join D file) fs)
    as (fs1 & o1 & rd & Hrun & _ & _).
  unfold bind, move_file, observed. rewrite Hrun, void_unit.
  destruct o1 as [[]|e|]; intros [= <- <- <-].
  - eapply follows_move; [done|]. apply follows_other; [done|constructor].
  - eapply follows_move; [done|constructor].
  - eapply follows_move; [done|constructor].
Qed.

(** The loops change the filesystem by their moves only, one after the
    other. *)
Lemma transfer_follows fs fs' t o :
  transfer cwd home fs = (fs', t, o) → follows cwd fs t fs'.
Proof.
  apply (satisfies_transfer cwd home (λ fs t _ fs', follows cwd fs t fs')).
  - constructor.
  - constructor.
  - intros fs0 top r. apply follows_other; [done|constructor].
  - intros fs0 root file fs1 t1 o1. apply visit_follows.
  - intros fs0 t1 fs1 t2 o2 fs2. apply follows_app.
Qed.

Lemma move_result_plain fs s rd fs' o :
  move_result fs s rd fs' o → plain_names fs → plain_path rd → plain_names fs'.
Proof.
  intros [data Hs Hrd|data e Hs Hrd Hne|e|Hs] Hfs Hw; [| |done..].
  - apply map_Forall_insert_2; [done|]. by apply map_Forall_delete.
  - by apply map_Forall_insert_2.
Qed.

Lemma adds_dirs_plain p fs fs1 :
  adds_dirs p fs fs1 → plain_path p → plain_names fs → plain_names fs1.
Proof.
  intros Ha Hp Hfs k e Hk. destruct (Ha k) as [He|(_ & _ & [x ->])].
  - rewrite He in Hk. by eapply plain_names_lookup.
  - by apply Forall_app in Hp as [? _].
Qed.

(** What one move of the loops does, for a proper name: the result of
    [shutil.move] from the file to where it lands. *)
Lemma move_step root file fs fs' t r :
  proper_name file = true →
  shutil_move cwd (join root file) (join D file) fs = (fs', t, r) →
  t = [] ∧
  move_result fs (resolve cwd root ++ [file]) (landing_path fs pD file) fs' r.
Proof.
  intros Hn Hrun.
  destruct (shutil_move_run cwd (join root file) (join D file) fs)
    as (fs1 & o1 & rd & Hrun' & Hrd & Hr).
  rewrite Hrun in Hrun'. injection Hrun' as -> -> ->. split; [done|].
  rewrite basename_rstrip_join in Hrd by done.
  rewrite !resolve_join in Hrd by done. rewrite resolve_join in Hr by done.
  rewrite <-(assoc_L (++)) in Hrd. simpl in Hrd.
  unfold landing_path.
  destruct Hrd as [->|[Hdir ->]]; [|by rewrite Hdir].
  destruct (isdir fs (pD ++ [file])) eqn:Hdir; [|done].
  inversion Hr; subst; try congruence; by constructor.
Qed.

Lemma landing_path_landing fs n :
  matches n = true → landing pD (landing_path fs pD n).
Proof. intros Hm. exists n. split; [done|]. unfold landing_path. destruct (isdir _ _); auto. Qed.

Lemma name_of_landing_path fs n : name_of (landing_path fs pD n) = n.
Proof.
  unfold landing_path. destruct (isdir _ _); [|apply name_of_snoc].
  change [n; n] with ([n] ++ [n]). by rewrite (assoc_L (++)), name_of_snoc.
Qed.

(** On plain names the loops keep the names plain, and every move is of
    a file with a plain, matching name in a directory at or below the
    source directory. *)
Lemma transfer_plain fs fs' t o :
  plain_path cwd → plain_home home → plain_names fs →
  transfer cwd home fs = (fs', t, o) →
  plain_names fs' ∧ Forall (walk_move cwd pS D) t.
Proof.
  intros Hcwd Hhome Hfs.
  pose proof (printable_destination home Hhome) as HD.
  pose proof (resolve_plain cwd D Hcwd HD) as HpD.
  apply (invariant_transfer cwd home plain_names (λ n, plain_name n = true)
           (λ root, Str.printable root = true ∧ pS `prefix_of` resolve cwd root)
           (λ _ t _ _, Forall (walk_move cwd pS D) t)); try done.
  - intros fs0 p n e Hfs0 Hn.
    by apply (plain_names_lookup _ _ _ Hfs0), plain_path_snoc in Hn as [_ ?].
  - intros top n [Htop Hpre] [Hn Hp]%plain_name_spec. split.
    + by apply printable_join.
    + rewrite resolve_join by done. etrans; [done|]. by apply prefix_app_r.
  - intros _ top r. by repeat constructor.
  - intros _ t1 _ t2 _ _ H1 H2. by apply Forall_app.
  - intros fs0 root file fs1 t1 o1 Hfs0 [Hroot Hpre] Hfile.
    pose proof Hfile as [Hn Hp]%plain_name_spec.
    destruct (visit_run cwd home root file fs0)
      as [[_ ->]|(Hm & fs2 & o2 & rd & Hrd & Hr & ->)].
    + by intros [= <- <- <-].
    + intros [= <- <- <-]. split.
      * eapply move_result_plain; [done|done|].
        destruct Hrd as [->|[_ ->]].
        -- rewrite resolve_join by done. by apply plain_path_snoc.
        -- rewrite basename_rstrip_join by done. rewrite !resolve_join by done.
           apply plain_path_snoc. split; [|done]. by apply plain_path_snoc.
      * constructor; [by exists root, file|]. destruct o2; by repeat constructor.
Qed.

Section Along.

(** Along moves of the loops on plain names. *)
Variable p0 : path.

(** What is not there and is no landing place stays away. *)
Lemma follows_gone a t b k :
  follows cwd a t b → Forall (walk_move cwd p0 D) t →
  a !! k = None → ¬ landing pD k → b !! k = None.
Proof.
  intros Hf Ht Hk Hl. induction Hf as [fs|fs s d r fs1 t fs2 Hm _ IH|fs e t fs2 He _ IH].
  - done.
  - apply Forall_cons in Ht as [(root & file & [Hn _]%plain_name_spec & Hmt & _ & _ & -> & ->) Ht].
    apply IH; [done|]. apply move_step in Hm as [_ Hr]; [|done].
    destruct (decide (fs1 !! k = fs !! k)) as [He|Hne]; [congruence|].
    destruct (move_result_footprint _ _ _ _ _ _ Hr Hne) as [->| ->].
    + inversion Hr; subst; congruence.
    + destruct Hl. by apply landing_path_landing.
  - apply Forall_cons in Ht as [_ Ht]. by apply IH.
Qed.

(** What is there at the end and is no landing place was there all
    along. *)
Lemma follows_kept a t b k x :
  follows cwd a t b → Forall (walk_move cwd p0 D) t →
  b !! k = Some x → ¬ landing pD k → a !! k = Some x.
Proof.
  intros Hf Ht Hk Hl. induction Hf as [fs|fs s d r fs1 t fs2 Hm _ IH|fs e t fs2 He _ IH].
  - done.
  - apply Forall_cons in Ht as [(root & file & [Hn _]%plain_name_spec & Hmt & _ & _ & -> & ->) Ht].
    specialize (IH Ht Hk). apply move_step in Hm as [_ Hr]; [|done].
    assert (k ≠ landing_path fs pD file) as Hne.
    { intros ->. apply Hl. by apply landing_path_landing. }
    inversion Hr; subst; try done.
    + rewrite lookup_insert_ne in IH by done.
      by apply lookup_delete_Some in IH as [_ ?].
    + by rewrite lookup_insert_ne in IH.
  - apply Forall_cons in Ht as [_ Ht]. by apply IH.
Qed.

(** Where files named [n] land, only the moves to that name write. *)
Lemma follows_landing a t b n k :
  follows cwd a t b → Forall (walk_move cwd p0 D) t →
  Forall (λ e, ¬ move_to (join D n) e) t →
  name_of k = n → b !! k = a !! k.
Proof.
  intros Hf Ht Hno Hk. induction Hf as [fs|fs s d r fs1 t fs2 Hm _ IH|fs e t fs2 He _ IH].
  - done.
  - apply Forall_cons in Ht as [(root & file & [Hn _]%plain_name_spec & Hmt & _ & _ & -> & ->) Ht].
    apply Forall_cons in Hno as [Hno1 Hno]. simpl in Hno1.
    rewrite IH by done. apply move_step in Hm as [_ Hr]; [|done].
    destruct (decide (fs1 !! k = fs !! k)) as [|Hne]; [done|]. exfalso.
    apply Hno1. f_equal.
    destruct (move_result_footprint _ _ _ _ _ _ Hr Hne) as [->| ->].
    + by rewrite name_of_snoc in Hk.
    + by rewrite name_of_landing_path in Hk.
  - apply Forall_cons in Ht as [_ Ht]. apply Forall_cons in Hno as [_ Hno]. by apply IH.
Qed.

End Along.

End TraceFacts.

(* ===================================================================== *)
(** * The script over any library *)
(* ===================================================================== *)

Section SkeletonFacts.

Variable cwd : path.
Variable home : option string.
Variable makedirs_ : string → M unit.
Variable move_ : string → string → M unit.
Variable print_ : string → M unit.

Local Abbreviation D := (destination_dir home).
Local Abbreviation by_call := (raised_by_call makedirs_ move_ print_ D).

Lemma bind_raised_inv {A B} (m : M A) (k : A → M B) fs fs' t e :
  bind m k fs = (fs', t, Raised e) →
  m fs = (fs', t, Raised e)
  ∨ ∃ a fs1 t1 t2, m fs = (fs1, t1, Done a) ∧ k a fs1 = (fs', t2, Raised e) ∧
                   t = t1 ++ t2.
Proof.
  unfold bind. destruct (m fs) as [[fs1 t1] [a|e1|]].
  - destruct (k a fs1) as [[fs2 t2] o2] eqn:Ek. intros [= <- <- ->]. right.
    by exists a, fs1, t1, t2.
  - intros [= <- <- <-]. by left.
  - done.
Qed.

Lemma by_call_later fs' t1 t e : by_call fs' t e → by_call fs' (t1 ++ t) e.
Proof.
  intros (fs0 & t0 & t2 & -> & H). exists fs0, (t1 ++ t0), t2.
  by rewrite (assoc_L (++)).
Qed.

Lemma for_raised {A} (xs : list A) (f : A → M unit) fs fs' t e :
  (∀ x fs fs' t, f x fs = (fs', t, Raised e) → by_call fs' t e) →
  for_ xs f fs = (fs', t, Raised e) → by_call fs' t e.
Proof.
  intros Hf. revert fs t. induction xs as [|x xs IH]; intros fs t; [done|].
  cbn [for_]. intros [Hx|(a & fs1 & t1 & t2 & _ & Hrest & ->)]%bind_raised_inv.
  - by eapply Hf.
  - apply by_call_later. by eapply IH.
Qed.

Lemma visit_with_raised root file fs fs' t e :
  visit_with home move_ print_ root file fs = (fs', t, Raised e) →
  by_call fs' t e.
Proof.
  unfold visit_with. destruct (matches file) eqn:Hm; [|done].
  intros [Hx|(a & fs1 & t1 & t2 & _ & Hrest & ->)]%bind_raised_inv.
  - exists fs, [], t. split; [done|]. right. left. by exists root, file.
  - exists fs1, t1, t2. split; [done|]. right. right. by eexists.
Qed.

Lemma walk_with_raised depth top fs fs' t e :
  os_walk cwd depth top
    (λ root _ files, for_ files (visit_with home move_ print_ root)) fs
    = (fs', t, Raised e) →
  by_call fs' t e.
Proof.
  revert top fs fs' t. induction depth as [|d IH]; intros top fs fs' t; [done|].
  cbn [os_walk]. intros [Hl|(r & fs1 & t1 & t2 & Hl & Hrest & ->)]%bind_raised_inv.
  - destruct (listing_run cwd top fs) as [(x & _ & Hx)|(e' & _ & Hx)]; congruence.
  - apply by_call_later. destruct r as [[dirs files]|]; [|done].
    apply bind_raised_inv in Hrest
      as [Hf|(a & fs2 & t3 & t4 & _ & Hd & ->)].
    + eapply for_raised; [|done]. intros ????. apply visit_with_raised.
    + apply by_call_later. eapply for_raised; [|done]. intros ????. apply IH.
Qed.

(** The script handles no exception: one that ends a run was raised by
    the making of the destination directory, by a move or by a [print],
    and the run ended then and there.  Listing a directory is never the
    cause. *)
Lemma main_with_raised fs fs' t e :
  main_with cwd home makedirs_ move_ print_ fs = (fs', t, Raised e) →
  by_call fs' t e.
Proof.
  unfold main_with.
  intros [Hm|(a & fs1 & t1 & t2 & _ & Hrest & ->)]%bind_raised_inv.
  - exists fs, [], t. split; [done|]. by left.
  - apply by_call_later.
    apply bind_raised_inv in Hrest as [Ht|(b & fs2 & t3 & t4 & _ & Hp & ->)].
    + unfold transfer_with in Ht.
      apply bind_raised_inv in Ht as [?|(fs0 & fs3 & t5 & t6 & _ & Hw & ->)]; [done|].
      apply by_call_later. by eapply walk_with_raised.
    + exists fs2, t3, t4. split; [done|]. right. right. by eexists.
Qed.

(** And a call that raises ends the run: the making of the destination
    directory ends the script, a move or a [print] ends the iteration it
    is in, and an iteration that raises ends the loop. *)
Lemma main_with_makedirs_raises fs fs1 t1 e :
  makedirs_ D fs = (fs1, t1, Raised e) →
  main_with cwd home makedirs_ move_ print_ fs = (fs1, t1, Raised e).
Proof. intros Hm. unfold main_with. by apply bind_raised. Qed.

Lemma visit_with_move_raises root file fs fs1 t1 e :
  matches file = true →
  move_ (join root file) (join D file) fs = (fs1, t1, Raised e) →
  visit_with home move_ print_ root file fs = (fs1, t1, Raised e).
Proof. intros Hmt Hm. unfold visit_with. rewrite Hmt. by apply bind_raised. Qed.

Lemma for_raises {A} (x : A) xs (f : A → M unit) fs fs1 t1 e :
  f x fs = (fs1, t1, Raised e) → for_ (x :: xs) f fs = (fs1, t1, Raised e).
Proof. intros Hx. cbn [for_]. by apply bind_raised. Qed.

End SkeletonFacts.

Lemma main_is_main_with cwd home :
  main cwd home =
  main_with cwd home (λ name, observed (EvMakedirs name) (makedirs cwd name))
            (move_file cwd) print.
Proof. reflexivity. Qed.

(* ===================================================================== *)
(** * The moves of a run, one by one *)
(* ===================================================================== *)

Section RunAnatomy.

Variable cwd : path.
Variable home : option string.
Hypothesis cwd_plain : plain_path cwd.
Hypothesis home_plain : plain_home home.

Local Abbreviation D := (destination_dir home).
Local Abbreviation pD := (resolve cwd (destination_dir home)).
Local Abbreviation pS := (resolve cwd source_dir).
Local Abbreviation main := (main cwd home).

Lemma str_app_inj a b c : a +:+ b = a +:+ c → b = c.
Proof.
  induction a as [|x a IH]; [done|]. rewrite !str_app_cons. intros [= H]. auto.
Qed.

Lemma join_destination_inj n m :
  proper_name n = true → proper_name m = true →
  join D n = join D m → n = m.
Proof.
  intros Hn Hm. rewrite !join_destination by (by apply name_no_leading_slash).
  intros H%str_app_inj. by apply (str_app_inj "/") in H.
Qed.

Lemma last_move_exists t d :
  Exists (move_to d) t → ∃ e, last_move_to t d e.
Proof.
  induction t as [|x t IH]; intros He; [by apply Exists_nil in He|].
  destruct (decide (Exists (move_to d) t)) as [Hin|Hout].
  - destruct (IH Hin) as (e & t0 & t1 & -> & Hm & Hno).
    exists e, (x :: t0), t1. by split_and!.
  - apply Exists_cons in He as [Hx|?]; [|done].
    exists x, [], t. split_and!; [done|done|].
    apply Forall_forall. intros e' He' Hm. apply Hout, Exists_exists. eauto.
Qed.

(** The run in its parts, on plain names: the making of the destination
    directory, then the loops, whose trace the filesystem follows. *)
Lemma main_anatomy fs :
  plain_names fs →
  ∃ fs1 o1,
    makedirs cwd D fs = (fs1, [], o1) ∧
    adds_dirs pD fs fs1 ∧
    plain_names fs1 ∧
    match o1 with
    | Done _ =>
        ∃ fs2 t2 o2,
          transfer cwd home fs1 = (fs2, t2, o2) ∧
          main fs =
            (fs2,
             EvMakedirs D (Done tt) :: t2 ++
               match o2 with
               | Done _ => [EvPrint "Transfer complete."]
               | _ => []
               end,
             o2) ∧
          follows cwd fs1 t2 fs2 ∧
          Forall (walk_move cwd pS D) t2 ∧
          moves_see_dirs fs1 t2 ∧
          plain_names fs2
    | _ => main fs = (fs1, [EvMakedirs D o1], o1)
    end.
Proof.
  intros Hfs.
  destruct (main_run cwd home fs) as (fs1 & o1 & Hm & Hmain).
  destruct (makedirs_run cwd D fs) as (fs1' & o1' & Hm' & Ha & _).
  rewrite Hm in Hm'. injection Hm' as <- <-.
  assert (plain_names fs1) as Hfs1.
  { eapply adds_dirs_plain; [done| |done].
    apply resolve_plain; [done|]. by apply printable_destination. }
  exists fs1, o1. split_and!; [done..|].
  destruct o1 as [[]|e|]; [|done..].
  destruct Hmain as (fs2 & t2 & o2 & Ht & Hmain).
  destruct (transfer_plain cwd home _ _ _ _ cwd_plain home_plain Hfs1 Ht) as [Hfs2 Hwm].
  exists fs2, t2, o2. split_and!; [done|done| |done| |done].
  - by eapply transfer_follows.
  - by eapply transfer_dirs.
Qed.

(** A move of the trace of the run is a move of the trace of the
    loops. *)
Lemma main_trace_split (x : outcome unit) t2 (tail : list event) t0 pre s d r t1 :
  (tail = [] ∨ ∃ l, tail = [EvPrint l]) →
  EvMakedirs D x :: t2 ++ tail = t0 ++ EvMove pre s d r :: t1 →
  ∃ t0' t1', t0 = EvMakedirs D x :: t0' ∧ t1 = t1' ++ tail ∧
             t2 = t0' ++ EvMove pre s d r :: t1'.
Proof.
  intros Htail He. destruct t0 as [|e0 t0]; [done|]. injection He as <- He.
  destruct Htail as [->|[l ->]].
  - rewrite app_nil_r in He. exists t0, t1. by rewrite app_nil_r.
  - destruct t1 as [|z t1 _] using rev_ind.
    + by apply app_inj_tail in He as [_ ?].
    + change (t0 ++ EvMove pre s d r :: t1 ++ [z])
        with (t0 ++ (EvMove pre s d r :: t1) ++ [z]) in He.
      rewrite (assoc_L (++)) in He. apply app_inj_tail in He as [-> <-].
      by exists t0, t1.
Qed.

(** A move of the loops that went through: the file was there, is
    removed from its path and stored where it lands. *)
Lemma transfer_move_done fs1 fs2 t t0 pre s d t1 :
  follows cwd fs1 t fs2 →
  Forall (walk_move cwd pS D) t →
  moves_see_dirs fs1 t →
  t = t0 ++ EvMove pre s d (Done tt) :: t1 →
  ∃ root n data,
    s = join root n ∧ d = join D n ∧
    plain_name n = true ∧ matches n = true ∧
    pS `prefix_of` resolve cwd root ∧
    follows cwd fs1 t0 pre ∧
    pre !! (resolve cwd root ++ [n]) = Some (File data) ∧
    follows cwd
      (<[landing_path fs1 pD n := File data]> (delete (resolve cwd root ++ [n]) pre))
      t1 fs2 ∧
    Forall (walk_move cwd pS D) t0 ∧ Forall (walk_move cwd pS D) t1.
Proof.
  intros Hf Hwm Hsee ->.
  apply Forall_app in Hwm as [Hwm0 Hwm1]. apply Forall_cons in Hwm1 as [Hwm Hwm1].
  apply Forall_app in Hsee as [_ Hsee]. apply Forall_cons in Hsee as [Hag _].
  destruct Hwm as (root & n & Hn & Hmt & _ & Hpre & -> & ->).
  pose proof Hn as [Hpn _]%plain_name_spec.
  apply follows_app_inv in Hf as (b & Hf0 & Hf1).
  inversion Hf1 as [|? ? ? ? post ? ? Hm Hrest|? ? ? ? He]; subst;
    [|by destruct (He pre (join root n) (join D n) (Done tt))].
  apply (move_step cwd home) in Hm as [_ Hr]; [|done].
  inversion Hr as [data Hs Hd| | |]; subst.
  exists root, n, data. split_and!; try done.
  unfold landing_path in *. by rewrite <-(dirs_agree_isdir _ _ _ Hag).
Qed.

(** A move of the loops that raised: nothing changed, or the file was
    copied to where it lands and kept. *)
Lemma transfer_move_raised fs1 fs2 t t0 pre s d e t1 :
  follows cwd fs1 t fs2 →
  Forall (walk_move cwd pS D) t →
  moves_see_dirs fs1 t →
  t = t0 ++ EvMove pre s d (Raised e) :: t1 →
  ∃ root n post,
    s = join root n ∧ d = join D n ∧
    plain_name n = true ∧ matches n = true ∧
    follows cwd fs1 t0 pre ∧
    (post = pre
     ∨ ∃ data, pre !! (resolve cwd root ++ [n]) = Some (File data) ∧
               post = <[landing_path fs1 pD n := File data]> pre) ∧
    follows cwd post t1 fs2.
Proof.
  intros Hf Hwm Hsee ->.
  apply Forall_app in Hwm as [Hwm0 Hwm1]. apply Forall_cons in Hwm1 as [Hwm Hwm1].
  apply Forall_app in Hsee as [_ Hsee]. apply Forall_cons in Hsee as [Hag _].
  destruct Hwm as (root & n & Hn & Hmt & _ & Hpre & -> & ->).
  pose proof Hn as [Hpn _]%plain_name_spec.
  apply follows_app_inv in Hf as (b & Hf0 & Hf1).
  inversion Hf1 as [|? ? ? ? post ? ? Hm Hrest|? ? ? ? He]; subst;
    [|by destruct (He pre (join root n) (join D n) (Raised e))].
  apply (move_step cwd home) in Hm as [_ Hr]; [|done].
  exists root, n, post. split_and!; try done.
  inversion Hr as [|data e' Hs Hd Hne| |]; subst; [right|by left].
  exists data. split; [done|].
  unfold landing_path in *. by rewrite <-(dirs_agree_isdir _ _ _ Hag).
Qed.

End RunAnatomy.

(* ===================================================================== *)
(** * The claims about the files of a run *)
(* ===================================================================== *)

Section RunFiles.

Variable cwd : path.
Variable home : option string.

Local Abbreviation D := (destination_dir home).
Local Abbreviation pD := (resolve cwd (destination_dir home)).
Local Abbreviation pS := (resolve cwd source_dir).
Local Abbreviation main := (main cwd home).

Lemma landing_path_adds fs fs1 n :
  adds_dirs pD fs fs1 → landing_path fs1 pD n = landing_path fs pD n.
Proof.
  intros Ha. unfold landing_path, isdir. rewrite (adds_dirs_off _ _ _ _ Ha); [done|].
  intros Hp%prefix_length. rewrite length_app in Hp. simpl in Hp. lia.
Qed.


Lemma name_of_proper fs k e :
  wf_names fs → fs !! k = Some e → k ≠ [] →
  k = removelast k ++ [name_of k] ∧ proper_name (name_of k) = true.
Proof.
  intros Hfs Hk Hne. pose proof (app_removelast_last "" Hne) as Hl.
  split; [done|]. apply (wf_names_lookup _ _ _ Hfs) in Hk.
  rewrite Hl in Hk. by apply wf_path_snoc in Hk as [_ ?].
Qed.

(** A move that went through, in a run on plain names: the file was
    there, and what became of it. *)
Lemma run_move_done fs t0 pre s d t1 :
  plain_path cwd → plain_home home → plain_names fs →
  trace_of (main fs) = t0 ++ EvMove pre s d (Done tt) :: t1 →
  ∃ root n data,
    s = join root n ∧ d = join D n ∧ plain_name n = true ∧ matches n = true ∧
    pre !! (resolve cwd root ++ [n]) = Some (File data) ∧
    (apart pS pD →
       visible fs pS (resolve cwd root ++ [n]) ∧
       fs !! (resolve cwd root ++ [n]) = Some (File data) ∧
       final_fs (main fs) !! (resolve cwd root ++ [n]) = None) ∧
    (Forall (λ e', ¬ move_to d e') t1 →
       final_fs (main fs) !! landing_path fs pD n = Some (File data)).
Proof.
  intros Hcwd Hhome Hfs Htr.
  destruct (main_anatomy cwd home Hcwd Hhome fs Hfs) as (fs1 & o1 & Hm & Ha & Hfs1 & Hmain).
  destruct o1 as [[]|e1|]; [|rewrite Hmain in Htr; by destruct t0 as [|? [|??]]..].
  destruct Hmain as (fs2 & t2 & o2 & Ht & Hmain & Hf & Hwm & Hsee & Hfs2).
  rewrite Hmain in Htr |- *. unfold trace_of, final_fs in *. simpl in *.
  apply main_trace_split in Htr as (t0' & t1' & -> & -> & ->);
    [|destruct o2; eauto].
  destruct (transfer_move_done cwd home fs1 fs2 _ t0' pre s d t1' Hf Hwm Hsee eq_refl)
    as (root & n & data & -> & -> & Hn & Hmt & Hpre & Hf0 & Hs & Hf1 & Hwm0 & Hwm1).
  pose proof Hn as [Hpn _]%plain_name_spec.
  set (k := resolve cwd root ++ [n]) in *.
  exists root, n, data. split_and!; try done.
  - intros Hap.
    assert (pS `prefix_of` k) as Hk by (etrans; [done|by apply prefix_app_r]).
    assert (¬ landing pD k) as Hnl.
    { intros Hl. by apply (apart_no_landing cwd home Hap k Hl). }
    assert (fs1 !! k = Some (File data)) as Hk1 by (by eapply follows_kept).
    assert (fs2 !! k = None) as Hk2.
    { eapply follows_gone; [done|done| |done].
      rewrite lookup_insert_ne, lookup_delete_eq; [done|]. intros Hl. apply Hnl.
      rewrite <-Hl. by apply landing_path_landing. }
    split_and!; [|by rewrite <-(apart_below_source cwd home fs fs1 Hap Ha)|done].
    eapply visible_agree; [|intros k' Hk'; symmetry; by eapply apart_below_source].
    rewrite transfer_unfold in Ht.
    eapply (λ H1 H2 H3 H4 H5,
              walk_removes_visible cwd home (plain_path_wf _ Hcwd) (fs_height fs1)
                _ _ _ _ _ _ H1 H2 H3 H4 H5 Ht k).
    + by apply plain_names_wf.
    + intros k' r w Hk'. by eapply fs_height_bound.
    + lia.
    + lia.
    + by apply apart_no_landing.
    + by rewrite Hk1.
    + done.
  - intros Hno. apply Forall_app in Hno as [Hno _].
    rewrite <-(landing_path_adds fs fs1 n Ha).
    erewrite (follows_landing cwd home pS _ _ _ n); [|done|done|done|].
    + by rewrite lookup_insert_eq.
    + apply name_of_landing_path.
Qed.

(** A move that raised, in a run on plain names: it is the last event,
    and left the filesystem as it was or with a copy of the file where
    it lands. *)
Lemma run_move_raised fs t0 pre s d e t1 :
  plain_path cwd → plain_home home → plain_names fs →
  trace_of (main fs) = t0 ++ EvMove pre s d (Raised e) :: t1 →
  ∃ root n,
    s = join root n ∧ d = join D n ∧ plain_name n = true ∧ matches n = true ∧
    (final_fs (main fs) = pre
     ∨ ∃ data, pre !! (resolve cwd root ++ [n]) = Some (File data) ∧
               final_fs (main fs) = <[landing_path fs pD n := File data]> pre).
Proof.
  intros Hcwd Hhome Hfs Htr.
  destruct (main_anatomy cwd home Hcwd Hhome fs Hfs) as (fs1 & o1 & Hm & Ha & Hfs1 & Hmain).
  destruct o1 as [[]|e1|]; [|rewrite Hmain in Htr; by destruct t0 as [|? [|??]]..].
  destruct Hmain as (fs2 & t2 & o2 & Ht & Hmain & Hf & Hwm & Hsee & Hfs2).
  rewrite Hmain in Htr |- *. unfold trace_of, final_fs in *. simpl in *.
  apply main_trace_split in Htr as (t0' & t1' & -> & -> & ->);
    [|destruct o2; eauto].
  destruct (transfer_move_raised cwd home fs1 fs2 _ t0' pre s d e t1' Hf Hwm Hsee eq_refl)
    as (root & n & post & -> & -> & Hn & Hmt & Hf0 & Hpost & Hf1).
  exists root, n. split_and!; try done.
  assert (t1' = []) as ->.
  { pose proof (transfer_ends_with _ _ _ _ _ _ Ht) as Hend.
    destruct o2 as [[]|e2|]; simpl in Hend.
    - exfalso. by eapply clean_no_failure.
    - destruct Hend as (c & pre' & s' & d' & He & Hc).
      by destruct (clean_split c (EvMove pre' s' d' (Raised e2)) t0'
                     (EvMove pre (join root n) (join D n) (Raised e)) t1' Hc)
        as (-> & _).
    - destruct Hend as [Hc|(c & pre' & s' & d' & He & Hc)].
      + exfalso. by eapply clean_no_failure.
      + by destruct (clean_split c (EvMove pre' s' d' Stuck) t0'
                       (EvMove pre (join root n) (join D n) (Raised e)) t1' Hc)
          as (-> & _). }
  inversion Hf1; subst. rewrite (landing_path_adds fs fs1 n Ha) in Hpost. done.
Qed.

(** A run that raises after the destination directory was made ends on
    the move that raised. *)
Lemma run_raised_by_move fs e :
  outcome_of (makedirs cwd D fs) = Done tt →
  outcome_of (main fs) = Raised e →
  ∃ t0 pre s d, trace_of (main fs) = t0 ++ [EvMove pre s d (Raised e)].
Proof.
  intros Hmk Ho.
  destruct (main_run cwd home fs) as (fs1 & o1 & Hm & Hmain).
  rewrite Hm in Hmk. unfold outcome_of in Hmk. simpl in Hmk. subst o1.
  destruct Hmain as (fs2 & t2 & o2 & Ht & Hmain). rewrite Hmain in Ho |- *.
  unfold outcome_of, trace_of in *. simpl in *. subst o2.
  apply transfer_ends_with in Ht as (t0 & pre & s & d & -> & _).
  exists (EvMakedirs D (Done tt) :: t0), pre, s, d. by rewrite app_nil_r.
Qed.

(** In a run that completes, on plain names, the source tree and the
    destination directory apart: what becomes of a file with a matching
    name that the walk finds. *)
Lemma done_run_matching fs k data :
  plain_path cwd → plain_home home → plain_names fs →
  apart pS pD →
  outcome_of (main fs) = Done tt →
  visible fs pS k →
  fs !! k = Some (File data) →
  matches (name_of k) = true →
  final_fs (main fs) !! k = None
  ∧ (∃ pre src,
       EvMove pre src (join D (name_of k)) (Done tt) ∈ trace_of (main fs) ∧
       resolve cwd src = k ∧ pre !! k = Some (File data))
  ∧ (∃ pre' src' data',
       last_move_to (trace_of (main fs)) (join D (name_of k))
         (EvMove pre' src' (join D (name_of k)) (Done tt)) ∧
       visible fs pS (resolve cwd src') ∧
       name_of (resolve cwd src') = name_of k ∧
       fs !! resolve cwd src' = Some (File data') ∧
       final_fs (main fs) !! landing_path fs pD (name_of k) = Some (File data')).
Proof.
  intros Hcwd Hhome Hfs Hap Hdone Hvis Hk Hmt.
  pose proof (plain_path_wf _ Hcwd) as Hwcwd.
  destruct (main_anatomy cwd home Hcwd Hhome fs Hfs) as (fs1 & o1 & Hm & Ha & Hfs1 & Hmain).
  destruct o1 as [[]|e1|]; [|by rewrite Hmain in Hdone..].
  destruct Hmain as (fs2 & t2 & o2 & Ht & Hmain & Hf & Hwm & Hsee & Hfs2).
  assert (o2 = Done tt) as ->.
  { rewrite Hmain in Hdone. exact Hdone. }
  assert (covers cwd D fs1 fs2 t2 pS) as Hcov.
  { rewrite transfer_unfold in Ht.
    eapply (walk_covers cwd home Hwcwd (fs_height fs1));
      [by apply plain_names_wf| | | | |done].
    - intros k' r w Hk'. by eapply fs_height_bound.
    - lia.
    - lia.
    - by apply apart_no_landing. }
  destruct (Hcov k) as (Hg & pre & src & Hin & Hsrc & Hpre);
    [eapply visible_agree; [done|]; intros k' Hk'; by eapply apart_below_source|done|].
  assert (EvMove pre src (join D (name_of k)) (Done tt) ∈ trace_of (main fs)) as Hin'.
  { rewrite Hmain. unfold trace_of. simpl. right. apply elem_of_app. by left. }
  split_and!.
  - by rewrite Hmain.
  - exists pre, src. split_and!; [done..|].
    rewrite Hpre, (apart_below_source cwd home fs fs1 Hap Ha); [done|].
    by apply visible_inv in Hvis as [? _].
  - destruct (last_move_exists (trace_of (main fs)) (join D (name_of k)))
      as (e & t0 & t1 & Htr & Hto & Hno).
    { apply Exists_exists. eexists. split; [exact Hin'|done]. }
    destruct e as [| |pre' src' d' r'|]; simpl in Hto; try done. subst d'.
    assert (r' = Done tt) as ->.
    { pose proof (transfer_ends_with _ _ _ _ _ _ Ht) as Hc. simpl in Hc.
      assert (clean (trace_of (main fs))) as Hc'.
      { rewrite Hmain. unfold trace_of. simpl. constructor; [done|].
        apply Forall_app. split; [done|by repeat constructor]. }
      rewrite Htr in Hc'. apply Forall_app in Hc' as [_ Hc'].
      by apply Forall_cons in Hc' as [? _]. }
    destruct (run_move_done fs t0 pre' src' _ t1 Hcwd Hhome Hfs Htr)
      as (root & n & data' & -> & Hd & Hn & Hmt' & Hs & Hsrc' & Hdst).
    destruct (Hsrc' Hap) as (Hvis' & Hk' & _).
    pose proof Hn as [Hpn _]%plain_name_spec.
    assert (name_of k = n) as Hname.
    { pose proof (visible_inv _ _ _ Hvis) as (Hp & Hne & _).
      destruct (name_of_proper fs k (File data)) as [_ Hpk];
        [by apply plain_names_wf|done| |by eapply join_destination_inj].
      intros ->. destruct Hp as [x Hx]. destruct pS; [done|done]. }
    exists pre', (join root n), data'. rewrite resolve_join by done.
    split_and!; [by exists t0, t1|done|by rewrite name_of_snoc|done|].
    rewrite Hname. by apply Hdst.
Qed.

End RunFiles.

Section RunClaims.

Variable cwd : path.
Variable home : option string.

Local Abbreviation D := (destination_dir home).
Local Abbreviation pD := (resolve cwd (destination_dir home)).
Local Abbreviation pS := (resolve cwd source_dir).
Local Abbreviation main := (main cwd home).



(** C1, as the code has it.  On a filesystem with plain names (and a
    home directory written plainly): a file whose name does not match is
    never the source of a move and stays where it is, with its content,
    however the run ends.  When the run completes, the source tree and
    the destination directory lying apart, every file the walk finds is
    the source of a move exactly when its name matches; a file whose
    name matches is gone from its path, the trace holds its move, which
    went through, to its name joined to the destination directory, and
    where files of that name land the destination directory holds the
    content of the file of that name that was moved last, a file the
    walk found: the file itself when no other file the walk finds has
    its name. *)
Theorem C1_moved_iff_match fs :
  plain_path cwd → plain_home home → plain_names fs →
  (∀ k data,
     fs !! k = Some (File data) →
     matches (name_of k) = false →
     final_fs (main fs) !! k = Some (File data) ∧
     ¬ moved cwd (trace_of (main fs)) k)
  ∧ (apart pS pD →
     outcome_of (main fs) = Done tt →
     ∀ k data,
       visible fs pS k →
       fs !! k = Some (File data) →
       (moved cwd (trace_of (main fs)) k ↔ matches (name_of k) = true) ∧
       (matches (name_of k) = true →
        final_fs (main fs) !! k = None
        ∧ (∃ pre src,
             EvMove pre src (join D (name_of k)) (Done tt) ∈ trace_of (main fs) ∧
             resolve cwd src = k ∧
             pre !! k = Some (File data))
        ∧ (∃ pre' src' data',
             last_move_to (trace_of (main fs)) (join D (name_of k))
               (EvMove pre' src' (join D (name_of k)) (Done tt)) ∧
             visible fs pS (resolve cwd src') ∧
             name_of (resolve cwd src') = name_of k ∧
             fs !! resolve cwd src' = Some (File data') ∧
             final_fs (main fs) !! landing_path fs pD (name_of k)
               = Some (File data'))
        ∧ ((∀ k', visible fs pS k' → name_of k' = name_of k → k' = k) →
           final_fs (main fs) !! landing_path fs pD (name_of k)
             = Some (File data)))).
Proof.
  intros Hpcwd Hhome Hpfs.
  pose proof (plain_path_wf _ Hpcwd) as Hcwd.
  pose proof (plain_names_wf _ Hpfs) as Hfs.
  destruct (main_run cwd home fs) as (fs1 & o1 & Hm & Hmain).
  destruct (makedirs_run cwd D fs) as (fs1' & o1' & Hm' & Ha & _).
  rewrite Hm in Hm'. injection Hm' as <- <-.
  assert (wf_names fs1) as Hfs1.
  { eapply adds_dirs_wf; [done| |done]. by apply resolve_wf. }
  assert (∀ k, moved cwd (trace_of (main fs)) k → matches (name_of k) = true) as Hmoved.
  { intros k (pre & src & dst & r & Hin & Hsrc).
    destruct o1 as [[]|e1|];
      [|rewrite Hmain in Hin; by apply list_elem_of_singleton in Hin..].
    destruct Hmain as (fs2 & t2 & o2 & Ht & Hmain). rewrite Hmain in Hin.
    unfold trace_of in Hin. simpl in Hin.
    apply (moves_wf_moved cwd home t2).
    - by eapply (transfer_step cwd home Hcwd).
    - exists pre, src, dst, r. split; [|done].
      apply elem_of_cons in Hin as [?|Hin]; [done|].
      apply elem_of_app in Hin as [?|Hin]; [done|].
      destruct o2; [|by apply elem_of_nil in Hin..].
      by apply list_elem_of_singleton in Hin. }
  split.
  - intros k data Hk Hnm. split; [|intros ?%Hmoved; congruence].
    apply (adds_dirs_keeps _ _ _ _ _ Ha) in Hk.
    destruct o1 as [[]|e1|]; [|by rewrite Hmain..].
    destruct Hmain as (fs2 & t2 & o2 & Ht & ->). unfold final_fs. simpl.
    destruct (transfer_step cwd home Hcwd _ _ _ _ Hfs1 Ht) as (_ & Hfp & _).
    rewrite <-Hk. eapply footprint_same; [exact Hfp| |].
    + intros (_ & _ & ?). congruence.
    + intros ?%landing_name. congruence.
  - intros Hapart Hdone k data Hvis Hk.
    assert (matches (name_of k) = true → moved cwd (trace_of (main fs)) k) as Hback.
    { intros Hmt.
      destruct (done_run_matching cwd home fs k data) as (_ & (pre & src & ? & ? & _) & _);
        try done.
      by exists pre, src, (join D (name_of k)), (Done tt). }
    split; [by split; [apply Hmoved|]|]. intros Hmt.
    destruct (done_run_matching cwd home fs k data)
      as (Hgone & Hev & pre' & src' & data' & Hlast & Hvis' & Hname & Hk' & Hdst);
      try done.
    split_and!; [done|done|by exists pre', src', data'|].
    intros Huniq. rewrite (Huniq _ Hvis' Hname) in Hk'. congruence.
Qed.


(** C2, as the code has it.  A failure of the making of the destination
    directory or of a move is not handled and ends the program there;
    a failure to list a directory is no fault.
    (1) When the directory cannot be made the run ends with that
    exception before any move, every file where it was.
    (2) A move that raises is the last event of the run, which ends with
    its exception after moves that all went through.
    (3) Whatever the outcome, a file that no move of the trace took from
    or wrote to is where it was: there is no rollback.
    (4) This is the script, whatever the library calls do (a full disk
    included): the model is the script at the calls modelled, an
    exception that ends a run was raised by the making of the
    destination directory, by a move or by a [print], the run ending in
    the filesystem that call left, and a call that raises ends the
    script, the iteration and the loop it is in.
    (5) A directory that cannot be listed is passed over and the walk
    goes on.
    (6) On plain names, a move that went through took a file that was
    there; with the source tree and the destination directory apart the
    file was there from the start and is gone from its path at the end
    of the run, however that ends; and unless a later move has the same
    destination the file is, at the end, where files of its name land.
    (7) On plain names, the move that raised left the filesystem as it
    was, or with a copy of its file where files of that name land, the
    file itself kept: nothing else differs at the end from what the
    moves before it had made. *)
Theorem C2_faults_of_makedirs_and_moves fs :
  (∀ e, outcome_of (makedirs cwd D fs) = Raised e →
        outcome_of (main fs) = Raised e ∧
        trace_of (main fs) = [EvMakedirs D (Raised e)] ∧
        ∀ k data, fs !! k = Some (File data) →
                  final_fs (main fs) !! k = Some (File data))
  ∧ (∀ t0 pre s d e t1,
       trace_of (main fs) = t0 ++ EvMove pre s d (Raised e) :: t1 →
       t1 = [] ∧ outcome_of (main fs) = Raised e ∧ clean t0)
  ∧ (∀ k data,
       fs !! k = Some (File data) →
       ¬ touched_by cwd (trace_of (main fs)) k →
       final_fs (main fs) !! k = Some (File data))
  ∧ (main =
       main_with cwd home (λ name, observed (EvMakedirs name) (makedirs cwd name))
                 (move_file cwd) print
     ∧ (∀ makedirs_ move_ print_ fs0 fs' t e,
          main_with cwd home makedirs_ move_ print_ fs0 = (fs', t, Raised e) →
          raised_by_call makedirs_ move_ print_ D fs' t e)
     ∧ (∀ makedirs_ move_ print_ fs0 fs1 t1 e,
          makedirs_ D fs0 = (fs1, t1, Raised e) →
          main_with cwd home makedirs_ move_ print_ fs0 = (fs1, t1, Raised e))
     ∧ (∀ move_ print_ root file fs0 fs1 t1 e,
          matches file = true →
          move_ (join root file) (join D file) fs0 = (fs1, t1, Raised e) →
          visit_with home move_ print_ root file fs0 = (fs1, t1, Raised e))
     ∧ (∀ A (f : A → M unit) x xs fs0 fs1 t1 e,
          f x fs0 = (fs1, t1, Raised e) →
          for_ (x :: xs) f fs0 = (fs1, t1, Raised e)))
  ∧ (∀ depth top body fs0 e,
       outcome_of (scandir (resolve cwd top) fs0) = Raised e →
       os_walk cwd (S depth) top body fs0 = (fs0, [EvScandir top (Raised e)], Done tt))
  ∧ (plain_path cwd → plain_home home → plain_names fs →
     ∀ t0 pre s d t1,
       trace_of (main fs) = t0 ++ EvMove pre s d (Done tt) :: t1 →
       ∃ root n data,
         s = join root n ∧ d = join D n ∧
         plain_name n = true ∧ matches n = true ∧
         pre !! (resolve cwd root ++ [n]) = Some (File data) ∧
         (apart pS pD →
            visible fs pS (resolve cwd root ++ [n]) ∧
            fs !! (resolve cwd root ++ [n]) = Some (File data) ∧
            final_fs (main fs) !! (resolve cwd root ++ [n]) = None) ∧
         (Forall (λ e', ¬ move_to d e') t1 →
            final_fs (main fs) !! landing_path fs pD n = Some (File data)))
  ∧ (plain_path cwd → plain_home home → plain_names fs →
     ∀ t0 pre s d e t1,
       trace_of (main fs) = t0 ++ EvMove pre s d (Raised e) :: t1 →
       ∃ root n,
         s = join root n ∧ d = join D n ∧
         plain_name n = true ∧ matches n = true ∧
         (final_fs (main fs) = pre
          ∨ ∃ data, pre !! (resolve cwd root ++ [n]) = Some (File data) ∧
                    final_fs (main fs) = <[landing_path fs pD n := File data]> pre)).
Proof.
  destruct (main_run cwd home fs) as (fs1 & o1 & Hm & Hmain).
  destruct (makedirs_run cwd D fs) as (fs1' & o1' & Hm' & Ha & _).
  rewrite Hm in Hm'. injection Hm' as <- <-.
  split; [|split; [|split; [|split; [|split; [|split]]]]].
  - rewrite Hm. unfold outcome_of at 1. simpl. intros e ->. rewrite Hmain.
    split_and!; [done..|]. intros k data Hk. by eapply adds_dirs_keeps.
  - intros t0 pre s d e t1 Htr.
    destruct o1 as [[]|e1|]; [|rewrite Hmain in Htr; by destruct t0 as [|? [|??]]..].
    destruct Hmain as (fs2 & t2 & o2 & Ht & Hmain). rewrite Hmain in Htr |- *.
    unfold trace_of, outcome_of in *. simpl in *.
    pose proof (transfer_ends_with _ _ _ _ _ _ Ht) as Hend.
    destruct o2 as [[]|e2|]; simpl in Hend.
    + exfalso. eapply (clean_no_failure (EvMakedirs D (Done tt) :: t2 ++ [_]));
        [|exact Htr].
      constructor; [done|]. apply Forall_app. split; [done|by repeat constructor].
    + destruct Hend as (t0' & pre' & s' & d' & -> & Hc). rewrite app_nil_r in Htr.
      assert (clean (EvMakedirs D (Done tt) :: t0')) as Hc' by (by constructor).
      destruct (clean_split _ (EvMove pre' s' d' (Raised e2)) t0
                  (EvMove pre s d (Raised e)) t1 Hc')
        as (-> & -> & [= <- <- <- <-]); [done|exact Htr|].
      by split_and!.
    + exfalso. rewrite app_nil_r in Htr.
      destruct Hend as [Hc|(t0' & pre' & s' & d' & -> & Hc)].
      * eapply (clean_no_failure (EvMakedirs D (Done tt) :: t2)); [|exact Htr].
        by constructor.
      * assert (clean (EvMakedirs D (Done tt) :: t0')) as Hc' by (by constructor).
        by destruct (clean_split _ (EvMove pre' s' d' Stuck) t0
                       (EvMove pre s d (Raised e)) t1 Hc')
          as (_ & _ & [=]).
  - intros k data Hk Hnt. apply (adds_dirs_keeps _ _ _ _ _ Ha) in Hk.
    destruct o1 as [[]|e1|]; [|by rewrite Hmain..].
    destruct Hmain as (fs2 & t2 & o2 & Ht & Hmain). rewrite Hmain in Hnt |- *.
    unfold trace_of, final_fs in *. simpl in *.
    destruct (decide (fs2 !! k = fs1 !! k)) as [He|Hne]; [congruence|]. exfalso.
    destruct (transfer_footprint _ _ _ _ _ _ Ht k Hne) as (pre & s & d & r & Hin & Hor).
    apply Hnt. exists pre, s, d, r. split; [|done].
    right. apply elem_of_app. by left.
  - split; [done|]. split; [apply main_with_raised|].
    split; [apply main_with_makedirs_raises|].
    split; [apply visit_with_move_raises|].
    intros A f x xs. apply for_raises.
  - apply os_walk_unlistable.
  - intros Hcwd Hhome Hfs t0 pre s d t1. by apply run_move_done.
  - intros Hcwd Hhome Hfs t0 pre s d e t1. by apply run_move_raised.
Qed.

End RunClaims.

(* ===================================================================== *)
(** * The files of a run, on the examples *)
(* ===================================================================== *)

Section RunClaimsOnExamples.

Local Abbreviation D0 := (destination_dir home0).
Local Abbreviation main0 := (main cwd0 home0).

Local Ltac run := first [ vm_compute; reflexivity
                        | let H := fresh in intros H; vm_compute in H; discriminate H ].


Lemma src0_resolved : resolve cwd0 source_dir = src0.
Proof. vm_compute; reflexivity. Qed.

Lemma dst0_resolved : resolve cwd0 D0 = dst0.
Proof. vm_compute; reflexivity. Qed.

(** Against C1 as stated.  A run that faults leaves a matching file
    where it was: the path of the destination directory holds a file,
    the making of the directory raises, and [play.mp4], which the walk
    would find, is not moved.  And a run that completes can lose a file
    it moved: of two files [play.mp4] in two directories, both moved,
    the destination directory holds the content of one, and the content
    of the other is in no file. *)
Lemma C1_counterexample :
  (visible fs_destfile (resolve cwd0 source_dir) (src0 ++ ["play.mp4"])
   ∧ matches (name_of (src0 ++ ["play.mp4"])) = true
   ∧ outcome_of (main0 fs_destfile) = Raised FileExistsError
   ∧ moves (trace_of (main0 fs_destfile)) = []
   ∧ final_fs (main0 fs_destfile) !! (src0 ++ ["play.mp4"]) = Some (File "movie"))
  ∧ (fs_twins !! (src0 ++ ["b"; "play.mp4"]) = Some (File "second")
     ∧ outcome_of (main0 fs_twins) = Done tt
     ∧ moves (trace_of (main0 fs_twins)) =
         [("path/to/your/subdirectory/b/play.mp4",
           "/home/u/Desktop/Filtered_Files/play.mp4", Done tt);
          ("path/to/your/subdirectory/a/play.mp4",
           "/home/u/Desktop/Filtered_Files/play.mp4", Done tt)]
     ∧ final_fs (main0 fs_twins) !! (dst0 ++ ["play.mp4"]) = Some (File "first")
     ∧ bool_decide (map_Forall (λ _ e, e ≠ File "second") (final_fs (main0 fs_twins)))
       = true).
Proof.
  split; [split|].
  - rewrite src0_resolved.
    apply (visible_here _ src0 "play.mp4" true "movie"); vm_compute; reflexivity.
  - split_and!; vm_compute; reflexivity.
  - split_and!; vm_compute; reflexivity.
Qed.

(** C1 where the destination directory holds a file [play.mp4] already,
    and on the scenario of the specification: the one matching file of
    the source directory is gone from its path and the destination
    directory holds its content under its name; [notes.txt] stays. *)
Lemma C1_witness :
  final_fs (main0 fs_overwrite) !! (src0 ++ ["play.mp4"]) = None
  ∧ final_fs (main0 fs_overwrite) !! (dst0 ++ ["play.mp4"]) = Some (File "new")
  ∧ final_fs (main0 fs_demo) !! (src0 ++ ["b"; "notes.txt"]) = Some (File "notes")
  ∧ final_fs (main0 fs_demo) !! (src0 ++ ["a"; "clip_play.mp4"]) = None.
Proof.
  assert (visible fs_overwrite (resolve cwd0 source_dir) (src0 ++ ["play.mp4"])) as Hv1.
  { rewrite src0_resolved.
    apply (visible_here _ src0 "play.mp4" true "new"); vm_compute; reflexivity. }
  assert (∀ k', visible fs_overwrite (resolve cwd0 source_dir) k' →
                name_of k' = name_of (src0 ++ ["play.mp4"]) →
                k' = src0 ++ ["play.mp4"]) as Hone.
  { intros k' Hv _. rewrite src0_resolved in Hv.
    apply visible_cases in Hv as [_ (n & e & Hin & Hk)]. vm_compute in Hin.
    apply elem_of_cons in Hin as [Heq|Hin];
      [|exfalso; exact (proj1 (elem_of_nil _) Hin)].
    injection Heq as -> ->. exact Hk. }
  assert (visible fs_demo (resolve cwd0 source_dir) (src0 ++ ["a"; "clip_play.mp4"]))
    as Hv2.
  { rewrite src0_resolved.
    apply (visible_below _ src0 "a" true true true); [vm_compute; reflexivity..|].
    apply (visible_here _ (src0 ++ ["a"]) "clip_play.mp4" true "clip");
      vm_compute; reflexivity. }
  assert (landing_path fs_overwrite (resolve cwd0 D0) (name_of (src0 ++ ["play.mp4"]))
          = dst0 ++ ["play.mp4"]) as Hl by run.
  destruct (C1_moved_iff_match cwd0 home0 fs_overwrite plain_cwd0 plain_home0
              ltac:(apply plain_names_decide; vm_compute; reflexivity))
    as [_ Hgo].
  destruct (Hgo apart0 ltac:(run) (src0 ++ ["play.mp4"]) "new" Hv1 ltac:(run))
    as [_ Hm].
  destruct (Hm ltac:(run)) as (Hgone & _ & _ & Huniq).
  apply Huniq in Hone. rewrite Hl in Hone. clear Hgo Hm Huniq.
  destruct (C1_moved_iff_match cwd0 home0 fs_demo plain_cwd0 plain_home0
              ltac:(apply plain_names_decide; vm_compute; reflexivity))
    as [Hstay Hgo].
  destruct (Hstay (src0 ++ ["b"; "notes.txt"]) "notes" ltac:(run) ltac:(run))
    as [Hnotes _].
  destruct (Hgo apart0 ltac:(run) (src0 ++ ["a"; "clip_play.mp4"]) "clip" Hv2 ltac:(run))
    as [_ Hm].
  destruct (Hm ltac:(run)) as (Hclip & _).
  exact (conj Hgone (conj Hone (conj Hnotes Hclip))).
Defined.

(** C2 on two runs.  With a home directory that cannot be written to,
    the making of the destination directory raises and the matching
    file stays.  With a directory that cannot be written to in the
    source tree, the move of the file in it raises after one move that
    went through, a file not reached yet stays, and the run ends in the
    filesystem the failing move was issued in or in that filesystem with
    a copy of the file in the destination directory. *)
Lemma C2_witness :
  (outcome_of (main0 fs_readonly_home) = Raised PermissionError
   ∧ final_fs (main0 fs_readonly_home) !! (src0 ++ ["play.mp4"])
     = Some (File "movie"))
  ∧ (moves (trace_of (main0 fs_partial)) =
       [("path/to/your/subdirectory/play1.mp4",
         "/home/u/Desktop/Filtered_Files/play1.mp4", Done tt);
        ("path/to/your/subdirectory/ro/play2.mp4",
         "/home/u/Desktop/Filtered_Files/play2.mp4", Raised PermissionError)]
     ∧ outcome_of (main0 fs_partial) = Raised PermissionError
     ∧ final_fs (main0 fs_partial) !! (src0 ++ ["a"; "play3.mp4"])
       = Some (File "three")
     ∧ ∃ pre root n,
         final_fs (main0 fs_partial) = pre
         ∨ ∃ data,
             pre !! (resolve cwd0 root ++ [n]) = Some (File data) ∧
             final_fs (main0 fs_partial)
             = <[landing_path fs_partial (resolve cwd0 D0) n := File data]> pre).
Proof.
  destruct (C2_faults_of_makedirs_and_moves cwd0 home0 fs_readonly_home)
    as (Hmk & _).
  (destruct (Hmk PermissionError ltac:(by vm_compute)) as (Ho & _ & Hfiles)).
  destruct (C2_faults_of_makedirs_and_moves cwd0 home0 fs_partial)
    as (_ & _ & Hrest & _ & _ & _ & Hfail).
  split. split. exact Ho. (apply Hfiles). (vm_compute; reflexivity).
  assert (moves (trace_of (main0 fs_partial)) =
            [("path/to/your/subdirectory/play1.mp4",
              "/home/u/Desktop/Filtered_Files/play1.mp4", Done tt);
             ("path/to/your/subdirectory/ro/play2.mp4",
              "/home/u/Desktop/Filtered_Files/play2.mp4", Raised PermissionError)])
    as Hmoves. (vm_compute; reflexivity).
  assert (outcome_of (main0 fs_partial) = Raised PermissionError) as Hout.
  (vm_compute; reflexivity).
  split. exact Hmoves. split. exact Hout. split.
  - (apply Hrest). (vm_compute; reflexivity).
    intros Ht%touched_by_moves. (rewrite Hmoves in Ht).
    apply Exists_cons in Ht as [Ht|Ht]. (vm_compute in Ht). (by destruct_or!).
    apply Exists_cons in Ht as [Ht|Ht]. (vm_compute in Ht). (by destruct_or!).
    by apply Exists_nil in Ht.
  - destruct (run_raised_by_move cwd0 home0 fs_partial PermissionError
                ltac:(vm_compute; reflexivity) Hout) as (t' & pre & s & d & Hl).
    destruct (Hfail plain_cwd0 plain_home0
                ltac:(apply plain_names_decide; vm_compute; reflexivity)
                t' pre s d PermissionError [] Hl)
      as (root & n & _ & _ & _ & _ & Hfinal).
    exists pre, root, n. exact Hfinal.
Defined.





End RunClaimsOnExamples.
